(** * KittiBox single-box decoder (decoder/my_yolo.py): decoder, loss, evaluation

    A shallow embedding of [_rezoom], [apply_rezoom], [_build_yolo_fc_layer],
    [decoder], [loss] and the accuracy part of [evaluation].

    Conventions of the embedding:
    - a TensorFlow tensor is its static shape together with its row-major
      buffer ([tensor]); every operation that TensorFlow refuses on a shape
      mismatch returns [None];
    - float32 values are idealised as real numbers ([R]); comparisons on
      them go through [Rlt_dec];
    - the variables of the graph ([tf.get_variable]) are read from an explicit
      store, the random draws of [tf.nn.dropout] from an explicit source of
      keep masks, and the ['losses'] collection is threaded through [loss];
    - [train_utils.bilinear_select] and [tf.user_ops.hungarian] live outside
      this file of the repository and are section variables; so are the point
      sampler behind [train_utils.interp] and the box-wise functions behind
      [train_utils.to_x1y1x2y2] and [train_utils.iou], which the model applies
      row by row;
    - the summaries written for TensorBoard and the image files of
      [evaluation] are left out. *)

From Stdlib Require Import String Ascii DecimalString Decimal.
From Stdlib Require Import Arith Lia ZArith Reals Lra Bool List.
Import ListNotations.

Set Implicit Arguments.

(** ** Fallible computations *)

Definition bind {A B : Type} (m : option A) (f : A -> option B) : option B :=
  match m with
  | Some a => f a
  | None => None
  end.

Notation "x <- m ;; k" := (bind m (fun x => k))
  (at level 61, m at next level, right associativity).
Notation "' p <- m ;; k" := (bind m (fun x => match x with p => k end))
  (at level 61, p pattern, m at next level, right associativity).

Definition guard (b : bool) : option unit := if b then Some tt else None.

Fixpoint mapM {A B : Type} (f : A -> option B) (l : list A) : option (list B) :=
  match l with
  | [] => Some []
  | a :: l' => b <- f a ;; bs <- mapM f l' ;; Some (b :: bs)
  end.

(** ** Row-major index arithmetic *)

Fixpoint prod (s : list nat) : nat :=
  match s with
  | [] => 1
  | n :: r => n * prod r
  end.

(** Offset of a multi-index in a buffer of shape [s]. *)
Fixpoint ravel (s idx : list nat) : nat :=
  match s, idx with
  | _ :: r, i :: idx' => i * prod r + ravel r idx'
  | _, _ => 0
  end.

(** Multi-index of an offset in a buffer of shape [s]. *)
Fixpoint unravel (s : list nat) (j : nat) : list nat :=
  match s with
  | [] => []
  | _ :: r => j / prod r :: unravel r (j mod prod r)
  end.

(** [idx] is a valid multi-index for shape [s]. *)
Fixpoint in_bounds (s idx : list nat) : Prop :=
  match s, idx with
  | [], [] => True
  | n :: r, i :: idx' => i < n /\ in_bounds r idx'
  | _, _ => False
  end.

Definition eqb_shape (s1 s2 : list nat) : bool :=
  if list_eq_dec Nat.eq_dec s1 s2 then true else false.

(** ** Tensors *)

Record tensor (A : Type) : Type := Tensor {
  tshape : list nat;
  tdata : list A
}.

Arguments Tensor {A} _ _.

Section TensorOps.
Context {A : Type}.
Variable d : A.

Definition size (t : tensor A) : nat := length (tdata t).

(** The buffer has as many elements as the shape announces. *)
Definition wf (t : tensor A) : Prop := length (tdata t) = prod (tshape t).

Definition get (t : tensor A) (idx : list nat) : A :=
  nth (ravel (tshape t) idx) (tdata t) d.

(** The tensor of shape [s] whose element at [idx] is [f idx]. *)
Definition tab (s : list nat) (f : list nat -> A) : tensor A :=
  Tensor s (map (fun j => f (unravel s j)) (seq 0 (prod s))).

(** [tf.reshape(t, s)] for a fully specified shape [s]. *)
Definition reshape (t : tensor A) (s : list nat) : option (tensor A) :=
  if size t =? prod s then Some (Tensor s (tdata t)) else None.

(** [tf.reshape(t, [-1])]. *)
Definition reshape_flat (t : tensor A) : tensor A :=
  Tensor [size t] (tdata t).

(** [tf.reshape(t, [-1, c])]. *)
Definition reshape_rows (t : tensor A) (c : nat) : option (tensor A) :=
  if (0 <? c) && (size t mod c =? 0)
  then Some (Tensor [size t / c; c] (tdata t))
  else None.

(** Row [r] of a buffer seen as rows of width [w]. *)
Definition row_of (w : nat) (t : tensor A) (r : nat) : list A :=
  firstn w (skipn (r * w) (tdata t)).

(** Shape of the result of a broadcasting operation, on reversed shapes. *)
Fixpoint bshape_rev (r1 r2 : list nat) : option (list nat) :=
  match r1, r2 with
  | [], r => Some r
  | r, [] => Some r
  | n :: r1', m :: r2' =>
      r <- bshape_rev r1' r2' ;;
      if n =? m then Some (n :: r)
      else if n =? 1 then Some (m :: r)
      else if m =? 1 then Some (n :: r)
      else None
  end.

Definition bshape (s1 s2 : list nat) : option (list nat) :=
  option_map (@rev nat) (bshape_rev (rev s1) (rev s2)).

(** Index, in an operand of shape [s], of the element that the broadcast
    result reads at [idx]: leading axes the operand lacks are dropped and
    axes of extent 1 are read at 0. *)
Definition bidx (s idx : list nat) : list nat :=
  map (fun ni => if fst ni =? 1 then 0 else snd ni)
      (combine s (skipn (length idx - length s) idx)).

(** [tf.slice]-style selections used by the source. *)

(** [t[:, :, a:b]] on a rank-3 tensor. *)
Definition slice_last3 (t : tensor A) (a b : nat) : option (tensor A) :=
  match tshape t with
  | [n; k; c] =>
      Some (tab [n; k; Nat.min b c - a]
                (fun idx => match idx with
                            | [i; j; l] => get t [i; j; a + l]
                            | _ => d
                            end))
  | _ => None
  end.

(** [t[:, :, :, :c]] on a rank-4 tensor. *)
Definition take_channels (t : tensor A) (c : nat) : option (tensor A) :=
  match tshape t with
  | [b; h; w; ch] =>
      Some (tab [b; h; w; Nat.min c ch]
                (fun idx => match idx with
                            | [i; y; x; l] => get t [i; y; x; l]
                            | _ => d
                            end))
  | _ => None
  end.

(** [t[:, k, :]] on a rank-3 tensor. *)
Definition select_mid (t : tensor A) (k : nat) : option (tensor A) :=
  match tshape t with
  | [n; m; f] =>
      if k <? m
      then Some (tab [n; f] (fun idx => match idx with
                                        | [i; l] => get t [i; k; l]
                                        | _ => d
                                        end))
      else None
  | _ => None
  end.

(** [t[:, :, k, :]] on a rank-4 tensor. *)
Definition select_slot (t : tensor A) (k : nat) : option (tensor A) :=
  match tshape t with
  | [b; g; m; c] =>
      if k <? m
      then Some (tab [b; g; c] (fun idx => match idx with
                                           | [i; j; l] => get t [i; j; k; l]
                                           | _ => d
                                           end))
      else None
  | _ => None
  end.

(** [tf.concat(0, ts)]: the operands agree on every axis but the first. *)
Definition concat0 (ts : list (tensor A)) : option (tensor A) :=
  match ts with
  | [] => None
  | t0 :: _ =>
      match tshape t0 with
      | _ :: rest =>
          if forallb (fun t => match tshape t with
                               | _ :: rest' => eqb_shape rest' rest
                               | [] => false
                               end) ts
          then Some (Tensor (fold_right (fun t acc => hd 0 (tshape t) + acc) 0 ts :: rest)
                            (concat (map (@tdata A) ts)))
          else None
      | [] => None
      end
  end.

(** [tf.concat(1, ts)]: the operands agree on every axis but the second. *)
Definition concat1 (ts : list (tensor A)) : option (tensor A) :=
  match ts with
  | [] => None
  | t0 :: _ =>
      match tshape t0 with
      | n :: _ :: rest =>
          if forallb (fun t => match tshape t with
                               | n' :: _ :: rest' => (n' =? n) && eqb_shape rest' rest
                               | _ => false
                               end) ts
          then Some (Tensor
                       (n :: fold_right (fun t acc => hd 0 (tl (tshape t)) + acc) 0 ts :: rest)
                       (flat_map (fun i =>
                          flat_map (fun t => row_of (prod (tl (tshape t))) t i) ts)
                          (seq 0 n)))
          else None
      | _ => None
      end
  end.

(** Position of [j] in the permutation [perm]. *)
Fixpoint index_of (j : nat) (perm : list nat) : nat :=
  match perm with
  | [] => 0
  | p :: perm' => if p =? j then 0 else S (index_of j perm')
  end.

(** [tf.transpose(t, perm)]: axis [a] of the result is axis [perm[a]] of [t]. *)
Definition transpose (t : tensor A) (perm : list nat) : option (tensor A) :=
  let s := tshape t in
  if (length perm =? length s)
     && forallb (fun j => existsb (Nat.eqb j) perm) (seq 0 (length s))
  then Some (tab (map (fun p => nth p s 0) perm)
                 (fun idx => get t (map (fun j => nth (index_of j perm) idx 0)
                                        (seq 0 (length s)))))
  else None.
End TensorOps.

(** Elementwise operation with numpy-style broadcasting. *)
Definition bop {A B C : Type} (da : A) (db : B) (f : A -> B -> C)
    (a : tensor A) (b : tensor B) : option (tensor C) :=
  s <- bshape (tshape a) (tshape b) ;;
  Some (tab s (fun idx => f (get da a (bidx (tshape a) idx))
                            (get db b (bidx (tshape b) idx)))).

Definition tmap {A B : Type} (f : A -> B) (t : tensor A) : tensor B :=
  Tensor (tshape t) (map f (tdata t)).

(** ** Numeric operations *)

Open Scope R_scope.

Definition rsum (l : list R) : R := fold_right Rplus 0 l.

(** Sum of [f 0 .. f (n-1)]. *)
Definition sum_n (n : nat) (f : nat -> R) : R := rsum (map f (seq 0 n)).

Definition Rltb (x y : R) : bool := if Rlt_dec x y then true else false.

(** [tf.greater(x, y)]. *)
Definition Rgtb (x y : R) : bool := Rltb y x.

(** [tf.cast(b, 'float32')] on a boolean. *)
Definition b2r (b : bool) : R := if b then 1 else 0.

(** [tf.cast(b, 'int64')], [tf.to_int64(b)] on a boolean. *)
Definition b2z (b : bool) : Z := if b then 1%Z else 0%Z.

(** [tf.cast(x, 'int32')] on a float: truncation toward zero. *)
Definition cast_int32 (x : R) : Z :=
  if Rle_dec 0 x then Int_part x else Z.opp (Int_part (- x)).

(** [tf.nn.relu]. *)
Definition relu (x : R) : R := Rmax x 0.

(** [tf.square]. *)
Definition square (x : R) : R := x * x.

(** [tf.reduce_sum(t)]. *)
Definition reduce_sum (t : tensor R) : R := rsum (tdata t).

(** [tf.reduce_mean(t)]. *)
Definition reduce_mean (t : tensor R) : R := rsum (tdata t) / INR (size t).

(** [tf.reduce_sum(t, 2)] on a rank-3 tensor. *)
Definition reduce_sum_axis2 (t : tensor R) : option (tensor R) :=
  match tshape t with
  | [n; k; c] =>
      Some (tab [n; k] (fun idx => match idx with
                                   | [i; j] => sum_n c (fun l => get 0 t [i; j; l])
                                   | _ => 0
                                   end))
  | _ => None
  end.

(** [tf.matmul(a, b)] on rank-2 tensors. *)
Definition matmul (a b : tensor R) : option (tensor R) :=
  match tshape a, tshape b with
  | [n; k], [k'; m] =>
      if k =? k'
      then Some (tab [n; m]
                     (fun idx => match idx with
                                 | [i; j] => sum_n k (fun l => get 0 a [i; l] * get 0 b [l; j])
                                 | _ => 0
                                 end))
      else None
  | _, _ => None
  end.

(** [tf.nn.softmax(t)] on a rank-2 tensor of logits: softmax of each row. *)
Definition softmax (t : tensor R) : option (tensor R) :=
  match tshape t with
  | [n; c] =>
      Some (tab [n; c]
                (fun idx => match idx with
                            | [i; j] => exp (get 0 t [i; j])
                                        / sum_n c (fun l => exp (get 0 t [i; l]))
                            | _ => 0
                            end))
  | _ => None
  end.

(** Cross-entropy of one row of logits against the class [label]:
    minus the logarithm of the softmax probability of [label]. *)
Definition xent_row (logits : list R) (label : nat) : R :=
  ln (rsum (map exp logits)) - nth label logits 0.

(** [tf.nn.sparse_softmax_cross_entropy_with_logits(logits, labels)]:
    [logits] is [M, C], [labels] is [M] with entries in [0, C); a label out
    of that range is refused. *)
Definition sparse_softmax_cross_entropy_with_logits
    (logits : tensor R) (labels : tensor Z) : option (tensor R) :=
  match tshape logits, tshape labels with
  | [m; c], [m'] =>
      _ <- guard ((m =? m')
                  && forallb (fun l => (0 <=? l)%Z && (l <? Z.of_nat c)%Z) (tdata labels)) ;;
      Some (tab [m] (fun idx => match idx with
                                | [i] => xent_row (row_of c logits i)
                                                  (Z.to_nat (get 0%Z labels [i]))
                                | _ => 0
                                end))
  | _, _ => None
  end.

(** [tf.nn.dropout(t, keep_prob)] under the keep mask [keep]: a kept entry is
    scaled by [1 / keep_prob], a dropped one is 0. *)
Definition dropout (keep : nat -> bool) (t : tensor R) (keep_prob : R) : tensor R :=
  Tensor (tshape t)
         (map (fun jx => if keep (fst jx) then snd jx / keep_prob else 0)
              (combine (seq 0 (size t)) (tdata t))).

(** Index of the first maximum of a row: [tf.argmax] on one row. *)
Fixpoint argmax_from (best_i : nat) (best : R) (i : nat) (l : list R) : nat :=
  match l with
  | [] => best_i
  | x :: l' =>
      if Rltb best x then argmax_from i x (S i) l'
      else argmax_from best_i best (S i) l'
  end.

Definition argmax (l : list R) : nat :=
  match l with
  | [] => 0%nat
  | x :: l' => argmax_from 0 x 1 l'
  end.

(** [tf.argmax(t, 2)] on a rank-3 tensor. *)
Definition argmax_axis2 (t : tensor R) : option (tensor nat) :=
  match tshape t with
  | [b; g; c] =>
      Some (tab [b; g] (fun idx => match idx with
                                   | [i; j] => argmax (row_of c t (i * g + j))
                                   | _ => 0%nat
                                   end))
  | _ => None
  end.

(** ** Hyperparameters, variables, random draws *)

(** [hyp['solver']]. *)
Record solver_hypes : Type := {
  head_weights : list R;
  hungarian_iou : R
}.

(** The [hyp] dictionary, with the keys this file reads.
    [rezoom_change_loss] is [Some s] for a string [s] and [None] for a falsy
    non-string ([None], [False]); [rezoom_conf_scale] is optional in the
    source ([hyp.get('rezoom_conf_scale', 50)]). *)
Record hypes : Type := {
  grid_width : nat;
  grid_height : nat;
  batch_size : nat;
  rnn_len : nat;
  num_classes : nat;
  cnn_channels : nat;
  lstm_size : nat;
  early_feat_channels : nat;
  use_rezoom : bool;
  reregress : bool;
  use_lstm : bool;
  rezoom_change_loss : option string;
  rezoom_w_coords : list R;
  rezoom_h_coords : list R;
  rezoom_conf_scale : option R;
  solver : solver_hypes
}.

(** Values of the graph's variables, by full name. *)
Definition var_store : Type := string -> option (tensor R).

(** [tf.get_variable(name, shape=shape)] inside the scope [scope]: the
    variable of that name, which must have the requested shape. *)
Definition get_variable (vars : var_store) (scope name : string) (shape : list nat)
    : option (tensor R) :=
  t <- vars (scope ++ "/" ++ name)%string ;;
  if eqb_shape (tshape t) shape then Some t else None.

(** ['...%d' % k]. *)
Definition fmt_d (k : nat) : string := NilEmpty.string_of_uint (Nat.to_uint k).

(** The keep masks drawn by the [tf.nn.dropout] calls of one forward pass. *)
Record dropout_draws : Type := {
  draw_raw_output : nat -> bool;
  draw_rezoom_features : nat -> bool;
  draw_ip1 : nat -> nat -> bool
}.

(** [{'train': None, 'val': True}[phase]]: a [KeyError] on any other phase. *)
Definition phase_reuse (phase : string) : option bool :=
  if String.eqb phase "train" then Some false
  else if String.eqb phase "val" then Some true
  else None.

(** The tuple returned by [decoder]. [pred_confs_deltas] is [None] without
    rezoom; [pred_boxes_deltas] is [None] without rezoom and for the empty
    list that [apply_rezoom] returns without [reregress]. *)
Record decoded_logits : Type := {
  pred_boxes : tensor R;
  pred_logits : tensor R;
  pred_confidences : tensor R;
  pred_confs_deltas : option (tensor R);
  pred_boxes_deltas : option (tensor R)
}.

(** ** The decoder *)

Section Decoder.

(** [train_utils.bilinear_select(hyp, pred_boxes, early_feat,
    early_feat_channels, w_offset, h_offset)]: the interpolation points of
    every predicted box, one row per box. *)
Variable bilinear_select :
  hypes -> tensor R -> tensor R -> nat -> R -> R -> option (tensor R).

(** The value that bilinear interpolation reads in a feature map at one
    interpolation point (a row of indices), for one channel. *)
Variable interp_point : tensor R -> list R -> nat -> R.

(** Modelled from the spec: [train_utils.interp(early_feat, indices,
    channel_dim)] is not in this file; it returns the gathered features,
    [channel_dim] interpolated values for each row of [indices]. *)
Definition interp (early_feat indices : tensor R) (channel_dim : nat)
    : option (tensor R) :=
  match tshape indices with
  | [n; w] =>
      Some (tab [n; channel_dim]
                (fun idx => match idx with
                            | [r; c] => interp_point early_feat (row_of w indices r) c
                            | _ => 0
                            end))
  | _ => None
  end.

Definition _rezoom (hyp : hypes) (pred_boxes early_feat : tensor R)
    (early_feat_channels : nat) (w_offsets h_offsets : list R)
    : option (tensor R) :=
  let grid_size := (grid_width hyp * grid_height hyp)%nat in
  let outer_size := (grid_size * batch_size hyp)%nat in
  indices <- mapM (fun wh => bilinear_select hyp pred_boxes early_feat
                                             early_feat_channels (fst wh) (snd wh))
                  (list_prod w_offsets h_offsets) ;;
  interp_indices <- concat0 indices ;;
  rezoom_features <- interp early_feat interp_indices early_feat_channels ;;
  rezoom_features_r <- reshape rezoom_features
                         [(length w_offsets * length h_offsets)%nat;
                          outer_size; rnn_len hyp; early_feat_channels] ;;
  rezoom_features_t <- transpose 0 rezoom_features_r [1; 2; 0; 3]%nat ;;
  reshape rezoom_features_t
          [outer_size; rnn_len hyp;
           (length w_offsets * length h_offsets * early_feat_channels)%nat].

(** One round of the loop of [apply_rezoom]: the delta confidences and, with
    [reregress], the delta boxes of slot [k]. *)
Definition rezoom_slot (hyp : hypes) (vars : var_store) (draws : dropout_draws)
    (phase : string) (outer_size num_offsets : nat)
    (raw_output rezoom_features : tensor R) (k : nat)
    : option (tensor R * option (tensor R)) :=
  let early_feat_channels := early_feat_channels hyp in
  rezoom_k <- select_mid 0 rezoom_features k ;;
  delta_features <- concat1 [raw_output; tmap (fun x => x / 1000) rezoom_k] ;;
  let dim := 128%nat in
  let shape := [(lstm_size hyp + early_feat_channels * num_offsets)%nat; dim] in
  delta_weights1 <- get_variable vars "decoder" ("delta_ip1" ++ fmt_d k) shape ;;
  ip1 <- option_map (tmap relu) (matmul delta_features delta_weights1) ;;
  let ip1 := if String.eqb phase "train" then dropout (draw_ip1 draws k) ip1 0.5
             else ip1 in
  delta_confs_weights <- get_variable vars "decoder" ("delta_ip2" ++ fmt_d k)
                                      [dim; num_classes hyp] ;;
  box_delta <-
    (if reregress hyp then
       delta_boxes_weights <- get_variable vars "decoder" ("delta_ip_boxes" ++ fmt_d k)
                                           [dim; 4%nat] ;;
       rere_feature <- option_map (tmap (fun x => x * 5)) (matmul ip1 delta_boxes_weights) ;;
       r <- reshape rere_feature [outer_size; 1%nat; 4%nat] ;;
       Some (Some r)
     else Some None) ;;
  let scale := match rezoom_conf_scale hyp with Some s => s | None => 50 end in
  feature2 <- option_map (tmap (fun x => x * scale)) (matmul ip1 delta_confs_weights) ;;
  conf_delta <- reshape feature2 [outer_size; 1%nat; num_classes hyp] ;;
  Some (conf_delta, box_delta).

(** The delta boxes collected by the loop, in slot order. *)
Fixpoint collect_boxes (l : list (tensor R * option (tensor R))) : list (tensor R) :=
  match l with
  | [] => []
  | (_, Some b) :: l' => b :: collect_boxes l'
  | (_, None) :: l' => collect_boxes l'
  end.

Definition apply_rezoom (hyp : hypes) (vars : var_store) (draws : dropout_draws)
    (phase : string) (early_feat raw_output pred_box pred_confidences : tensor R)
    : option (tensor R * option (tensor R)) :=
  let early_feat_channels := early_feat_channels hyp in
  early_feat <- take_channels 0 early_feat early_feat_channels ;;
  let grid_size := (grid_width hyp * grid_height hyp)%nat in
  let outer_size := (grid_size * batch_size hyp)%nat in
  let w_offsets := rezoom_w_coords hyp in
  let h_offsets := rezoom_h_coords hyp in
  let num_offsets := (length w_offsets * length h_offsets)%nat in
  rezoom_features <- _rezoom hyp pred_box early_feat early_feat_channels
                             w_offsets h_offsets ;;
  let rezoom_features :=
    if String.eqb phase "train"
    then dropout (draw_rezoom_features draws) rezoom_features 0.5
    else rezoom_features in
  deltas <- mapM (rezoom_slot hyp vars draws phase outer_size num_offsets
                              raw_output rezoom_features)
                 (seq 0 (rnn_len hyp)) ;;
  pred_confs_deltas <- concat1 (map fst deltas) ;;
  pred_confs_deltas <- reshape pred_confs_deltas
                         [(outer_size * rnn_len hyp)%nat; num_classes hyp] ;;
  pred_logits_squash <- reshape pred_confs_deltas
                          [(outer_size * rnn_len hyp)%nat; num_classes hyp] ;;
  pred_confidences_squash <- softmax pred_logits_squash ;;
  pred_confidences <- reshape pred_confidences_squash
                        [outer_size; rnn_len hyp; num_classes hyp] ;;
  pred_boxes_deltas <-
    (if reregress hyp then option_map Some (concat1 (collect_boxes deltas))
     else Some None) ;;
  Some (pred_confs_deltas, pred_boxes_deltas).

Definition _build_yolo_fc_layer (hyp : hypes) (vars : var_store)
    (cnn_output : tensor R) : option (tensor R) :=
  let scale_down := 0.01 in
  let grid_size := (grid_width hyp * grid_height hyp)%nat in
  let channels := cnn_channels hyp in
  lstm_input <- reshape (tmap (fun x => x * scale_down) cnn_output)
                        [(batch_size hyp * grid_size)%nat; channels] ;;
  w <- get_variable vars "decoder/Overfeat" "ip" [cnn_channels hyp; lstm_size hyp] ;;
  matmul lstm_input w.

Definition decoder (hyp : hypes) (vars : var_store) (draws : dropout_draws)
    (logits : tensor R * tensor R * tensor R) (phase : string)
    : option decoded_logits :=
  let '(cnn_output, early_feat, _) := logits in
  let grid_size := (grid_width hyp * grid_height hyp)%nat in
  let outer_size := (grid_size * batch_size hyp)%nat in
  reuse <- phase_reuse phase ;;
  let num_ex := (batch_size hyp * grid_width hyp * grid_height hyp)%nat in
  let channels := cnn_channels hyp in
  cnn_output <- reshape cnn_output [num_ex; channels] ;;
  raw_output <- _build_yolo_fc_layer hyp vars cnn_output ;;
  let raw_output := if String.eqb phase "train"
                    then dropout (draw_raw_output draws) raw_output 0.5
                    else raw_output in
  box_weights <- get_variable vars "decoder" "box_ip" [lstm_size hyp; 4%nat] ;;
  conf_weights <- get_variable vars "decoder" "conf_ip"
                               [lstm_size hyp; num_classes hyp] ;;
  box_ip <- matmul raw_output box_weights ;;
  pred_box <- reshape (tmap (fun x => x * 50) box_ip) [outer_size; 1%nat; 4%nat] ;;
  conf_ip <- matmul raw_output conf_weights ;;
  pred_logits <- reshape conf_ip [outer_size; num_classes hyp] ;;
  pred_confidences <- softmax pred_logits ;;
  pred_confidences <- reshape pred_confidences
                              [outer_size; rnn_len hyp; num_classes hyp] ;;
  rezoom_deltas <-
    (if use_rezoom hyp
     then option_map (fun cb => (Some (fst cb), snd cb))
            (apply_rezoom hyp vars draws phase early_feat raw_output pred_box
                          pred_confidences)
     else Some (None, None)) ;;
  let '(pred_confs_deltas, pred_boxes_deltas) := rezoom_deltas in
  Some {| pred_boxes := pred_box;
          pred_logits := pred_logits;
          pred_confidences := pred_confidences;
          pred_confs_deltas := pred_confs_deltas;
          pred_boxes_deltas := pred_boxes_deltas |}.

End Decoder.

(** ** The loss *)

Section Loss.

(** [tf.user_ops.hungarian(pred_boxes, outer_boxes, outer_flags, iou)]:
    the assignments, the permuted classes, the permuted ground truth and the
    presence mask. *)
Variable hungarian :
  tensor R -> tensor R -> tensor Z -> R ->
  option (tensor Z * tensor Z * tensor R * tensor R).

(** The corner form of one centre-form box, and the intersection over union
    of two corner-form boxes, as [train_utils] computes them. *)
Variable to_x1y1x2y2_box : list R -> list R.
Variable iou_box : list R -> list R -> R.

(** Modelled from the spec: [train_utils.to_x1y1x2y2(boxes)] is not in this
    file; it converts each row of an [M, 4] tensor from centre format to
    corner format. *)
Definition to_x1y1x2y2 (boxes : tensor R) : option (tensor R) :=
  match tshape boxes with
  | [m; 4%nat] =>
      Some (tab [m; 4%nat]
                (fun idx => match idx with
                            | [r; c] => nth c (to_x1y1x2y2_box (row_of 4 boxes r)) 0
                            | _ => 0
                            end))
  | _ => None
  end.

(** Modelled from the spec: [train_utils.iou(box1, box2)] is not in this
    file; it returns, for each row, the IoU of the two boxes of that row. *)
Definition iou (box1 box2 : tensor R) : option (tensor R) :=
  match tshape box1, tshape box2 with
  | [m; 4%nat], [m'; 4%nat] =>
      if m =? m'
      then Some (tab [m] (fun idx => match idx with
                                     | [r] => iou_box (row_of 4 box1 r) (row_of 4 box2 r)
                                     | _ => 0
                                     end))
      else None
  | _, _ => None
  end.

(** Lines 233-241: the matcher. With [use_lstm] the Hungarian primitive, else
    the identity assignment. Yields [(classes, perm_truth, pred_mask)]. *)
Definition match_truth (hypes : hypes) (outer_size : nat)
    (pred_boxes flags outer_boxes : tensor R) (outer_flags : tensor Z)
    : option (tensor R * tensor R * tensor R) :=
  if use_lstm hypes then
    '(assignments, classes, perm_truth, pred_mask) <-
       hungarian pred_boxes outer_boxes outer_flags (hungarian_iou (solver hypes)) ;;
    Some (tmap IZR classes, perm_truth, pred_mask)
  else
    classes <- reshape flags [outer_size; 1%nat] ;;
    perm_truth <- reshape outer_boxes [outer_size; 1%nat; 4%nat] ;;
    pred_mask <- reshape (tmap (fun c => b2r (Rgtb c 0)) classes)
                         [outer_size; 1%nat; 1%nat] ;;
    Some (classes, perm_truth, pred_mask).

(** Lines 263-278: the target [inside] of the delta-confidence loss. *)
Definition rezoom_inside (hypes : hypes) (classes perm_truth pred_boxes : tensor R)
    : option (tensor Z) :=
  match rezoom_change_loss hypes with
  | Some s =>
      if String.eqb s "center" then
        truth_xy <- slice_last3 0 perm_truth 0 2 ;;
        pred_xy <- slice_last3 0 pred_boxes 0 2 ;;
        diff <- bop 0 0 Rminus truth_xy pred_xy ;;
        truth_wh <- slice_last3 0 perm_truth 2 4 ;;
        error <- bop 0 0 Rdiv diff (tmap (fun x => Rmax x 1) truth_wh) ;;
        square_error <- reduce_sum_axis2 (tmap square error) ;;
        both <- bop false false andb
                    (tmap (fun e => Rltb e (0.2 ^ 2)) square_error)
                    (tmap (fun c => Rgtb c 0) classes) ;;
        Some (reshape_flat (tmap b2z both))
      else if String.eqb s "iou" then
        pred_boxes_flat <- reshape_rows pred_boxes 4 ;;
        perm_truth_flat <- reshape_rows perm_truth 4 ;;
        pred_corners <- to_x1y1x2y2 pred_boxes_flat ;;
        truth_corners <- to_x1y1x2y2 perm_truth_flat ;;
        iou <- iou pred_corners truth_corners ;;
        Some (reshape_flat (tmap (fun v => b2z (Rgtb v 0.5)) iou))
      else
        (* assert not hypes['rezoom_change_loss'] *)
        _ <- guard (String.eqb s "") ;;
        Some (reshape_flat (tmap (fun c => b2z (Rgtb c 0)) classes))
  | None =>
      Some (reshape_flat (tmap (fun c => b2z (Rgtb c 0)) classes))
  end.

(** Lines 310-314: the loss joins the ['losses'] collection and the total is
    the sum of the collection. *)
Definition register_loss (losses : list R) (loss confidences_loss boxes_loss : R)
    : option (list R * (R * R * R)) :=
  let losses := losses ++ [loss] in
  let total_loss := rsum losses in
  Some (losses, (total_loss, confidences_loss, boxes_loss)).

(** [loss(hypes, decoded_logits, labels, phase)], run with the collection
    ['losses'] holding [losses]; returns the collection afterwards and
    [(total_loss, confidences_loss, boxes_loss)]. The histogram summaries of
    lines 298-305 are left out. *)
Definition loss (hypes : hypes) (decoded : decoded_logits)
    (labels : tensor R * tensor R * tensor R) (phase : string) (losses : list R)
    : option (list R * (R * R * R)) :=
  let '(flags, confidences, boxes) := labels in
  let pred_boxes := pred_boxes decoded in
  let pred_logits := pred_logits decoded in
  let grid_size := (grid_width hypes * grid_height hypes)%nat in
  let outer_size := (grid_size * batch_size hypes)%nat in
  reuse <- phase_reuse phase ;;
  outer_boxes <- reshape boxes [outer_size; rnn_len hypes; 4%nat] ;;
  outer_flags <- option_map (tmap cast_int32)
                            (reshape flags [outer_size; rnn_len hypes]) ;;
  '(classes, perm_truth, pred_mask) <-
     match_truth hypes outer_size pred_boxes flags outer_boxes outer_flags ;;
  true_classes <- reshape (tmap (fun c => b2z (Rgtb c 0)) classes)
                          [(outer_size * rnn_len hypes)%nat] ;;
  pred_logit_r <- reshape pred_logits
                          [(outer_size * rnn_len hypes)%nat; num_classes hypes] ;;
  cross_entropy <- sparse_softmax_cross_entropy_with_logits pred_logit_r true_classes ;;
  let cross_entropy_sum := reduce_sum cross_entropy in
  let head := head_weights (solver hypes) in
  head0 <- nth_error head 0 ;;
  let confidences_loss := cross_entropy_sum / INR outer_size * head0 in
  masked <- bop 0 0 Rmult pred_boxes pred_mask ;;
  diff <- bop 0 0 Rminus perm_truth masked ;;
  residual <- reshape diff [outer_size; rnn_len hypes; 4%nat] ;;
  head1 <- nth_error head 1 ;;
  let boxes_loss := reduce_sum (tmap Rabs residual) / INR outer_size * head1 in
  if use_rezoom hypes then
    inside <- rezoom_inside hypes classes perm_truth pred_boxes ;;
    pred_confs_deltas <- pred_confs_deltas decoded ;;
    cross_entropy <- sparse_softmax_cross_entropy_with_logits pred_confs_deltas inside ;;
    let delta_confs_loss := reduce_sum cross_entropy / INR outer_size * head0 * 0.1 in
    let loss := confidences_loss + boxes_loss + delta_confs_loss in
    if reregress hypes then
      pred_boxes_deltas <- pred_boxes_deltas decoded ;;
      corrected <- bop 0 0 Rplus pred_boxes pred_boxes_deltas ;;
      delta_unshaped <- bop 0 0 Rminus perm_truth corrected ;;
      delta_masked <- bop 0 0 Rmult delta_unshaped pred_mask ;;
      delta_residual <- reshape delta_masked [outer_size; rnn_len hypes; 4%nat] ;;
      let sqrt_delta := tmap (fun x => Rmin (square x) (10 ^ 2)) delta_residual in
      let delta_boxes_loss := reduce_sum sqrt_delta / INR outer_size * head1 * 0.03 in
      let boxes_loss := delta_boxes_loss in
      let loss := loss + delta_boxes_loss in
      register_loss losses loss confidences_loss boxes_loss
    else
      register_loss losses loss confidences_loss boxes_loss
  else
    let loss := confidences_loss + boxes_loss in
    register_loss losses loss confidences_loss boxes_loss.

End Loss.

(** ** The evaluation *)

(** A dictionary with the keys ['train'] and ['val']. *)
Record per_phase (A : Type) : Type := {
  on_train : A;
  on_val : A
}.

(** Lines 324-342: the accuracy of one phase. *)
Definition phase_accuracy (hyp : hypes) (labels : tensor R * tensor R * tensor R)
    (decoded : decoded_logits) : option R :=
  let '(flags, confidences, boxes) := labels in
  let grid_size := (grid_width hyp * grid_height hyp)%nat in
  pred_confidences_r <- reshape (pred_confidences decoded)
                          [batch_size hyp; grid_size; rnn_len hyp; num_classes hyp] ;;
  pred_boxes_r <- reshape (pred_boxes decoded)
                          [batch_size hyp; grid_size; rnn_len hyp; 4%nat] ;;
  true_slot0 <- select_slot 0 confidences 0 ;;
  true_argmax <- argmax_axis2 true_slot0 ;;
  pred_slot0 <- select_slot 0 pred_confidences_r 0 ;;
  pred_argmax <- argmax_axis2 pred_slot0 ;;
  a <- bop 0%nat 0%nat Nat.eqb true_argmax pred_argmax ;;
  Some (reduce_mean (tmap b2r a)).

(** [tf.train.ExponentialMovingAverage(decay).apply(values)] run once on the
    shadow values [shadow]. *)
Definition moving_avg_apply (decay : R) (shadow values : list R) : list R :=
  map (fun sv => fst sv - (1 - decay) * (fst sv - snd sv)) (combine shadow values).

(** [evaluation(hyp, images, labels, decoded_logits, losses, global_step)]:
    the accuracies of both phases and the effect of [smooth_op] on the
    moving-average state. The image summaries are left out. *)
Definition evaluation (hyp : hypes) (images : per_phase (tensor R))
    (labels : per_phase (tensor R * tensor R * tensor R))
    (decoded_logits : per_phase decoded_logits)
    (losses : per_phase (R * R * R)) (global_step : nat) (shadow : list R)
    : option (per_phase R * list R) :=
  acc_train <- phase_accuracy hyp (on_train labels) (on_train decoded_logits) ;;
  acc_val <- phase_accuracy hyp (on_val labels) (on_val decoded_logits) ;;
  let '(_, confidences_loss_train, boxes_loss_train) := on_train losses in
  let '(_, confidences_loss_val, boxes_loss_val) := on_val losses in
  let smooth := moving_avg_apply 0.95 shadow
                  [acc_train; acc_val;
                   confidences_loss_train; boxes_loss_train;
                   confidences_loss_val; boxes_loss_val] in
  Some ({| on_train := acc_train; on_val := acc_val |}, smooth).

(** Extent of an axis of the result of broadcasting two compatible axes. *)
Definition bdim (a b : nat) : nat := if (a =? 1)%nat then b else a.

Definition compat (a b : nat) : Prop := a = b \/ a = 1%nat \/ b = 1%nat.

(** The operands of the box losses, as rank-3 tensors over cells and slots. *)
Definition box_shapes (N K : nat) (perm_truth pred_boxes pred_mask : tensor R) : Prop :=
  tshape perm_truth = [N; K; 4%nat]
  /\ tshape pred_boxes = [N; 1%nat; 4%nat]
  /\ tshape pred_mask = [N; K; 1%nat].

(** ** Quantities named by the specification *)

(** The number of cells across the batch. *)
Definition outer_size_of (hyp : hypes) : nat :=
  (grid_width hyp * grid_height hyp * batch_size hyp)%nat.

(** The result of the matcher inside [loss]: [(classes, perm_truth,
    pred_mask)] for the decoded boxes and the labels at hand. *)
Definition loss_match
    (hungarian : tensor R -> tensor R -> tensor Z -> R ->
                 option (tensor Z * tensor Z * tensor R * tensor R))
    (hyp : hypes) (decoded : decoded_logits) (flags boxes : tensor R)
    : option (tensor R * tensor R * tensor R) :=
  match_truth hungarian hyp (outer_size_of hyp) (pred_boxes decoded) flags
              (Tensor [outer_size_of hyp; rnn_len hyp; 4%nat] (tdata boxes))
              (tmap cast_int32 (Tensor [outer_size_of hyp; rnn_len hyp] (tdata flags))).

(** The binary target of slot [s]: 1 when the matched class is greater than
    0, else 0. *)
Definition slot_target (classes : tensor R) (s : nat) : nat :=
  if Rgtb (nth s (tdata classes) 0) 0 then 1%nat else 0%nat.

(** The classification loss in the words of the specification: the
    cross-entropy of every slot's logits against its binary target, summed
    over the [outer_size * rnn_len] slots, divided by [outer_size] and
    weighted by [head_weights[0]]. *)
Definition classification_loss_spec (hyp : hypes) (pred_logits classes : tensor R)
    (head0 : R) : R :=
  sum_n (outer_size_of hyp * rnn_len hyp)
        (fun s => xent_row (row_of (num_classes hyp) pred_logits s)
                           (slot_target classes s))
  / INR (outer_size_of hyp) * head0.

(** The base box-regression loss as the code computes it, slot by slot, for
    ground truth and mask of shape [(outer_size, rnn_len, .)] and one
    predicted box per cell: the prediction alone is multiplied by the mask. *)
Definition base_boxes_loss_spec (hyp : hypes) (perm_truth pred_boxes pred_mask : tensor R)
    (head1 : R) : R :=
  sum_n (outer_size_of hyp) (fun i =>
    sum_n (rnn_len hyp) (fun k =>
      sum_n 4 (fun c =>
        Rabs (get 0 perm_truth [i; k; c]
              - get 0 pred_boxes [i; 0%nat; c] * get 0 pred_mask [i; k; 0%nat]))))
  / INR (outer_size_of hyp) * head1.

(** The re-regression term in the words of the specification: the residual
    of the corrected box, masked, squared component by component, each
    square clamped to 100, summed, divided by [outer_size] and weighted by
    [head_weights[1] * 0.03]. *)
Definition reregress_loss_spec (hyp : hypes)
    (perm_truth pred_boxes pred_boxes_deltas pred_mask : tensor R) (head1 : R) : R :=
  sum_n (outer_size_of hyp) (fun i =>
    sum_n (rnn_len hyp) (fun k =>
      sum_n 4 (fun c =>
        Rmin (square ((get 0 perm_truth [i; k; c]
                       - (get 0 pred_boxes [i; 0%nat; c]
                          + get 0 pred_boxes_deltas [i; k; c]))
                      * get 0 pred_mask [i; k; 0%nat]))
             100)))
  / INR (outer_size_of hyp) * (head1 * 0.03).

(** The delta-confidence loss in the words of the specification: the
    cross-entropy of every slot's delta logits against the target [inside],
    summed, divided by [outer_size] and weighted by [head_weights[0] * 0.1]. *)
Definition delta_confs_loss_spec (hyp : hypes) (deltas : tensor R) (inside : tensor Z)
    (head0 : R) : R :=
  sum_n (outer_size_of hyp * rnn_len hyp)
        (fun s => xent_row (row_of (num_classes hyp) deltas s)
                           (Z.to_nat (nth s (tdata inside) 0%Z)))
  / INR (outer_size_of hyp) * (head0 * 0.1).

(** The squared normalised centre offset of slot [(i, k)]: the difference of
    the centres, each coordinate divided by the larger of the ground-truth
    width (height) and 1, squared and summed. *)
Definition center_offset_sq (perm_truth pred_boxes : tensor R) (i k : nat) : R :=
  square ((get 0 perm_truth [i; k; 0%nat] - get 0 pred_boxes [i; 0%nat; 0%nat])
          / Rmax (get 0 perm_truth [i; k; 2%nat]) 1)
  + square ((get 0 perm_truth [i; k; 1%nat] - get 0 pred_boxes [i; 0%nat; 1%nat])
            / Rmax (get 0 perm_truth [i; k; 3%nat]) 1).

(** The four coordinates of a box. *)
Definition box4 (l : list R) : list R := [nth 0 l 0; nth 1 l 0; nth 2 l 0; nth 3 l 0].

(** The IoU of the predicted and the matched ground-truth box of slot [s],
    both taken to corner form. *)
Definition slot_iou (to_x1y1x2y2_box : list R -> list R)
    (iou_box : list R -> list R -> R) (perm_truth pred_boxes : tensor R) (s : nat) : R :=
  iou_box (box4 (to_x1y1x2y2_box (row_of 4 pred_boxes s)))
          (box4 (to_x1y1x2y2_box (row_of 4 perm_truth s))).

(** The store holds a variable of that full name and shape. *)
Definition has_variable (vars : var_store) (name : string) (shape : list nat) : Prop :=
  exists t, vars name = Some t /\ tshape t = shape.

(** The variables that [decoder] reads without rezoom. *)
Definition decoder_variables (hyp : hypes) (vars : var_store) : Prop :=
  has_variable vars "decoder/Overfeat/ip" [cnn_channels hyp; lstm_size hyp]
  /\ has_variable vars "decoder/box_ip" [lstm_size hyp; 4%nat]
  /\ has_variable vars "decoder/conf_ip" [lstm_size hyp; num_classes hyp].

(** The variables that [apply_rezoom] reads for slot [k]. *)
Definition rezoom_variables (hyp : hypes) (vars : var_store) (k : nat) : Prop :=
  has_variable vars ("decoder/delta_ip1" ++ fmt_d k)
    [(lstm_size hyp
      + early_feat_channels hyp
        * (length (rezoom_w_coords hyp) * length (rezoom_h_coords hyp)))%nat; 128%nat]
  /\ has_variable vars ("decoder/delta_ip2" ++ fmt_d k) [128%nat; num_classes hyp]
  /\ (reregress hyp = true ->
      has_variable vars ("decoder/delta_ip_boxes" ++ fmt_d k) [128%nat; 4%nat]).

(** [bilinear_select] yields, for the offset pair [wh], one row of [q]
    indices for each of the [outer_size * rnn_len] boxes. *)
Definition selects_boxes
    (bilinear_select : hypes -> tensor R -> tensor R -> nat -> R -> R -> option (tensor R))
    (hyp : hypes) (pred_boxes early_feat : tensor R) (channels q : nat) (wh : R * R)
    : Prop :=
  exists idx,
    bilinear_select hyp pred_boxes early_feat channels (fst wh) (snd wh) = Some idx
    /\ tshape idx = [(outer_size_of hyp * rnn_len hyp)%nat; q]
    /\ wf idx.

(** [bilinear_select] serves every tensor of one predicted box per cell. *)
Definition selects_all
    (bilinear_select : hypes -> tensor R -> tensor R -> nat -> R -> R -> option (tensor R))
    (hyp : hypes) (q : nat) : Prop :=
  forall pred_boxes early_feat channels wh,
    tshape pred_boxes = [outer_size_of hyp; 1%nat; 4%nat] -> wf pred_boxes ->
    selects_boxes bilinear_select hyp pred_boxes early_feat channels q wh.

(** What [apply_rezoom] needs with one slot per cell: a rank-4 feature map,
    interpolation points for every box, at least one offset pair and the
    variables of slot 0. *)
Definition rezoom_ready
    (bilinear_select : hypes -> tensor R -> tensor R -> nat -> R -> R -> option (tensor R))
    (hyp : hypes) (vars : var_store) (early_feat : tensor R) : Prop :=
  (exists b h w ch, tshape early_feat = [b; h; w; ch])
  /\ (exists q, selects_all bilinear_select hyp q)
  /\ list_prod (rezoom_w_coords hyp) (rezoom_h_coords hyp) <> []
  /\ rezoom_variables hyp vars 0.

(** The [channels] bilinear samples of box number [b] at the offset pair
    [wh]. *)
Definition box_samples
    (bilinear_select : hypes -> tensor R -> tensor R -> nat -> R -> R -> option (tensor R))
    (interp_point : tensor R -> list R -> nat -> R)
    (hyp : hypes) (pred_boxes early_feat : tensor R) (channels : nat) (b : nat)
    (wh : R * R) : list R :=
  match bilinear_select hyp pred_boxes early_feat channels (fst wh) (snd wh) with
  | Some idx =>
      map (interp_point early_feat (row_of (nth 1 (tshape idx) 0%nat) idx b))
          (seq 0 channels)
  | None => []
  end.

(** The configuration [hyp] with the flags [use_rezoom] and [reregress] set. *)
Definition set_rezoom (rezoom rereg : bool) (hyp : hypes) : hypes :=
  {| grid_width := grid_width hyp;
     grid_height := grid_height hyp;
     batch_size := batch_size hyp;
     rnn_len := rnn_len hyp;
     num_classes := num_classes hyp;
     cnn_channels := cnn_channels hyp;
     lstm_size := lstm_size hyp;
     early_feat_channels := early_feat_channels hyp;
     use_rezoom := rezoom;
     reregress := rereg;
     use_lstm := use_lstm hyp;
     rezoom_change_loss := rezoom_change_loss hyp;
     rezoom_w_coords := rezoom_w_coords hyp;
     rezoom_h_coords := rezoom_h_coords hyp;
     rezoom_conf_scale := rezoom_conf_scale hyp;
     solver := solver hyp |}.

(** The val accuracy of one evaluation step: the forward pass of [decoder]
    in phase ['val'] followed by [evaluation]. *)
Definition val_accuracy
    (bilinear_select : hypes -> tensor R -> tensor R -> nat -> R -> R -> option (tensor R))
    (interp_point : tensor R -> list R -> nat -> R)
    (hyp : hypes) (vars : var_store) (draws : dropout_draws)
    (logits : tensor R * tensor R * tensor R)
    (images : per_phase (tensor R))
    (labels : per_phase (tensor R * tensor R * tensor R))
    (decoded_train : decoded_logits) (losses : per_phase (R * R * R))
    (global_step : nat) (shadow : list R) : option R :=
  decoded_val <- decoder bilinear_select interp_point hyp vars draws logits "val" ;;
  res <- evaluation hyp images labels
                    {| on_train := decoded_train; on_val := decoded_val |}
                    losses global_step shadow ;;
  Some (on_val (fst res)).

(** ** Stand-ins for the external primitives, and example inputs *)

(** A build without the Hungarian primitive: every call fails. *)
Definition hungarian_unavailable (pred_boxes outer_boxes : tensor R)
    (outer_flags : tensor Z) (iou_threshold : R)
    : option (tensor Z * tensor Z * tensor R * tensor R) := None.

(** Modelled from the spec: the coordinate conversion of the IoU utility,
    absent from this file, takes a centre-format box [(x, y, w, h)] to the
    corner format [(x1, y1, x2, y2)]. *)
Definition corner_box (b : list R) : list R :=
  [nth 0 b 0 - nth 2 b 0 / 2; nth 1 b 0 - nth 3 b 0 / 2;
   nth 0 b 0 + nth 2 b 0 / 2; nth 1 b 0 + nth 3 b 0 / 2].

Definition box_area (b : list R) : R :=
  Rmax (nth 2 b 0 - nth 0 b 0) 0 * Rmax (nth 3 b 0 - nth 1 b 0) 0.

Definition box_intersection (a b : list R) : R :=
  Rmax (Rmin (nth 2 a 0) (nth 2 b 0) - Rmax (nth 0 a 0) (nth 0 b 0)) 0
  * Rmax (Rmin (nth 3 a 0) (nth 3 b 0) - Rmax (nth 1 a 0) (nth 1 b 0)) 0.

(** Modelled from the spec: the IoU utility, absent from this file, returns
    the intersection over union of two corner-format boxes. *)
Definition iou_of_boxes (a b : list R) : R :=
  box_intersection a b / (box_area a + box_area b - box_intersection a b).

(** Modelled from the spec: the bilinear-select utility, absent from this
    file, yields for every predicted box the point to interpolate at: the
    image of the box and its predicted centre moved by the offsets. *)
Definition select_centers (hyp : hypes) (pred_boxes early_feat : tensor R)
    (channels : nat) (w_offset h_offset : R) : option (tensor R) :=
  let per_image := (grid_width hyp * grid_height hyp * rnn_len hyp)%nat in
  boxes <- reshape pred_boxes [(outer_size_of hyp * rnn_len hyp)%nat; 4%nat] ;;
  Some (tab [(outer_size_of hyp * rnn_len hyp)%nat; 3%nat]
            (fun idx => match idx with
                        | [b; 0%nat] => INR (b / per_image)
                        | [b; 1%nat] => get 0 boxes [b; 1%nat] + h_offset
                        | [b; 2%nat] => get 0 boxes [b; 0%nat] + w_offset
                        | _ => 0
                        end)).

(** Modelled from the spec: bilinear interpolation, absent from this file,
    of channel [c] of a feature map at the point [(image, y, x)]: the four
    neighbouring cells weighted by the distances to them. *)
Definition interp_bilinear (feat : tensor R) (point : list R) (c : nat) : R :=
  let n := Z.to_nat (Int_part (nth 0 point 0)) in
  let y := nth 1 point 0 in
  let x := nth 2 point 0 in
  let y0 := Z.to_nat (Int_part y) in
  let x0 := Z.to_nat (Int_part x) in
  let fy := y - INR y0 in
  let fx := x - INR x0 in
  (1 - fy) * (1 - fx) * get 0 feat [n; y0; x0; c]
  + (1 - fy) * fx * get 0 feat [n; y0; S x0; c]
  + fy * (1 - fx) * get 0 feat [n; S y0; x0; c]
  + fy * fx * get 0 feat [n; S y0; S x0; c].

(** A store with the variables of a one-channel, one-feature decoder with
    two classes and one rezoom offset. *)
Definition vars_example : var_store :=
  fun name =>
    if String.eqb name "decoder/Overfeat/ip" then Some (Tensor [1; 1]%nat [1])
    else if String.eqb name "decoder/box_ip" then Some (Tensor [1; 4]%nat [1; 1; 2; 2])
    else if String.eqb name "decoder/conf_ip" then Some (Tensor [1; 2]%nat [1; -1])
    else if String.eqb name "decoder/delta_ip10"
         then Some (tab [2; 128]%nat (fun _ => 0.01))
    else if String.eqb name "decoder/delta_ip20"
         then Some (tab [128; 2]%nat (fun _ => 0.01))
    else if String.eqb name "decoder/delta_ip_boxes0"
         then Some (tab [128; 4]%nat (fun _ => 0.01))
    else None.

(** Dropout that keeps every entry. *)
Definition draws_keep_all : dropout_draws :=
  {| draw_raw_output := fun _ => true;
     draw_rezoom_features := fun _ => true;
     draw_ip1 := fun _ _ => true |}.

(** Dropout that drops every entry. *)
Definition draws_drop_all : dropout_draws :=
  {| draw_raw_output := fun _ => false;
     draw_rezoom_features := fun _ => false;
     draw_ip1 := fun _ _ => false |}.

(** The encoder output for one cell: coarse features, early features and
    the raw output. *)
Definition logits_example : tensor R * tensor R * tensor R :=
  (Tensor [1; 1; 1; 1]%nat [1], Tensor [1; 1; 1; 1]%nat [5], Tensor [1]%nat [0]).

(** One image, a 1 x 1 grid, one slot, two classes, no rezoom. *)
Definition hyp_single : hypes :=
  {| grid_width := 1; grid_height := 1; batch_size := 1; rnn_len := 1;
     num_classes := 2; cnn_channels := 1; lstm_size := 1;
     early_feat_channels := 1;
     use_rezoom := false; reregress := false; use_lstm := false;
     rezoom_change_loss := None;
     rezoom_w_coords := [0]; rezoom_h_coords := [0];
     rezoom_conf_scale := None;
     solver := {| head_weights := [1; 1]; hungarian_iou := 0.5 |} |}.

(** The same with rezoom, re-regression and the IoU policy. *)
Definition hyp_rezoom : hypes :=
  {| grid_width := 1; grid_height := 1; batch_size := 1; rnn_len := 1;
     num_classes := 2; cnn_channels := 1; lstm_size := 1;
     early_feat_channels := 1;
     use_rezoom := true; reregress := true; use_lstm := false;
     rezoom_change_loss := Some "iou"%string;
     rezoom_w_coords := [0]; rezoom_h_coords := [0];
     rezoom_conf_scale := None;
     solver := {| head_weights := [1; 1]; hungarian_iou := 0.5 |} |}.

(** The same as [hyp_single] with two slots per cell. *)
Definition hyp_two_slots : hypes :=
  {| grid_width := 1; grid_height := 1; batch_size := 1; rnn_len := 2;
     num_classes := 2; cnn_channels := 1; lstm_size := 1;
     early_feat_channels := 1;
     use_rezoom := false; reregress := false; use_lstm := false;
     rezoom_change_loss := None;
     rezoom_w_coords := [0]; rezoom_h_coords := [0];
     rezoom_conf_scale := None;
     solver := {| head_weights := [1; 1]; hungarian_iou := 0.5 |} |}.

(** Labels of a cell without object whose box entry is not zero. *)
Definition labels_absent : tensor R * tensor R * tensor R :=
  (Tensor [1; 1; 1]%nat [0],
   Tensor [1; 1; 1; 2]%nat [1; 0],
   Tensor [1; 1; 1; 4]%nat [1; 2; 3; 4]).

(** Labels of a cell with one object, of width and height 2 at the origin. *)
Definition labels_present : tensor R * tensor R * tensor R :=
  (Tensor [1; 1; 1]%nat [1],
   Tensor [1; 1; 1; 2]%nat [0; 1],
   Tensor [1; 1; 1; 4]%nat [0; 0; 2; 2]).

Definition decoded_plain : decoded_logits :=
  {| pred_boxes := Tensor [1; 1; 4]%nat [7; 7; 7; 7];
     pred_logits := Tensor [1; 2]%nat [0; 0];
     pred_confidences := Tensor [1; 1; 2]%nat [0.5; 0.5];
     pred_confs_deltas := None;
     pred_boxes_deltas := None |}.

(** A prediction that coincides with the box of [labels_present], with a
    delta of -20 on the first coordinate. *)
Definition decoded_rezoom : decoded_logits :=
  {| pred_boxes := Tensor [1; 1; 4]%nat [0; 0; 2; 2];
     pred_logits := Tensor [1; 2]%nat [0; 0];
     pred_confidences := Tensor [1; 1; 2]%nat [0.5; 0.5];
     pred_confs_deltas := Some (Tensor [1; 2]%nat [0; 0]);
     pred_boxes_deltas := Some (Tensor [1; 1; 4]%nat [-20; 0; 0; 0]) |}.

(** Decoded outputs whose confidences favour class 1 in the only cell. *)
Definition decoded_confident : decoded_logits :=
  {| pred_boxes := Tensor [1; 1; 4]%nat [0; 0; 2; 2];
     pred_logits := Tensor [1; 2]%nat [0; 1];
     pred_confidences := Tensor [1; 1; 2]%nat [0.2; 0.8];
     pred_confs_deltas := None;
     pred_boxes_deltas := None |}.

(** ** The image files of [evaluation] *)

(** Lines 382-386 of [log_image]: the name of the file written at
    [np_global_step], with [display_iter] standing for
    [hyp['logging']['display_iter']]:
    ['%s_%s.jpg' % ((np_global_step // display_iter) % num_images, pred_or_true)]. *)
Definition log_image_filename (display_iter np_global_step : nat)
    (pred_or_true : string) : string :=
  let num_images := 10%nat in
  (fmt_d ((np_global_step / display_iter) mod num_images)
   ++ "_" ++ pred_or_true ++ ".jpg")%string.

(** The masked L1 distance between ground truth and prediction: the
    distance of every cell holding an object, none for the others. *)
Definition masked_l1_spec (hyp : hypes) (flags boxes pred_boxes : tensor R) (head1 : R)
    : R :=
  sum_n (outer_size_of hyp) (fun i =>
    if Rgtb (nth i (tdata flags) 0) 0
    then sum_n 4 (fun c => Rabs (nth (i * 4 + c) (tdata boxes) 0
                                 - get 0 pred_boxes [i; 0%nat; c]))
    else 0)
  / INR (outer_size_of hyp) * head1.

(** * Properties *)

Unset Implicit Arguments.

(** ** Fallible computations *)

Lemma bind_Some : forall {A B} (m : option A) (f : A -> option B) b,
  bind m f = Some b -> exists a, m = Some a /\ f a = Some b.
Proof. intros A B [a|] f b H; simpl in H; [eauto | discriminate]. Qed.

Lemma option_map_Some : forall {A B} (f : A -> B) (m : option A) b,
  option_map f m = Some b -> exists a, m = Some a /\ b = f a.
Proof. intros A B f [a|] b H; simpl in H; inversion H; eauto. Qed.

Lemma guard_Some : forall b u, guard b = Some u -> b = true.
Proof. intros [|] u H; [reflexivity | discriminate]. Qed.

(** Peel the binds of a successful computation, one after the other. *)
Ltac peel H :=
  repeat match type of H with
  | bind (option_map _ _) _ = Some _ =>
      let a := fresh "v" in let Ha := fresh "E" in let b := fresh "w" in
      apply bind_Some in H; destruct H as [a [Ha H]];
      apply option_map_Some in Ha; destruct Ha as [b [Ha ->]]
  | bind _ _ = Some _ =>
      let a := fresh "v" in let Ha := fresh "E" in
      apply bind_Some in H; destruct H as [a [Ha H]]
  end.

(** Peel one bind, naming the value and its equation. *)
Ltac peel1 H x E := apply bind_Some in H; destruct H as [x [E H]].

(** ** Index arithmetic *)

Lemma ravel_lt : forall s idx, in_bounds s idx -> (ravel s idx < prod s)%nat.
Proof.
  induction s as [|n r IH]; intros [|i idx] H; simpl in *; try tauto; try lia.
  destruct H as [Hi Hr]. specialize (IH _ Hr). nia.
Qed.

Lemma unravel_ravel : forall s idx, in_bounds s idx -> unravel s (ravel s idx) = idx.
Proof.
  induction s as [|n r IH]; intros [|i idx] H; simpl in *; try tauto.
  destruct H as [Hi Hr]. pose proof (ravel_lt _ _ Hr) as Hlt.
  assert (Hp : prod r <> 0%nat) by lia.
  rewrite Nat.div_add_l by exact Hp.
  rewrite (Nat.div_small _ _ Hlt), Nat.add_0_r.
  rewrite Nat.add_comm, Nat.Div0.mod_add, (Nat.mod_small _ _ Hlt).
  now rewrite IH.
Qed.

Lemma unravel_in_bounds : forall s j, (j < prod s)%nat -> in_bounds s (unravel s j).
Proof.
  induction s as [|n r IH]; intros j H; simpl in *; [exact I|].
  assert (Hp : prod r <> 0%nat) by (intro E; rewrite E in H; lia).
  split.
  - apply Nat.Div0.div_lt_upper_bound. lia.
  - apply IH. apply Nat.mod_upper_bound. exact Hp.
Qed.

Lemma ravel_unravel : forall s j, (j < prod s)%nat -> ravel s (unravel s j) = j.
Proof.
  induction s as [|n r IH]; intros j H; simpl in *; [lia|].
  assert (Hp : prod r <> 0%nat) by (intro E; rewrite E in H; lia).
  rewrite IH by (apply Nat.mod_upper_bound; exact Hp).
  pose proof (Nat.div_mod_eq j (prod r)). lia.
Qed.

(** An offset splits into its leading index and the offset in the rest. *)
Lemma unravel_cons : forall n r i j,
  (j < prod r)%nat -> unravel (n :: r) (i * prod r + j) = i :: unravel r j.
Proof.
  intros n r i j H. simpl.
  assert (Hp : prod r <> 0%nat) by lia.
  rewrite Nat.div_add_l by exact Hp.
  rewrite (Nat.div_small _ _ H), Nat.add_0_r.
  now rewrite Nat.add_comm, Nat.Div0.mod_add, (Nat.mod_small _ _ H).
Qed.

(** ** Tensors *)

Lemma get_tab : forall {A} (d : A) s f idx,
  in_bounds s idx -> get d (tab s f) idx = f idx.
Proof.
  intros A d s f idx H. unfold get, tab; simpl.
  pose proof (ravel_lt _ _ H) as Hlt.
  rewrite (nth_indep _ d (f (unravel s 0))) by (rewrite length_map, length_seq; exact Hlt).
  rewrite (map_nth (fun j => f (unravel s j)) (seq 0 (prod s)) 0%nat).
  rewrite seq_nth by exact Hlt. simpl. now rewrite unravel_ravel.
Qed.

Lemma wf_tab : forall {A} s (f : list nat -> A), wf (tab s f).
Proof. intros. unfold wf, tab; simpl. now rewrite length_map, length_seq. Qed.

Lemma size_tab : forall {A} s (f : list nat -> A), size (tab s f) = prod s.
Proof. intros. apply wf_tab. Qed.

Lemma size_tmap : forall {A B} (f : A -> B) t, size (tmap f t) = size t.
Proof. intros. unfold size, tmap; simpl. apply length_map. Qed.

Lemma reshape_Some : forall {A} (t t' : tensor A) s,
  reshape t s = Some t' -> t' = Tensor s (tdata t) /\ size t = prod s.
Proof.
  intros A t t' s H. unfold reshape in H.
  destruct (size t =? prod s)%nat eqn:E; [|discriminate].
  apply Nat.eqb_eq in E. inversion H. auto.
Qed.

Lemma reshape_ok : forall {A} (t : tensor A) s,
  size t = prod s -> reshape t s = Some (Tensor s (tdata t)).
Proof.
  intros A t s H. unfold reshape. rewrite H, Nat.eqb_refl. reflexivity.
Qed.

Lemma eqb_shape_true : forall s1 s2, eqb_shape s1 s2 = true -> s1 = s2.
Proof.
  intros s1 s2 H. unfold eqb_shape in H.
  destruct (list_eq_dec Nat.eq_dec s1 s2); [assumption | discriminate].
Qed.

Lemma eqb_shape_refl : forall s, eqb_shape s s = true.
Proof.
  intros s. unfold eqb_shape.
  destruct (list_eq_dec Nat.eq_dec s s); [reflexivity | contradiction].
Qed.

(** ** Sums *)

Lemma rsum_app : forall l1 l2, rsum (l1 ++ l2) = rsum l1 + rsum l2.
Proof.
  induction l1 as [|x l1 IH]; intros l2; simpl; [lra|]. rewrite IH. lra.
Qed.

Lemma rsum_nonneg : forall l, Forall (fun x => 0 <= x) l -> 0 <= rsum l.
Proof.
  induction 1 as [|x l Hx Hl IH]; simpl; lra.
Qed.

Lemma sum_n_ext : forall n f g,
  (forall i, (i < n)%nat -> f i = g i) -> sum_n n f = sum_n n g.
Proof.
  intros n f g H. unfold sum_n. f_equal.
  apply map_ext_in. intros i Hi. apply in_seq in Hi. apply H. lia.
Qed.

Lemma sum_n_nonneg : forall n f,
  (forall i, (i < n)%nat -> 0 <= f i) -> 0 <= sum_n n f.
Proof.
  intros n f H. unfold sum_n. apply rsum_nonneg.
  apply Forall_forall. intros x Hx. apply in_map_iff in Hx.
  destruct Hx as [i [<- Hi]]. apply in_seq in Hi. apply H. lia.
Qed.

Lemma seq_offset : forall len a, seq a len = map (fun j => (a + j)%nat) (seq 0 len).
Proof.
  induction len as [|len IH]; intros a; simpl; [reflexivity|].
  rewrite Nat.add_0_r. f_equal.
  rewrite (IH (S a)), (IH 1%nat), map_map.
  apply map_ext. intros j. lia.
Qed.

(** A sum over [n * p] offsets is a sum over [n] blocks of [p] offsets. *)
Lemma sum_n_mul : forall n p f,
  sum_n (n * p) f = sum_n n (fun i => sum_n p (fun j => f (i * p + j)%nat)).
Proof.
  intros n p f. unfold sum_n. induction n as [|n IH].
  - reflexivity.
  - replace (S n * p)%nat with (n * p + p)%nat by lia.
    rewrite seq_app, map_app, rsum_app, IH.
    rewrite seq_S, map_app, rsum_app. simpl. f_equal.
    rewrite Rplus_0_r. f_equal.
    rewrite (seq_offset p (n * p)), map_map. reflexivity.
Qed.

(** ** Comparisons and casts *)

Lemma Rltb_lt : forall x y, Rltb x y = true <-> x < y.
Proof.
  intros x y. unfold Rltb. destruct (Rlt_dec x y); split; intros; auto; discriminate.
Qed.

Lemma Rltb_true : forall x y, x < y -> Rltb x y = true.
Proof. intros. now apply Rltb_lt. Qed.

Lemma Rltb_false : forall x y, ~ x < y -> Rltb x y = false.
Proof.
  intros x y H. destruct (Rltb x y) eqn:E; [|reflexivity].
  apply Rltb_lt in E. contradiction.
Qed.

Lemma Rgtb_true : forall x y, y < x -> Rgtb x y = true.
Proof. intros. unfold Rgtb. now apply Rltb_true. Qed.

Lemma Rgtb_false : forall x y, ~ y < x -> Rgtb x y = false.
Proof. intros. unfold Rgtb. now apply Rltb_false. Qed.

(** ** The matcher without LSTM *)

(** C7. In [loss] with [use_lstm] false the matcher is the identity
    assignment: whenever it yields a result, [classes] is the flags tensor
    reshaped to [(outer_size, 1)], [perm_truth] is the ground-truth boxes
    reshaped to [(outer_size, 1, 4)] with the buffer unchanged, and the
    presence mask, of shape [(outer_size, 1, 1)], is 1 at a cell whose class
    is greater than 0 and 0 at any other cell; and it does yield a result as
    soon as there is one flag and one box per cell. *)
Theorem trivial_match_identity :
  forall hungarian hypes outer_size pred_boxes flags boxes outer_boxes outer_flags,
  use_lstm hypes = false ->
  reshape boxes [outer_size; rnn_len hypes; 4%nat] = Some outer_boxes ->
  (size flags = outer_size -> size boxes = (outer_size * 4)%nat ->
   match_truth hungarian hypes outer_size pred_boxes flags outer_boxes outer_flags
   <> None)
  /\
  (forall classes perm_truth pred_mask,
   match_truth hungarian hypes outer_size pred_boxes flags outer_boxes outer_flags
   = Some (classes, perm_truth, pred_mask) ->
   classes = Tensor [outer_size; 1%nat] (tdata flags)
   /\ perm_truth = Tensor [outer_size; 1%nat; 4%nat] (tdata boxes)
   /\ tshape pred_mask = [outer_size; 1%nat; 1%nat]
   /\ forall i, (i < outer_size)%nat ->
        (0 < get 0 classes [i; 0%nat] -> get 0 pred_mask [i; 0%nat; 0%nat] = 1)
        /\ (~ 0 < get 0 classes [i; 0%nat] -> get 0 pred_mask [i; 0%nat; 0%nat] = 0)).
Proof.
  intros hungarian hypes outer_size pred_boxes flags boxes outer_boxes outer_flags
         Hlstm Hob.
  apply reshape_Some in Hob. destruct Hob as [-> Hsz].
  unfold match_truth. rewrite Hlstm. split.
  - intros Hf Hb.
    rewrite (reshape_ok flags [outer_size; 1%nat]) by (simpl; lia). simpl bind.
    rewrite reshape_ok by (unfold size in *; simpl; lia). simpl bind.
    rewrite reshape_ok by (rewrite size_tmap; unfold size in *; simpl; lia).
    discriminate.
  - intros classes perm_truth pred_mask H. peel H.
    apply reshape_Some in E. destruct E as [-> Hf].
    apply reshape_Some in E0. destruct E0 as [-> Hb].
    apply reshape_Some in E1. destruct E1 as [-> Hm].
    inversion H; subst; clear H. simpl in Hf.
    repeat split.
    + intros Hc. unfold get in *. simpl in *.
      replace (i * 1 + (0 + 0))%nat with i in * by lia.
      rewrite (nth_indep _ 0 (b2r (Rgtb 0 0))) by (rewrite length_map; unfold size in Hf; lia).
      rewrite (map_nth (fun c => b2r (Rgtb c 0))).
      now rewrite Rgtb_true.
    + intros Hc. unfold get in *. simpl in *.
      replace (i * 1 + (0 + 0))%nat with i in * by lia.
      rewrite (nth_indep _ 0 (b2r (Rgtb 0 0))) by (rewrite length_map; unfold size in Hf; lia).
      rewrite (map_nth (fun c => b2r (Rgtb c 0))).
      now rewrite Rgtb_false.
Qed.

(** ** Structure of a successful run of [loss] *)

Lemma register_loss_Some : forall losses l c b losses' total conf boxl,
  register_loss losses l c b = Some (losses', (total, conf, boxl)) ->
  losses' = losses ++ [l] /\ total = rsum losses + l /\ conf = c /\ boxl = b.
Proof.
  intros. unfold register_loss in H. inversion H; subst.
  rewrite rsum_app. simpl. repeat split; lra.
Qed.

Section LossFacts.

Variable hungarian :
  tensor R -> tensor R -> tensor Z -> R ->
  option (tensor Z * tensor Z * tensor R * tensor R).
Variable to_x1y1x2y2_box : list R -> list R.
Variable iou_box : list R -> list R -> R.

Variable hypes : hypes.
Variable decoded : decoded_logits.
Variables flags confidences boxes : tensor R.
Variable phase : string.
Variable losses : list R.

Let N := outer_size_of hypes.
Let K := rnn_len hypes.
Let head := head_weights (solver hypes).

(** Everything a successful run of [loss] has computed on the way. *)
Lemma loss_inv : forall losses' total conf boxl,
  loss hungarian to_x1y1x2y2_box iou_box hypes decoded (flags, confidences, boxes)
       phase losses = Some (losses', (total, conf, boxl)) ->
  exists classes perm_truth pred_mask ce head0 head1 masked diff,
    size boxes = (N * K * 4)%nat
    /\ loss_match hungarian hypes decoded flags boxes
       = Some (classes, perm_truth, pred_mask)
    /\ size classes = (N * K)%nat
    /\ size (pred_logits decoded) = (N * K * num_classes hypes)%nat
    /\ sparse_softmax_cross_entropy_with_logits
         (Tensor [(N * K)%nat; num_classes hypes] (tdata (pred_logits decoded)))
         (Tensor [(N * K)%nat] (map (fun c => b2z (Rgtb c 0)) (tdata classes)))
       = Some ce
    /\ nth_error head 0 = Some head0
    /\ nth_error head 1 = Some head1
    /\ conf = reduce_sum ce / INR N * head0
    /\ bop 0 0 Rmult (pred_boxes decoded) pred_mask = Some masked
    /\ bop 0 0 Rminus perm_truth masked = Some diff
    /\ size diff = (N * K * 4)%nat
    /\ let base := rsum (map Rabs (tdata diff)) / INR N * head1 in
       (use_rezoom hypes = false ->
          losses' = losses ++ [conf + base]
          /\ total = rsum losses + (conf + base) /\ boxl = base)
       /\ (use_rezoom hypes = true ->
           exists inside deltas ce2,
             rezoom_inside to_x1y1x2y2_box iou_box hypes classes perm_truth
                           (pred_boxes decoded) = Some inside
             /\ pred_confs_deltas decoded = Some deltas
             /\ sparse_softmax_cross_entropy_with_logits deltas inside = Some ce2
             /\ let dcl := reduce_sum ce2 / INR N * head0 * 0.1 in
                (reregress hypes = false ->
                   losses' = losses ++ [conf + base + dcl]
                   /\ total = rsum losses + (conf + base + dcl) /\ boxl = base)
                /\ (reregress hypes = true ->
                    exists pbd corrected unshaped dmasked,
                      pred_boxes_deltas decoded = Some pbd
                      /\ bop 0 0 Rplus (pred_boxes decoded) pbd = Some corrected
                      /\ bop 0 0 Rminus perm_truth corrected = Some unshaped
                      /\ bop 0 0 Rmult unshaped pred_mask = Some dmasked
                      /\ size dmasked = (N * K * 4)%nat
                      /\ let dbl := rsum (map (fun x => Rmin (square x) (10 ^ 2))
                                              (tdata dmasked))
                                    / INR N * head1 * 0.03 in
                         losses' = losses ++ [conf + base + dcl + dbl]
                         /\ total = rsum losses + (conf + base + dcl + dbl)
                         /\ boxl = dbl)).
Proof.
  intros losses' total conf boxl H.
  unfold loss in H. cbv zeta in H. fold (outer_size_of hypes) in H. fold N K in H.
  peel1 H reuse Hre. peel1 H outer_boxes Hob. peel1 H outer_flags Hof.
  apply option_map_Some in Hof. destruct Hof as [oflags [Hof ->]].
  peel1 H matched Hm. destruct matched as [[classes perm_truth] pred_mask].
  peel1 H true_classes Htc. peel1 H pred_logit_r Hpl. peel1 H ce Hce.
  peel1 H head0 Hh0. peel1 H masked Hmk. peel1 H diff Hdf.
  peel1 H residual Hres. peel1 H head1 Hh1.
  apply reshape_Some in Htc. destruct Htc as [-> Hcl].
  apply reshape_Some in Hpl. destruct Hpl as [-> Hpls].
  apply reshape_Some in Hres. destruct Hres as [-> Hdiff].
  apply reshape_Some in Hob. destruct Hob as [-> Hbx].
  apply reshape_Some in Hof. destruct Hof as [-> Hfl].
  rewrite size_tmap in Hcl. simpl in Hcl, Hpls, Hdiff, Hbx.
  exists classes, perm_truth, pred_mask, ce, head0, head1, masked, diff.
  split; [lia|]. split; [exact Hm|]. split; [lia|]. split; [lia|].
  split; [exact Hce|]. split; [exact Hh0|]. split; [exact Hh1|].
  split.
  { destruct (use_rezoom hypes).
    - peel1 H inside Hin. peel1 H deltas Hdl. peel1 H ce2 Hce2.
      destruct (reregress hypes).
      + peel1 H pbd Hpbd. peel1 H corrected Hco. peel1 H unshaped Hun.
        peel1 H dmasked Hdm. peel1 H dres Hdr.
        apply register_loss_Some in H. tauto.
      + apply register_loss_Some in H. tauto.
    - apply register_loss_Some in H. tauto. }
  split; [exact Hmk|]. split; [exact Hdf|]. split; [lia|].
  cbv zeta. split.
  - intros Hrz. rewrite Hrz in H. apply register_loss_Some in H.
    destruct H as (-> & -> & -> & ->). unfold reduce_sum, tmap. simpl. auto.
  - intros Hrz. rewrite Hrz in H.
    peel1 H inside Hin. peel1 H deltas Hdl. peel1 H ce2 Hce2.
    exists inside, deltas, ce2.
    split; [exact Hin|]. split; [exact Hdl|]. split; [exact Hce2|].
    split.
    + intros Hrr. rewrite Hrr in H. apply register_loss_Some in H.
      destruct H as (-> & -> & -> & ->). unfold reduce_sum, tmap. simpl. auto.
    + intros Hrr. rewrite Hrr in H.
      peel1 H pbd Hpbd. peel1 H corrected Hco. peel1 H unshaped Hun.
      peel1 H dmasked Hdm. peel1 H dres Hdr.
      apply reshape_Some in Hdr. destruct Hdr as [-> Hdms]. simpl in Hdms.
      exists pbd, corrected, unshaped, dmasked.
      split; [exact Hpbd|]. split; [exact Hco|]. split; [exact Hun|].
      split; [exact Hdm|]. split; [lia|].
      apply register_loss_Some in H.
      destruct H as (-> & -> & -> & ->). unfold reduce_sum, tmap. simpl. auto.
Qed.

End LossFacts.

(** ** Cross-entropy *)

Lemma reduce_sum_tab1 : forall m f,
  reduce_sum (tab [m] f) = sum_n m (fun i => f [i]).
Proof.
  intros m f. unfold reduce_sum, tab, sum_n. cbn [tdata].
  replace (prod [m]) with m by (simpl; lia).
  f_equal. apply map_ext. intros j. cbn [unravel prod]. now rewrite Nat.div_1_r.
Qed.


Lemma xent_Some : forall logits labels ce,
  sparse_softmax_cross_entropy_with_logits logits labels = Some ce ->
  exists m c,
    tshape logits = [m; c] /\ tshape labels = [m]
    /\ Forall (fun l => (0 <= l < Z.of_nat c)%Z) (tdata labels)
    /\ reduce_sum ce
       = sum_n m (fun i => xent_row (row_of c logits i)
                                    (Z.to_nat (nth i (tdata labels) 0%Z))).
Proof.
  intros logits labels ce H. unfold sparse_softmax_cross_entropy_with_logits in H.
  destruct (tshape logits) as [|m [|c [|? ?]]] eqn:Hl; try discriminate.
  destruct (tshape labels) as [|m' [|? ?]] eqn:Hb; try discriminate.
  peel1 H u Hg. apply guard_Some in Hg. apply andb_true_iff in Hg.
  destruct Hg as [Hm Hr]. apply Nat.eqb_eq in Hm. subst m'.
  inversion H; subst; clear H.
  exists m, c. repeat split.
  - apply Forall_forall. intros l Hin.
    rewrite forallb_forall in Hr. specialize (Hr l Hin).
    apply andb_true_iff in Hr. destruct Hr as [H0 H1].
    apply Z.leb_le in H0. apply Z.ltb_lt in H1. lia.
  - rewrite reduce_sum_tab1. apply sum_n_ext. intros i Hi.
    unfold get. rewrite Hb. cbn [ravel prod].
    now replace (i * 1 + 0)%nat with i by lia.
Qed.

(** One term of a sum of non-negative numbers is below the sum. *)
Lemma nth_le_rsum : forall l i,
  Forall (fun x => 0 <= x) l -> (i < length l)%nat -> nth i l 0 <= rsum l.
Proof.
  induction l as [|x l IH]; intros i Hpos Hi; simpl in *; [lia|].
  inversion Hpos; subst.
  pose proof (rsum_nonneg _ H2).
  destruct i as [|i]; [lra|].
  specialize (IH i H2 ltac:(lia)). lra.
Qed.

(** The cross-entropy of a row against one of its classes is non-negative. *)
Lemma xent_row_nonneg : forall logits label,
  (label < length logits)%nat -> 0 <= xent_row logits label.
Proof.
  intros logits label Hl. unfold xent_row.
  assert (Hexp : Forall (fun x => 0 <= x) (map exp logits)).
  { apply Forall_forall. intros x Hx. apply in_map_iff in Hx.
    destruct Hx as [y [<- _]]. left. apply exp_pos. }
  assert (Hle : exp (nth label logits 0) <= rsum (map exp logits)).
  { pose proof (nth_le_rsum (map exp logits) label Hexp) as Hn.
    rewrite length_map in Hn. specialize (Hn Hl).
    rewrite (nth_indep _ 0 (exp 0)) in Hn by (rewrite length_map; exact Hl).
    now rewrite map_nth in Hn. }
  assert (Hln : ln (exp (nth label logits 0)) <= ln (rsum (map exp logits))).
  { destruct Hle as [Hlt | Heq].
    - left. apply ln_increasing; [apply exp_pos | exact Hlt].
    - right. now rewrite Heq. }
  rewrite ln_exp in Hln. lra.
Qed.

Lemma length_row_of : forall {A} w (t : tensor A) r,
  ((r + 1) * w <= size t)%nat -> length (row_of w t r) = w.
Proof.
  intros A w t r H. unfold row_of, size in *.
  rewrite length_firstn, length_skipn. lia.
Qed.

(** A successful cross-entropy over well-sized logits sums non-negative
    terms. *)
Lemma xent_sum_nonneg : forall logits labels ce,
  wf logits ->
  sparse_softmax_cross_entropy_with_logits logits labels = Some ce ->
  wf labels ->
  0 <= reduce_sum ce.
Proof.
  intros logits labels ce Hwf H Hwl.
  apply xent_Some in H. destruct H as (m & c & Hs & Hb & Hr & ->).
  apply sum_n_nonneg. intros i Hi. apply xent_row_nonneg.
  unfold wf in *. rewrite Hs in Hwf. rewrite Hb in Hwl. simpl in Hwf, Hwl.
  rewrite length_row_of by (unfold size; nia).
  rewrite Forall_forall in Hr.
  assert (Hin : In (nth i (tdata labels) 0%Z) (tdata labels)).
  { apply nth_In. lia. }
  specialize (Hr _ Hin). lia.
Qed.

Lemma div_INR_nonneg : forall x n, 0 <= x -> 0 <= x / INR n.
Proof.
  intros x n Hx. destruct n as [|n].
  - simpl. unfold Rdiv. rewrite Rinv_0. lra.
  - apply Rle_mult_inv_pos; [exact Hx|]. apply lt_0_INR. lia.
Qed.

Lemma rsum_abs_nonneg : forall l, 0 <= rsum (map Rabs l).
Proof.
  intros l. apply rsum_nonneg. apply Forall_forall.
  intros x Hx. apply in_map_iff in Hx. destruct Hx as [y [<- _]]. apply Rabs_pos.
Qed.

(** ** The classification loss *)

(** C6. The classification loss returned by [loss] is the sparse softmax
    cross-entropy between each slot's logits and the binary target that is 1
    when the matched class of the slot is greater than 0 and 0 otherwise,
    summed over the [outer_size * rnn_len] slots, divided by [outer_size] and
    multiplied by [head_weights[0]]. *)
Theorem classification_loss_formula :
  forall hungarian to_x1y1x2y2_box iou_box hypes decoded flags confidences boxes
         phase losses losses' total conf boxl,
  loss hungarian to_x1y1x2y2_box iou_box hypes decoded (flags, confidences, boxes)
       phase losses = Some (losses', (total, conf, boxl)) ->
  exists classes perm_truth pred_mask head0,
    loss_match hungarian hypes decoded flags boxes
    = Some (classes, perm_truth, pred_mask)
    /\ nth_error (head_weights (solver hypes)) 0 = Some head0
    /\ conf = classification_loss_spec hypes (pred_logits decoded) classes head0.
Proof.
  intros hungarian tb ib hypes decoded flags confidences boxes phase losses
         losses' total conf boxl H.
  apply loss_inv in H.
  destruct H as (classes & perm_truth & pred_mask & ce
                 & head0 & head1 & masked & diff & _ & Hm & Hcl & _ & Hce & Hh0 & _
                 & Hconf & _).
  exists classes, perm_truth, pred_mask, head0.
  split; [exact Hm|]. split; [exact Hh0|].
  rewrite Hconf. unfold classification_loss_spec.
  apply xent_Some in Hce. destruct Hce as (m & c & Hs & Hb & _ & ->).
  simpl in Hs, Hb. inversion Hs; subst m c; clear Hs Hb.
  f_equal. f_equal. apply sum_n_ext. intros s Hs.
  unfold row_of at 1. simpl tdata. fold (row_of (num_classes hypes) (pred_logits decoded) s).
  f_equal. unfold slot_target. cbn [tdata].
  rewrite (nth_indep _ 0%Z (b2z (Rgtb 0 0))) by (rewrite length_map; unfold size in Hcl; lia).
  rewrite (map_nth (fun c => b2z (Rgtb c 0))).
  destruct (Rgtb (nth s (tdata classes) 0) 0); reflexivity.
Qed.

(** ** Ordering of the returned losses without rezoom *)

(** C5. With non-negative head weights and rezoom disabled, and every term
    already in the ['losses'] collection non-negative, the scalars returned by
    [loss] satisfy [total_loss >= confidences_loss >= 0] and
    [total_loss >= boxes_loss >= 0]. *)
Theorem loss_ordering_without_rezoom :
  forall hungarian to_x1y1x2y2_box iou_box hypes decoded flags confidences boxes
         phase losses losses' total conf boxl,
  loss hungarian to_x1y1x2y2_box iou_box hypes decoded (flags, confidences, boxes)
       phase losses = Some (losses', (total, conf, boxl)) ->
  use_rezoom hypes = false ->
  Forall (fun w => 0 <= w) (head_weights (solver hypes)) ->
  Forall (fun l => 0 <= l) losses ->
  (total >= conf /\ conf >= 0) /\ (total >= boxl /\ boxl >= 0).
Proof.
  intros hungarian tb ib hypes decoded flags confidences boxes phase losses
         losses' total conf boxl H Hrz Hhead Hlosses.
  apply loss_inv in H.
  destruct H as (classes & perm_truth & pred_mask & ce
                 & head0 & head1 & masked & diff & _ & _ & Hcl & Hpl & Hce & Hh0 & Hh1
                 & Hconf & _ & _ & _ & Hbase & _).
  specialize (Hbase Hrz). destruct Hbase as (_ & Htot & Hbox).
  rewrite Forall_forall in Hhead.
  assert (H0 : 0 <= head0) by (apply Hhead; eapply nth_error_In; exact Hh0).
  assert (H1 : 0 <= head1) by (apply Hhead; eapply nth_error_In; exact Hh1).
  assert (Hc : 0 <= conf).
  { rewrite Hconf. apply Rmult_le_pos; [|exact H0]. apply div_INR_nonneg.
    eapply xent_sum_nonneg; [|exact Hce|].
    - unfold wf. simpl. unfold size in Hpl. lia.
    - unfold wf. simpl. rewrite length_map. unfold size in Hcl. lia. }
  assert (Hb : 0 <= boxl).
  { rewrite Hbox. apply Rmult_le_pos; [|exact H1]. apply div_INR_nonneg.
    apply rsum_abs_nonneg. }
  pose proof (rsum_nonneg _ Hlosses) as Hl.
  rewrite <- Hbox in Htot. lra.
Qed.

(** ** Broadcasting on rank-3 tensors *)

Lemma bshape_step : forall a b r,
  compat a b ->
  (if (a =? b)%nat then Some (a :: r)
   else if (a =? 1)%nat then Some (b :: r)
   else if (b =? 1)%nat then Some (a :: r) else None) = Some (bdim a b :: r).
Proof.
  intros a b r H. unfold bdim.
  destruct (Nat.eqb_spec a b) as [E1|E1]; destruct (Nat.eqb_spec a 1) as [E2|E2];
    destruct (Nat.eqb_spec b 1) as [E3|E3];
    try (f_equal; f_equal; lia); unfold compat in H; lia.
Qed.

Lemma bshape3 : forall n1 k1 c1 n2 k2 c2,
  compat n1 n2 -> compat k1 k2 -> compat c1 c2 ->
  bshape [n1; k1; c1] [n2; k2; c2] = Some [bdim n1 n2; bdim k1 k2; bdim c1 c2].
Proof.
  intros n1 k1 c1 n2 k2 c2 Hn Hk Hc. unfold bshape. simpl rev. simpl bshape_rev.
  rewrite (bshape_step n1 n2 [] Hn). simpl bind.
  rewrite (bshape_step k1 k2 _ Hk). simpl bind.
  rewrite (bshape_step c1 c2 _ Hc). reflexivity.
Qed.

Lemma bshape2 : forall n1 k1 n2 k2,
  compat n1 n2 -> compat k1 k2 ->
  bshape [n1; k1] [n2; k2] = Some [bdim n1 n2; bdim k1 k2].
Proof.
  intros n1 k1 n2 k2 Hn Hk. unfold bshape. simpl rev. simpl bshape_rev.
  rewrite (bshape_step n1 n2 [] Hn). simpl bind.
  rewrite (bshape_step k1 k2 _ Hk). reflexivity.
Qed.

Lemma bdim_same : forall a, bdim a a = a.
Proof. intros a. unfold bdim. destruct (a =? 1)%nat eqn:E; [apply Nat.eqb_eq in E|]; auto. Qed.

Lemma bdim_1_l : forall a, bdim 1 a = a.
Proof. reflexivity. Qed.

Lemma bdim_1_r : forall a, bdim a 1 = a.
Proof. intros a. unfold bdim. destruct (a =? 1)%nat eqn:E; [apply Nat.eqb_eq in E|]; auto. Qed.

(** Reading an axis of extent [n] at an index below [n]. *)
Lemma pick_same : forall n i, (i < n)%nat -> (if (n =? 1)%nat then 0%nat else i) = i.
Proof.
  intros n i H. destruct (n =? 1)%nat eqn:E; [apply Nat.eqb_eq in E; lia | reflexivity].
Qed.

Lemma bop_Some : forall {A B C} (da : A) (db : B) (f : A -> B -> C) a b t,
  bop da db f a b = Some t ->
  exists s, bshape (tshape a) (tshape b) = Some s
            /\ t = tab s (fun idx => f (get da a (bidx (tshape a) idx))
                                       (get db b (bidx (tshape b) idx))).
Proof.
  intros A B C da db f a b t H. unfold bop in H. peel1 H s Hs.
  exists s. inversion H. auto.
Qed.

(** A sum over the buffer of a rank-3 tensor, axis by axis. *)
Lemma sum_unravel_cons : forall n r G,
  sum_n (prod (n :: r)) (fun j => G (unravel (n :: r) j))
  = sum_n n (fun i => sum_n (prod r) (fun j => G (i :: unravel r j))).
Proof.
  intros n r G. cbn [prod]. rewrite sum_n_mul.
  apply sum_n_ext. intros i Hi. apply sum_n_ext. intros j Hj.
  now rewrite unravel_cons.
Qed.

Lemma sum_unravel3 : forall n k c G,
  sum_n (prod [n; k; c]) (fun j => G (unravel [n; k; c] j))
  = sum_n n (fun i => sum_n k (fun j => sum_n c (fun l => G [i; j; l]))).
Proof.
  intros n k c G. rewrite sum_unravel_cons.
  apply sum_n_ext. intros i Hi.
  rewrite (sum_unravel_cons k [c] (fun idx => G (i :: idx))).
  apply sum_n_ext. intros j Hj.
  rewrite (sum_unravel_cons c [] (fun idx => G (i :: j :: idx))).
  apply sum_n_ext. intros l Hl.
  unfold sum_n. simpl. lra.
Qed.

Lemma rsum_map_tab : forall (g : R -> R) s F,
  rsum (map g (tdata (tab s F))) = sum_n (prod s) (fun j => g (F (unravel s j))).
Proof.
  intros g s F. unfold tab, sum_n. cbn [tdata]. now rewrite map_map.
Qed.

Lemma rsum_map_tab3 : forall (g : R -> R) n k c F,
  rsum (map g (tdata (tab [n; k; c] F)))
  = sum_n n (fun i => sum_n k (fun j => sum_n c (fun l => g (F [i; j; l])))).
Proof.
  intros g n k c F. rewrite rsum_map_tab.
  apply (sum_unravel3 n k c (fun idx => g (F idx))).
Qed.

Lemma bidx3 : forall n k c i j l,
  bidx [n; k; c] [i; j; l]
  = [if (n =? 1)%nat then 0%nat else i;
     if (k =? 1)%nat then 0%nat else j;
     if (c =? 1)%nat then 0%nat else l].
Proof. reflexivity. Qed.

Lemma bidx2 : forall n k i j,
  bidx [n; k] [i; j]
  = [if (n =? 1)%nat then 0%nat else i; if (k =? 1)%nat then 0%nat else j].
Proof. reflexivity. Qed.

(** Resolve the axes that a broadcast operand reads. *)
Ltac pick_axes :=
  rewrite ?bidx3, ?bidx2; cbn [Nat.eqb];
  repeat match goal with
  | H : (?i < ?n)%nat |- context [if (?n =? 1)%nat then 0%nat else ?i] =>
      rewrite (pick_same n i H)
  end.

(** Lines 258-261, slot by slot. *)
Lemma base_residual_sum : forall N K perm_truth pred_boxes pred_mask masked diff,
  box_shapes N K perm_truth pred_boxes pred_mask ->
  bop 0 0 Rmult pred_boxes pred_mask = Some masked ->
  bop 0 0 Rminus perm_truth masked = Some diff ->
  rsum (map Rabs (tdata diff))
  = sum_n N (fun i => sum_n K (fun k => sum_n 4 (fun c =>
      Rabs (get 0 perm_truth [i; k; c]
            - get 0 pred_boxes [i; 0%nat; c] * get 0 pred_mask [i; k; 0%nat])))).
Proof.
  intros N K perm_truth pred_boxes pred_mask masked diff (Ht & Hp & Hm) Hmk Hdf.
  apply bop_Some in Hmk. destruct Hmk as (s1 & Hs1 & ->).
  rewrite Hp, Hm in Hs1.
  rewrite bshape3 in Hs1 by (unfold compat; auto).
  rewrite ?bdim_same, ?bdim_1_l, ?bdim_1_r in Hs1. inversion Hs1; subst s1; clear Hs1.
  apply bop_Some in Hdf. destruct Hdf as (s2 & Hs2 & ->).
  rewrite Ht in Hs2. cbn [tshape tab] in Hs2.
  rewrite bshape3 in Hs2 by (unfold compat; auto).
  rewrite ?bdim_same, ?bdim_1_l, ?bdim_1_r in Hs2. inversion Hs2; subst s2; clear Hs2.
  rewrite rsum_map_tab3.
  apply sum_n_ext. intros i Hi. apply sum_n_ext. intros k Hk.
  apply sum_n_ext. intros c Hc.
  rewrite Ht, Hp, Hm. cbn [tshape tab]. pick_axes.
  rewrite get_tab by (simpl; lia). pick_axes.
  reflexivity.
Qed.

(** Lines 289-295, slot by slot. *)
Lemma reregress_residual_sum :
  forall N K perm_truth pred_boxes pbd pred_mask corrected unshaped dmasked,
  box_shapes N K perm_truth pred_boxes pred_mask ->
  tshape pbd = [N; K; 4%nat] ->
  bop 0 0 Rplus pred_boxes pbd = Some corrected ->
  bop 0 0 Rminus perm_truth corrected = Some unshaped ->
  bop 0 0 Rmult unshaped pred_mask = Some dmasked ->
  rsum (map (fun x => Rmin (square x) (10 ^ 2)) (tdata dmasked))
  = sum_n N (fun i => sum_n K (fun k => sum_n 4 (fun c =>
      Rmin (square ((get 0 perm_truth [i; k; c]
                     - (get 0 pred_boxes [i; 0%nat; c] + get 0 pbd [i; k; c]))
                    * get 0 pred_mask [i; k; 0%nat]))
           100))).
Proof.
  intros N K perm_truth pred_boxes pbd pred_mask corrected unshaped dmasked
         (Ht & Hp & Hm) Hd Hco Hun Hdm.
  apply bop_Some in Hco. destruct Hco as (s1 & Hs1 & ->).
  rewrite Hp, Hd in Hs1.
  rewrite bshape3 in Hs1 by (unfold compat; auto).
  rewrite ?bdim_same, ?bdim_1_l, ?bdim_1_r in Hs1. inversion Hs1; subst s1; clear Hs1.
  apply bop_Some in Hun. destruct Hun as (s2 & Hs2 & ->).
  rewrite Ht in Hs2. cbn [tshape tab] in Hs2.
  rewrite bshape3 in Hs2 by (unfold compat; auto).
  rewrite ?bdim_same, ?bdim_1_l, ?bdim_1_r in Hs2. inversion Hs2; subst s2; clear Hs2.
  apply bop_Some in Hdm. destruct Hdm as (s3 & Hs3 & ->).
  rewrite Hm in Hs3. cbn [tshape tab] in Hs3.
  rewrite bshape3 in Hs3 by (unfold compat; auto).
  rewrite ?bdim_same, ?bdim_1_l, ?bdim_1_r in Hs3. inversion Hs3; subst s3; clear Hs3.
  rewrite rsum_map_tab3.
  apply sum_n_ext. intros i Hi. apply sum_n_ext. intros k Hk.
  apply sum_n_ext. intros c Hc.
  replace (10 ^ 2) with 100 by lra. f_equal. f_equal.
  rewrite Ht, Hp, Hd, Hm. cbn [tshape tab]. pick_axes.
  rewrite get_tab by (simpl; lia). pick_axes.
  rewrite get_tab by (simpl; lia). pick_axes.
  reflexivity.
Qed.

(** ** The re-regression term *)

(** C2. With [use_rezoom] and [reregress], the box loss returned by [loss] is
    the re-regression term: the residual
    [perm_truth - (pred_boxes + pred_boxes_deltas)] times [pred_mask], squared
    component by component, each square clamped to at most 100 before the
    sum, divided by [outer_size] and multiplied by [head_weights[1] * 0.03];
    it takes the place of the base box loss in the returned triple, and the
    total adds it to the classification loss, the base box loss and the
    delta-confidence loss. *)
Theorem reregress_loss_formula :
  forall hungarian to_x1y1x2y2_box iou_box hypes decoded flags confidences boxes
         phase losses losses' total conf boxl classes perm_truth pred_mask
         inside deltas pbd head0 head1,
  loss hungarian to_x1y1x2y2_box iou_box hypes decoded (flags, confidences, boxes)
       phase losses = Some (losses', (total, conf, boxl)) ->
  use_rezoom hypes = true ->
  reregress hypes = true ->
  loss_match hungarian hypes decoded flags boxes
  = Some (classes, perm_truth, pred_mask) ->
  rezoom_inside to_x1y1x2y2_box iou_box hypes classes perm_truth (pred_boxes decoded)
  = Some inside ->
  pred_confs_deltas decoded = Some deltas ->
  pred_boxes_deltas decoded = Some pbd ->
  box_shapes (outer_size_of hypes) (rnn_len hypes) perm_truth (pred_boxes decoded)
             pred_mask ->
  tshape deltas = [(outer_size_of hypes * rnn_len hypes)%nat; num_classes hypes] ->
  tshape pbd = [outer_size_of hypes; rnn_len hypes; 4%nat] ->
  nth_error (head_weights (solver hypes)) 0 = Some head0 ->
  nth_error (head_weights (solver hypes)) 1 = Some head1 ->
  boxl = reregress_loss_spec hypes perm_truth (pred_boxes decoded) pbd pred_mask head1
  /\ total = rsum losses
             + (conf
                + base_boxes_loss_spec hypes perm_truth (pred_boxes decoded)
                                       pred_mask head1
                + delta_confs_loss_spec hypes deltas inside head0
                + boxl).
Proof.
  intros hungarian tb ib hypes decoded flags confidences boxes phase losses
         losses' total conf boxl classes perm_truth pred_mask inside deltas pbd
         head0 head1 H Hrz Hrr Hm Hin Hdl Hpbd Hsh Hds Hd Hh0 Hh1.
  apply loss_inv in H.
  destruct H as (classes' & perm_truth' & pred_mask' & ce & head0' & head1' & masked
                 & diff & _ & Hm' & _ & _ & _ & Hh0' & Hh1' & _ & Hmk & Hdf & _
                 & _ & Hrezoom).
  rewrite Hm in Hm'. inversion Hm'; subst classes' perm_truth' pred_mask'; clear Hm'.
  rewrite Hh0 in Hh0'. inversion Hh0'; subst head0'; clear Hh0'.
  rewrite Hh1 in Hh1'. inversion Hh1'; subst head1'; clear Hh1'.
  destruct (Hrezoom Hrz) as (inside' & deltas' & ce2 & Hin' & Hdl' & Hce2 & _ & Hrere).
  rewrite Hin in Hin'. inversion Hin'; subst inside'; clear Hin'.
  rewrite Hdl in Hdl'. inversion Hdl'; subst deltas'; clear Hdl'.
  destruct (Hrere Hrr) as (pbd' & corrected & unshaped & dmasked & Hpbd' & Hco & Hun
                           & Hdm & _ & _ & Htot & Hbox).
  rewrite Hpbd in Hpbd'. inversion Hpbd'; subst pbd'; clear Hpbd'.
  rewrite (reregress_residual_sum _ _ _ _ _ _ _ _ _ Hsh Hd Hco Hun Hdm) in Htot, Hbox.
  rewrite (base_residual_sum _ _ _ _ _ _ _ Hsh Hmk Hdf) in Htot.
  apply xent_Some in Hce2. destruct Hce2 as (m & c & Hs & _ & _ & Hsum).
  rewrite Hds in Hs. inversion Hs; subst m c; clear Hs.
  rewrite Hsum in Htot.
  assert (Hb : boxl = reregress_loss_spec hypes perm_truth (pred_boxes decoded) pbd
                                          pred_mask head1).
  { rewrite Hbox. unfold reregress_loss_spec. lra. }
  split; [exact Hb|].
  rewrite Htot, Hb.
  unfold base_boxes_loss_spec, reregress_loss_spec, delta_confs_loss_spec. lra.
Qed.

(** ** Reading tensors built by the operations *)

Lemma nth_map_in : forall {A B} (f : A -> B) l j d d',
  (j < length l)%nat -> nth j (map f l) d' = f (nth j l d).
Proof.
  intros A B f l j d d' H.
  rewrite (nth_indep _ d' (f d)) by (rewrite length_map; exact H).
  apply map_nth.
Qed.

Lemma get_tmap : forall {A B} (d : A) (d' : B) (f : A -> B) t idx,
  wf t -> in_bounds (tshape t) idx -> get d' (tmap f t) idx = f (get d t idx).
Proof.
  intros A B d d' f t idx Hwf Hb. unfold get, tmap. cbn [tshape tdata].
  apply nth_map_in. rewrite Hwf. now apply ravel_lt.
Qed.

Lemma nth_tab : forall {A} (d : A) s F j,
  (j < prod s)%nat -> nth j (tdata (tab s F)) d = F (unravel s j).
Proof.
  intros A d s F j H. unfold tab. cbn [tdata].
  rewrite (nth_map_in (fun j => F (unravel s j)) _ _ 0%nat) by (rewrite length_seq; exact H).
  now rewrite seq_nth.
Qed.

Lemma nth_tab1 : forall {A} (d : A) m F j,
  (j < m)%nat -> nth j (tdata (tab [m] F)) d = F [j].
Proof.
  intros A d m F j H. rewrite nth_tab by (simpl; lia).
  cbn [unravel prod]. now rewrite Nat.div_1_r.
Qed.

Lemma nth_tab2 : forall {A} (d : A) n m F i k,
  (i < n)%nat -> (k < m)%nat -> nth (i * m + k) (tdata (tab [n; m] F)) d = F [i; k].
Proof.
  intros A d n m F i k Hi Hk.
  rewrite <- (get_tab d [n; m] F [i; k]) by (simpl; lia).
  unfold get. cbn [tshape tab ravel prod]. f_equal. lia.
Qed.

Lemma firstn_seq_min : forall n a len, firstn n (seq a len) = seq a (Nat.min n len).
Proof.
  induction n as [|n IH]; intros a [|len]; simpl; try reflexivity.
  now rewrite IH.
Qed.

Lemma row_of_tab2 : forall {A} m c (F : list nat -> A) r,
  (r < m)%nat -> row_of c (tab [m; c] F) r = map (fun l => F [r; l]) (seq 0 c).
Proof.
  intros A m c F r H. unfold row_of, tab. cbn [tdata prod].
  rewrite skipn_map, firstn_map, skipn_seq, firstn_seq_min.
  replace (Nat.min c (m * (c * 1) - r * c)) with c by nia.
  rewrite (seq_offset c (0 + r * c)), map_map.
  apply map_ext_in. intros l Hl. apply in_seq in Hl.
  replace (0 + r * c + l)%nat with (r * prod [c] + l)%nat by (simpl; lia).
  rewrite unravel_cons by (simpl; lia).
  cbn [unravel prod]. rewrite Nat.div_1_r. reflexivity.
Qed.


(** ** The target of the delta-confidence loss *)

Section InsideFacts.

Variable to_x1y1x2y2_box : list R -> list R.
Variable iou_box : list R -> list R -> R.
Variable hypes : hypes.
Variables classes perm_truth pred_boxes : tensor R.
Variable inside : tensor Z.

Hypothesis Hinside :
  rezoom_inside to_x1y1x2y2_box iou_box hypes classes perm_truth pred_boxes
  = Some inside.

(** Default policy: the target of a slot is 1 when its class is greater than
    0, else 0. *)
Lemma inside_default :
  rezoom_change_loss hypes = None \/ rezoom_change_loss hypes = Some ""%string ->
  length (tdata inside) = size classes
  /\ forall s, (s < size classes)%nat ->
       nth s (tdata inside) 0%Z = b2z (Rgtb (nth s (tdata classes) 0) 0).
Proof.
  intros Hp. unfold rezoom_inside in Hinside.
  assert (Hi : inside = reshape_flat (tmap (fun c => b2z (Rgtb c 0)) classes)).
  { destruct Hp as [Hp | Hp]; rewrite Hp in Hinside; simpl in Hinside;
      inversion Hinside; reflexivity. }
  subst inside. unfold reshape_flat, tmap, size. cbn [tdata]. split.
  - apply length_map.
  - intros s Hs. now apply (nth_map_in (fun c => b2z (Rgtb c 0))).
Qed.

(** IoU policy: the target of a slot is 1 when the IoU of the predicted and
    the matched ground-truth box exceeds 0.5, else 0. *)
Lemma inside_iou :
  rezoom_change_loss hypes = Some "iou"%string ->
  forall s, (s < length (tdata inside))%nat ->
    nth s (tdata inside) 0%Z
    = b2z (Rgtb (slot_iou to_x1y1x2y2_box iou_box perm_truth pred_boxes s) 0.5).
Proof.
  intros Hp s Hs. unfold rezoom_inside in Hinside. rewrite Hp in Hinside.
  change (String.eqb "iou" "center") with false in Hinside.
  change (String.eqb "iou" "iou") with true in Hinside.
  cbv beta iota in Hinside.
  peel1 Hinside pf Hpf. peel1 Hinside tf Htf. peel1 Hinside pc Hpc.
  peel1 Hinside tc Htc. peel1 Hinside iou_t Hiou.
  inversion Hinside; subst inside; clear Hinside.
  unfold reshape_rows in Hpf, Htf.
  destruct ((0 <? 4)%nat && (size pred_boxes mod 4 =? 0)%nat); [|discriminate].
  destruct ((0 <? 4)%nat && (size perm_truth mod 4 =? 0)%nat); [|discriminate].
  remember (size pred_boxes / 4)%nat as m eqn:Em.
  remember (size perm_truth / 4)%nat as m' eqn:Em'.
  injection Hpf as <-. injection Htf as <-.
  unfold to_x1y1x2y2 in Hpc, Htc. cbn [tshape] in Hpc, Htc.
  injection Hpc as <-. injection Htc as <-.
  unfold iou in Hiou. cbn [tshape tab] in Hiou.
  destruct (Nat.eqb_spec m m') as [Hm|]; [|discriminate].
  injection Hiou as <-.
  unfold reshape_flat, tmap in *. cbn [tdata] in *.
  rewrite length_map in Hs. unfold tab in Hs. cbn [tdata prod] in Hs.
  rewrite length_map, length_seq in Hs.
  rewrite (nth_map_in (fun v => b2z (Rgtb v 0.5)) _ _ 0)
    by (unfold tab; cbn [tdata prod]; rewrite length_map, length_seq; exact Hs).
  rewrite nth_tab1 by lia.
  rewrite !row_of_tab2 by lia.
  reflexivity.
Qed.

(** Centre policy: the target of a slot is 1 when its squared normalised
    centre offset is below [0.2 ^ 2] and its class is greater than 0, else 0. *)
Lemma inside_center :
  rezoom_change_loss hypes = Some "center"%string ->
  forall N K,
  tshape perm_truth = [N; K; 4%nat] -> tshape pred_boxes = [N; 1%nat; 4%nat] ->
  tshape classes = [N; K] -> wf classes ->
  forall i k, (i < N)%nat -> (k < K)%nat ->
    nth (i * K + k) (tdata inside) 0%Z
    = b2z (Rltb (center_offset_sq perm_truth pred_boxes i k) (0.2 ^ 2)
           && Rgtb (get 0 classes [i; k]) 0).
Proof.
  intros Hp N K Ht Hpb Hc Hwc i k Hi Hk.
  unfold rezoom_inside in Hinside. rewrite Hp in Hinside.
  change (String.eqb "center" "center") with true in Hinside.
  cbv beta iota in Hinside.
  peel1 Hinside truth_xy Htxy. peel1 Hinside pred_xy Hpxy. peel1 Hinside diff Hdiff.
  peel1 Hinside truth_wh Htwh. peel1 Hinside err Herr.
  peel1 Hinside square_error Hsq. peel1 Hinside both Hboth.
  injection Hinside as <-.
  unfold slice_last3 in Htxy, Hpxy, Htwh. rewrite Ht in Htxy, Htwh. rewrite Hpb in Hpxy.
  change (Nat.min 2 4 - 0)%nat with 2%nat in *.
  change (Nat.min 4 4 - 2)%nat with 2%nat in *.
  injection Htxy as <-. injection Hpxy as <-. injection Htwh as <-.
  apply bop_Some in Hdiff. destruct Hdiff as (s1 & Hs1 & ->).
  cbn [tshape tab] in Hs1. rewrite bshape3 in Hs1 by (unfold compat; auto).
  rewrite ?bdim_same, ?bdim_1_l, ?bdim_1_r in Hs1. injection Hs1 as <-.
  apply bop_Some in Herr. destruct Herr as (s2 & Hs2 & ->).
  cbn [tshape tab tmap] in Hs2. rewrite bshape3 in Hs2 by (unfold compat; auto).
  rewrite ?bdim_same, ?bdim_1_l, ?bdim_1_r in Hs2. injection Hs2 as <-.
  unfold reduce_sum_axis2 in Hsq. cbn [tshape tab tmap] in Hsq. injection Hsq as <-.
  apply bop_Some in Hboth. destruct Hboth as (s3 & Hs3 & ->).
  cbn [tshape tab tmap] in Hs3. rewrite Hc in Hs3.
  rewrite bshape2 in Hs3 by (unfold compat; auto).
  rewrite ?bdim_same in Hs3. injection Hs3 as <-.
  unfold reshape_flat. cbn [tdata tmap].
  rewrite (nth_map_in b2z _ _ false)
    by (unfold tab; cbn [tdata prod]; rewrite length_map, length_seq; nia).
  rewrite nth_tab2 by assumption.
  cbn [tshape tab tmap]. rewrite Hc. pick_axes.
  f_equal. f_equal.
  - rewrite (get_tmap 0) by (try apply wf_tab; simpl; lia).
    f_equal. rewrite get_tab by (simpl; lia).
    unfold sum_n. cbn [seq map rsum]. unfold center_offset_sq.
    repeat first [ rewrite get_tab by (simpl; lia)
                 | rewrite (get_tmap 0) by (try apply wf_tab; simpl; lia)
                 | progress pick_axes
                 | progress cbn [tshape tab tmap] ].
    unfold rsum. cbn [fold_right]. lra.
  - now rewrite (get_tmap 0) by (try assumption; rewrite Hc; simpl; lia).
Qed.

End InsideFacts.

Lemma b2z_true : forall b, b = true -> b2z b = 1%Z.
Proof. intros b ->. reflexivity. Qed.

Lemma b2z_false : forall b, b = false -> b2z b = 0%Z.
Proof. intros b ->. reflexivity. Qed.

(** C4. In [loss] with [use_rezoom], the binary target [inside] of the
    delta-confidence cross-entropy is: under ['center'], 1 exactly when the
    squared normalised centre offset of the slot is below [0.2 ^ 2] and its
    matched class is greater than 0; under ['iou'], 1 exactly when the IoU of
    the predicted and the matched ground-truth box exceeds 0.5, so that
    identical boxes of IoU 1 give 1; otherwise 1 exactly when the matched
    class is greater than 0; and the cross-entropy sum, divided by
    [outer_size] and weighted by [head_weights[0] * 0.1], is added to the
    total loss. A non-empty policy string other than these two is refused by
    the assertion of the last branch. *)
Theorem rezoom_inside_target :
  forall hungarian to_x1y1x2y2_box iou_box hypes decoded flags confidences boxes
         phase losses losses' total conf boxl classes perm_truth pred_mask
         inside deltas head0 head1,
  let N := outer_size_of hypes in
  let K := rnn_len hypes in
  loss hungarian to_x1y1x2y2_box iou_box hypes decoded (flags, confidences, boxes)
       phase losses = Some (losses', (total, conf, boxl)) ->
  use_rezoom hypes = true ->
  loss_match hungarian hypes decoded flags boxes
  = Some (classes, perm_truth, pred_mask) ->
  rezoom_inside to_x1y1x2y2_box iou_box hypes classes perm_truth (pred_boxes decoded)
  = Some inside ->
  pred_confs_deltas decoded = Some deltas ->
  box_shapes N K perm_truth (pred_boxes decoded) pred_mask ->
  tshape classes = [N; K] ->
  tshape deltas = [(N * K)%nat; num_classes hypes] ->
  nth_error (head_weights (solver hypes)) 0 = Some head0 ->
  nth_error (head_weights (solver hypes)) 1 = Some head1 ->
  (rezoom_change_loss hypes = Some "center"%string ->
   forall i k, (i < N)%nat -> (k < K)%nat ->
     let target := nth (i * K + k) (tdata inside) 0%Z in
     let is_inside := center_offset_sq perm_truth (pred_boxes decoded) i k < 0.2 ^ 2
                      /\ 0 < get 0 classes [i; k] in
     (is_inside -> target = 1%Z) /\ (~ is_inside -> target = 0%Z))
  /\ (rezoom_change_loss hypes = Some "iou"%string ->
      forall s, (s < length (tdata inside))%nat ->
        let target := nth s (tdata inside) 0%Z in
        let iou := slot_iou to_x1y1x2y2_box iou_box perm_truth (pred_boxes decoded) s in
        (0.5 < iou -> target = 1%Z) /\ (~ 0.5 < iou -> target = 0%Z)
        /\ (row_of 4 (pred_boxes decoded) s = row_of 4 perm_truth s -> iou = 1 ->
            target = 1%Z))
  /\ (rezoom_change_loss hypes = None \/ rezoom_change_loss hypes = Some ""%string ->
      forall s, (s < N * K)%nat ->
        let target := nth s (tdata inside) 0%Z in
        (0 < nth s (tdata classes) 0 -> target = 1%Z)
        /\ (~ 0 < nth s (tdata classes) 0 -> target = 0%Z))
  /\ (reregress hypes = false ->
      total = rsum losses
              + (conf
                 + base_boxes_loss_spec hypes perm_truth (pred_boxes decoded)
                                        pred_mask head1
                 + delta_confs_loss_spec hypes deltas inside head0))
  /\ (reregress hypes = true ->
      total = rsum losses
              + (conf
                 + base_boxes_loss_spec hypes perm_truth (pred_boxes decoded)
                                        pred_mask head1
                 + delta_confs_loss_spec hypes deltas inside head0
                 + boxl))
  /\ (forall s, rezoom_change_loss hypes = Some s ->
        s = "center"%string \/ s = "iou"%string \/ s = ""%string).
Proof.
  intros hungarian tb ib hypes decoded flags confidences boxes phase losses
         losses' total conf boxl classes perm_truth pred_mask inside deltas
         head0 head1 N K H Hrz Hm Hin Hdl Hsh Hcs Hds Hh0 Hh1.
  assert (Hpolicy : forall s, rezoom_change_loss hypes = Some s ->
            s = "center"%string \/ s = "iou"%string \/ s = ""%string).
  { intros s Hs. pose proof Hin as Hin0. unfold rezoom_inside in Hin0.
    rewrite Hs in Hin0.
    destruct (String.eqb_spec s "center"); [auto|].
    destruct (String.eqb_spec s "iou"); [auto|].
    destruct (String.eqb_spec s ""); [auto|]. discriminate. }
  apply loss_inv in H.
  destruct H as (classes' & perm_truth' & pred_mask' & ce & head0' & head1' & masked
                 & diff & _ & Hm' & Hcl & _ & _ & Hh0' & Hh1' & _ & Hmk & Hdf & _
                 & _ & Hrezoom).
  rewrite Hm in Hm'. inversion Hm'; subst classes' perm_truth' pred_mask'; clear Hm'.
  rewrite Hh0 in Hh0'. inversion Hh0'; subst head0'; clear Hh0'.
  rewrite Hh1 in Hh1'. inversion Hh1'; subst head1'; clear Hh1'.
  destruct (Hrezoom Hrz) as (inside' & deltas' & ce2 & Hin' & Hdl' & Hce2 & Hplain
                             & Hrere).
  rewrite Hin in Hin'. inversion Hin'; subst inside'; clear Hin'.
  rewrite Hdl in Hdl'. inversion Hdl'; subst deltas'; clear Hdl'.
  apply xent_Some in Hce2. destruct Hce2 as (m & c & Hs & _ & _ & Hsum).
  rewrite Hds in Hs. inversion Hs; subst m c; clear Hs.
  fold N K in Hcl.
  destruct Hsh as (Ht & Hp & Hmask).
  assert (Hwc : wf classes) by (unfold wf; rewrite Hcs; unfold size in Hcl; simpl; lia).
  split; [|split; [|split; [|split; [|split; [|exact Hpolicy]]]]].
  - intros Hpol i k Hi Hk target is_inside. subst target.
    rewrite (inside_center tb ib hypes classes perm_truth (pred_boxes decoded) inside
               Hin Hpol N K Ht Hp Hcs Hwc i k Hi Hk).
    subst is_inside. split.
    + intros [H1 H2]. apply b2z_true, andb_true_iff. split.
      * now apply Rltb_true.
      * now apply Rgtb_true.
    + intros Hn. apply b2z_false, andb_false_iff.
      destruct (Rlt_dec (center_offset_sq perm_truth (pred_boxes decoded) i k) (0.2 ^ 2))
        as [H1|H1].
      * right. apply Rgtb_false. tauto.
      * left. now apply Rltb_false.
  - intros Hpol s Hs target iou. subst target.
    rewrite (inside_iou tb ib hypes classes perm_truth (pred_boxes decoded) inside
               Hin Hpol s Hs).
    fold iou. split; [|split].
    + intros Hgt. now apply b2z_true, Rgtb_true.
    + intros Hn. now apply b2z_false, Rgtb_false.
    + intros _ Hone. apply b2z_true, Rgtb_true. lra.
  - intros Hpol s Hs target. subst target.
    destruct (inside_default tb ib hypes classes perm_truth (pred_boxes decoded) inside
                Hin Hpol) as [_ Hd].
    rewrite Hd by (rewrite Hcl; exact Hs). split.
    + intros Hgt. now apply b2z_true, Rgtb_true.
    + intros Hn. now apply b2z_false, Rgtb_false.
  - intros Hrr. destruct (Hplain Hrr) as (_ & Htot & _).
    rewrite (base_residual_sum _ _ _ _ _ _ _ (conj Ht (conj Hp Hmask)) Hmk Hdf) in Htot.
    rewrite Hsum in Htot. rewrite Htot.
    unfold base_boxes_loss_spec, delta_confs_loss_spec. fold N K. lra.
  - intros Hrr.
    destruct (Hrere Hrr) as (pbd & corrected & unshaped & dmasked & _ & _ & _ & _ & _
                             & _ & Htot & Hbox).
    rewrite (base_residual_sum _ _ _ _ _ _ _ (conj Ht (conj Hp Hmask)) Hmk Hdf) in Htot.
    rewrite Hsum in Htot. rewrite Htot, Hbox.
    unfold base_boxes_loss_spec, delta_confs_loss_spec. fold N K. lra.
Qed.

(** ** Evaluation on concrete inputs *)

(** Compute everything but the real-number operations. *)
Ltac rcbv :=
  cbv -[IZR INR Rabs Rmin Rmax exp ln Rltb Rgtb b2z b2r Rplus Rmult Rminus Rdiv
        Rinv Ropp Rle_dec Rlt_dec Int_part pow].

(** Resolve [Rmax], [Rmin] and [Rabs] on constants. *)
Ltac rnorm :=
  repeat match goal with
  | |- context [Rmax ?a ?b] =>
      first [rewrite (Rmax_left a b) by lra | rewrite (Rmax_right a b) by lra]
  | |- context [Rmin ?a ?b] =>
      first [rewrite (Rmin_left a b) by lra | rewrite (Rmin_right a b) by lra]
  | |- context [Rabs ?a] =>
      first [rewrite (Rabs_pos_eq a) by lra | rewrite (Rabs_left1 a) by lra]
  end.

(** Resolve the comparisons on constants. *)
Ltac rcmp :=
  repeat match goal with
  | |- context [Rgtb ?a ?b] =>
      first [rewrite (Rgtb_true a b) by lra | rewrite (Rgtb_false a b) by lra]
  | |- context [Rltb ?a ?b] =>
      first [rewrite (Rltb_true a b) by lra | rewrite (Rltb_false a b) by lra]
  end.

Ltac reval := repeat (rcbv; rnorm; rcmp; cbv [b2z b2r]).

(** ** The base box loss of a cell without object *)

(** Without rezoom, the box loss returned by [loss] is the base box loss,
    in which the mask multiplies the prediction and not the ground truth. *)
Lemma base_boxes_loss_formula :
  forall hungarian to_x1y1x2y2_box iou_box hypes decoded flags confidences boxes
         phase losses losses' total conf boxl classes perm_truth pred_mask head1,
  loss hungarian to_x1y1x2y2_box iou_box hypes decoded (flags, confidences, boxes)
       phase losses = Some (losses', (total, conf, boxl)) ->
  use_rezoom hypes = false ->
  loss_match hungarian hypes decoded flags boxes
  = Some (classes, perm_truth, pred_mask) ->
  box_shapes (outer_size_of hypes) (rnn_len hypes) perm_truth (pred_boxes decoded)
             pred_mask ->
  nth_error (head_weights (solver hypes)) 1 = Some head1 ->
  boxl = base_boxes_loss_spec hypes perm_truth (pred_boxes decoded) pred_mask head1.
Proof.
  intros hungarian tb ib hypes decoded flags confidences boxes phase losses
         losses' total conf boxl classes perm_truth pred_mask head1 H Hrz Hm Hsh Hh1.
  apply loss_inv in H.
  destruct H as (classes' & perm_truth' & pred_mask' & ce & head0 & head1' & masked
                 & diff & _ & Hm' & _ & _ & _ & _ & Hh1' & _ & Hmk & Hdf & _
                 & Hplain & _).
  rewrite Hm in Hm'. inversion Hm'; subst classes' perm_truth' pred_mask'; clear Hm'.
  rewrite Hh1 in Hh1'. inversion Hh1'; subst head1'; clear Hh1'.
  destruct (Hplain Hrz) as (_ & _ & ->).
  now rewrite (base_residual_sum _ _ _ _ _ _ _ Hsh Hmk Hdf).
Qed.

(** A slot whose mask is 0 contributes the absolute values of its
    ground-truth entry, whatever the prediction. *)
Lemma masked_slot_contribution : forall perm_truth pred_boxes pred_mask i k,
  get 0 pred_mask [i; k; 0%nat] = 0 ->
  sum_n 4 (fun c =>
    Rabs (get 0 perm_truth [i; k; c]
          - get 0 pred_boxes [i; 0%nat; c] * get 0 pred_mask [i; k; 0%nat]))
  = sum_n 4 (fun c => Rabs (get 0 perm_truth [i; k; c])).
Proof.
  intros perm_truth pred_boxes pred_mask i k Hz. apply sum_n_ext. intros c _.
  rewrite Hz. f_equal. lra.
Qed.

(** C1, on the code. For a cell without object (flag 0, hence mask 0) whose
    ground-truth box entry is [(1, 2, 3, 4)], [loss] returns the box loss
    [|1| + |2| + |3| + |4| = 10]: the mask multiplies the prediction alone,
    so the ground truth of the absent slot is counted in full. *)
Theorem base_boxes_loss_counts_absent_truth :
  exists losses' total conf,
    loss hungarian_unavailable corner_box iou_of_boxes hyp_single decoded_plain
         labels_absent "train" [] = Some (losses', (total, conf, 10)).
Proof.
  eexists _, _, _. reval.
  match goal with
  | |- Some (_, (_, _, ?b)) = _ => replace b with 10 by (simpl; lra)
  end.
  reflexivity.
Qed.

(** ** Instances on the example inputs *)

(** The modelled IoU of a box of positive width and height with itself
    is 1. *)
Lemma iou_of_identical_boxes : forall x y w h,
  0 < w -> 0 < h ->
  iou_of_boxes (box4 (corner_box [x; y; w; h])) (box4 (corner_box [x; y; w; h])) = 1.
Proof.
  intros x y w h Hw Hh. unfold iou_of_boxes, box_intersection, box_area, box4, corner_box.
  cbn [nth].
  rewrite !Rmin_left by lra. rewrite !(Rmax_left (x - w / 2)) by lra.
  rewrite !(Rmax_left (y - h / 2)) by lra.
  rewrite !(Rmax_left _ 0) by lra.
  field. nra.
Qed.

(** The matcher on one cell holding one object. *)
Lemma trivial_match_identity_witness :
  match_truth hungarian_unavailable hyp_single 1
              (pred_boxes decoded_plain) (Tensor [1; 1; 1]%nat [1])
              (Tensor [1; 1; 4]%nat [0; 0; 2; 2])
              (Tensor [1; 1]%nat [1%Z])
  <> None.
Proof.
  refine (proj1 (trivial_match_identity hungarian_unavailable hyp_single 1
                   (pred_boxes decoded_plain) (Tensor [1; 1; 1]%nat [1])
                   (Tensor [1; 1; 1; 4]%nat [0; 0; 2; 2])
                   (Tensor [1; 1; 4]%nat [0; 0; 2; 2])
                   (Tensor [1; 1]%nat [1%Z]) eq_refl eq_refl)
                eq_refl eq_refl).
Defined.

(** The ordering on [decoded_plain] and [labels_absent]. *)
Lemma loss_ordering_without_rezoom_witness :
  exists total conf boxl,
    (total >= conf /\ conf >= 0) /\ (total >= boxl /\ boxl >= 0).
Proof.
  eassert (E : loss hungarian_unavailable corner_box iou_of_boxes hyp_single
                    decoded_plain labels_absent "train" [] = Some (_, (_, _, _)))
    by (reval; reflexivity).
  eexists _, _, _.
  apply (loss_ordering_without_rezoom _ _ _ _ _ _ _ _ _ _ _ _ _ _ E).
  - reflexivity.
  - repeat constructor; lra.
  - constructor.
Defined.

(** The classification loss on [decoded_plain] and [labels_absent]. *)
Lemma classification_loss_formula_witness :
  exists conf classes head0,
    conf = classification_loss_spec hyp_single (pred_logits decoded_plain) classes head0.
Proof.
  eassert (E : loss hungarian_unavailable corner_box iou_of_boxes hyp_single
                    decoded_plain labels_absent "train" [] = Some (_, (_, _, _)))
    by (reval; reflexivity).
  destruct (classification_loss_formula _ _ _ _ _ _ _ _ _ _ _ _ _ _ E)
    as (classes & perm_truth & pred_mask & head0 & _ & _ & Hconf).
  eexists _, classes, head0. exact Hconf.
Defined.

(** On [decoded_rezoom] and [labels_present] the corrected box misses the
    ground truth by 20 on one coordinate: the square 400 is clamped to 100
    and the returned box loss is [100 / 1 * 1 * 0.03 = 3]. *)
Lemma reregress_loss_formula_witness :
  exists losses' total conf boxl,
    loss hungarian_unavailable corner_box iou_of_boxes hyp_rezoom decoded_rezoom
         labels_present "train" [] = Some (losses', (total, conf, boxl))
    /\ boxl = 3.
Proof.
  eassert (E : loss hungarian_unavailable corner_box iou_of_boxes hyp_rezoom
                    decoded_rezoom labels_present "train" [] = Some (_, (_, _, _)))
    by (reval; reflexivity).
  eassert (Em : loss_match hungarian_unavailable hyp_rezoom decoded_rezoom
                           (fst (fst labels_present)) (snd labels_present)
                = Some (_, _, _)) by (reval; reflexivity).
  match type of Em with
  | _ = Some (?c, ?t, _) =>
      eassert (Ei : rezoom_inside corner_box iou_of_boxes hyp_rezoom c t
                                  (pred_boxes decoded_rezoom) = Some _)
        by (reval; reflexivity)
  end.
  eexists _, _, _, _. split; [exact E|].
  refine (eq_trans
            (proj1 (reregress_loss_formula _ _ _ _ _ _ _ _ _ _ _ _ _ _ _ _ _ _ _ _ _ _
                      E eq_refl eq_refl Em Ei eq_refl eq_refl _ eq_refl eq_refl
                      eq_refl eq_refl)) _).
  - repeat split.
  - reval. simpl. lra.
Defined.

(** On [decoded_rezoom] and [labels_present] the predicted box and the
    ground-truth box are the same box of IoU 1: the target is 1. *)
Lemma rezoom_inside_target_witness :
  exists inside,
    rezoom_inside corner_box iou_of_boxes hyp_rezoom
                  (Tensor [1; 1]%nat [1]) (Tensor [1; 1; 4]%nat [0; 0; 2; 2])
                  (pred_boxes decoded_rezoom) = Some inside
    /\ nth 0 (tdata inside) 0%Z = 1%Z.
Proof.
  eassert (E : loss hungarian_unavailable corner_box iou_of_boxes hyp_rezoom
                    decoded_rezoom labels_present "train" [] = Some (_, (_, _, _)))
    by (reval; reflexivity).
  assert (Em : loss_match hungarian_unavailable hyp_rezoom decoded_rezoom
                          (fst (fst labels_present)) (snd labels_present)
               = Some (Tensor [1; 1]%nat [1], Tensor [1; 1; 4]%nat [0; 0; 2; 2],
                       Tensor [1; 1; 1]%nat [1])) by (reval; reflexivity).
  eassert (Ei : rezoom_inside corner_box iou_of_boxes hyp_rezoom
                              (Tensor [1; 1]%nat [1]) (Tensor [1; 1; 4]%nat [0; 0; 2; 2])
                              (pred_boxes decoded_rezoom) = Some _)
    by (reval; reflexivity).
  eexists. split; [exact Ei|].
  pose proof (rezoom_inside_target _ _ _ _ _ _ _ _ _ _ _ _ _ _ _ _ _ _ _ _ _
                E eq_refl Em Ei eq_refl (conj eq_refl (conj eq_refl eq_refl))
                eq_refl eq_refl eq_refl eq_refl) as (_ & Hiou & _).
  refine (proj2 (proj2 (Hiou eq_refl 0%nat (Nat.lt_0_succ 0))) eq_refl _).
  reval. lra.
Defined.

(** ** The decoder *)

Lemma softmax_Some : forall t t',
  softmax t = Some t' ->
  exists n c, tshape t = [n; c] /\ tshape t' = [n; c] /\ size t' = (n * c)%nat.
Proof.
  intros t t' H. unfold softmax in H.
  destruct (tshape t) as [|n [|c [|? ?]]] eqn:Hs; try discriminate.
  injection H as <-. exists n, c. repeat split.
  rewrite size_tab. simpl. lia.
Qed.

Lemma matmul_ok : forall a b n k m,
  tshape a = [n; k] -> tshape b = [k; m] ->
  exists t, matmul a b = Some t /\ tshape t = [n; m] /\ size t = (n * m)%nat.
Proof.
  intros a b n k m Ha Hb. unfold matmul. rewrite Ha, Hb, Nat.eqb_refl.
  eexists. split; [reflexivity|]. split; [reflexivity|].
  rewrite size_tab. simpl. lia.
Qed.

Lemma get_variable_ok : forall vars scope name shape,
  has_variable vars (scope ++ "/" ++ name)%string shape ->
  exists t, get_variable vars scope name shape = Some t /\ tshape t = shape.
Proof.
  intros vars scope name shape (t & Hv & Hs). unfold get_variable.
  rewrite Hv. cbn [bind]. rewrite Hs, eqb_shape_refl. eauto.
Qed.

Section DecoderFacts.

Variable bilinear_select :
  hypes -> tensor R -> tensor R -> nat -> R -> R -> option (tensor R).
Variable interp_point : tensor R -> list R -> nat -> R.
Variable hyp : hypes.
Variable vars : var_store.
Variable draws : dropout_draws.
Variables cnn_output early_feat encoder_output : tensor R.
Variable phase : string.

Let N := outer_size_of hyp.

(** The outputs of a successful run of [decoder]. *)
Lemma decoder_inv : forall r,
  decoder bilinear_select interp_point hyp vars draws
          (cnn_output, early_feat, encoder_output) phase = Some r ->
  exists logits conf,
    softmax logits = Some conf
    /\ tshape logits = [N; num_classes hyp]
    /\ pred_logits r = logits
    /\ pred_confidences r = Tensor [N; rnn_len hyp; num_classes hyp] (tdata conf)
    /\ (N * num_classes hyp = N * (rnn_len hyp * num_classes hyp))%nat
    /\ tshape (pred_boxes r) = [N; 1%nat; 4%nat]
    /\ wf (pred_boxes r).
Proof.
  intros r H. unfold decoder in H. cbv zeta in H.
  fold (outer_size_of hyp) in H. fold N in H.
  peel1 H reuse Hre. peel1 H cnn Hcnn. peel1 H raw Hraw.
  peel1 H box_weights Hbw. peel1 H conf_weights Hcw. peel1 H box_ip Hbi.
  peel1 H pred_box Hpb. peel1 H conf_ip Hci. peel1 H logits Hlg.
  peel1 H conf Hsm. peel1 H confr Hcr. peel1 H deltas Hdl.
  destruct deltas as [cd bd]. injection H as <-. cbn [pred_logits pred_confidences pred_boxes].
  apply reshape_Some in Hpb. destruct Hpb as [-> Hpbs].
  apply reshape_Some in Hlg. destruct Hlg as [-> Hlgs].
  apply reshape_Some in Hcr. destruct Hcr as [-> Hcrs].
  exists (Tensor [N; num_classes hyp] (tdata conf_ip)), conf.
  split; [exact Hsm|]. split; [reflexivity|]. split; [reflexivity|].
  split; [reflexivity|].
  apply softmax_Some in Hsm. destruct Hsm as (n & c & Hs & _ & Hsz).
  cbn [tshape] in Hs. injection Hs as <- <-.
  split; [simpl in Hcrs; lia|]. split; [reflexivity|].
  unfold wf, size in *. cbn [tshape tdata tmap] in *. rewrite ?length_map in *.
  exact Hpbs.
Qed.

Lemma tshape_maybe_dropout : forall (b : bool) keep t p,
  tshape (if b then dropout keep t p else t) = tshape t.
Proof. intros [|] keep t p; reflexivity. Qed.

(** With two or more slots per cell and a non-empty batch, the confidences
    of [decoder] do not fit the shape [(outer_size, rnn_len, num_classes)]. *)
Lemma decoder_fails_on_slots :
  (2 <= rnn_len hyp)%nat -> (0 < N * num_classes hyp)%nat ->
  decoder bilinear_select interp_point hyp vars draws
          (cnn_output, early_feat, encoder_output) phase = None.
Proof.
  intros Hk Hpos.
  destruct (decoder bilinear_select interp_point hyp vars draws
                    (cnn_output, early_feat, encoder_output) phase) as [r|] eqn:E;
    [|reflexivity].
  apply decoder_inv in E.
  destruct E as (logits & conf & _ & _ & _ & _ & Hsz & _). nia.
Qed.

End DecoderFacts.

(** ** Order of the rezoom features *)

Lemma mapM_ok : forall {A B} (f : A -> option B) (P : A -> B -> Prop) l,
  (forall a, In a l -> exists b, f a = Some b /\ P a b) ->
  exists bs, mapM f l = Some bs /\ Forall2 (fun a b => f a = Some b /\ P a b) l bs.
Proof.
  induction l as [|a l IH]; intros H.
  - exists []. split; [reflexivity | constructor].
  - destruct (H a (or_introl eq_refl)) as (b & Hb & HP).
    destruct IH as (bs & Hbs & HF); [intros x Hx; apply H; now right|].
    exists (b :: bs). simpl. rewrite Hb. cbn [bind]. rewrite Hbs. cbn [bind].
    split; [reflexivity | constructor; auto].
Qed.

(** Row [o * m + b] of a concatenation of blocks of [m] rows is row [b] of
    block [o]. *)
Lemma row_of_concat : forall {A} (q m : nat) (blocks : list (list A)) o b d s,
  Forall (fun blk => length blk = (m * q)%nat) blocks ->
  (o < length blocks)%nat -> (b < m)%nat ->
  row_of q (Tensor s (concat blocks)) (o * m + b)
  = firstn q (skipn (b * q) (nth o blocks d)).
Proof.
  intros A q m blocks o b d s Hall. unfold row_of. cbn [tdata].
  revert o. induction Hall as [|blk blocks Hblk Hall IH]; intros o Ho Hb.
  - simpl in Ho. lia.
  - destruct o as [|o].
    + cbn [concat nth]. replace (0 * m + b)%nat with b by lia.
      rewrite skipn_app, firstn_app, length_skipn.
      replace (q - (length blk - b * q))%nat with 0%nat by nia.
      cbn [firstn]. now rewrite app_nil_r.
    + cbn [concat nth]. rewrite skipn_app.
      replace (skipn ((S o * m + b) * q) blk) with (@nil A)
        by (symmetry; apply skipn_all2; nia).
      cbn [app].
      replace ((S o * m + b) * q - length blk)%nat with ((o * m + b) * q)%nat by nia.
      apply IH; [simpl in Ho; lia | exact Hb].
Qed.

Lemma fold_hd_uniform : forall (ts : list (tensor R)) n rest,
  Forall (fun t => tshape t = n :: rest) ts ->
  fold_right (fun t acc => (hd 0 (tshape t) + acc)%nat) 0%nat ts = (length ts * n)%nat.
Proof.
  intros ts n rest H. induction H as [|t ts Ht Hts IH]; [reflexivity|].
  cbn [fold_right length]. rewrite IH, Ht. simpl. lia.
Qed.

Lemma concat0_uniform : forall (ts : list (tensor R)) n rest,
  ts <> [] ->
  Forall (fun t => tshape t = n :: rest) ts ->
  concat0 ts = Some (Tensor ((length ts * n)%nat :: rest) (concat (map (@tdata R) ts))).
Proof.
  intros ts n rest Hne H. unfold concat0.
  destruct ts as [|t0 ts]; [contradiction|].
  pose proof H as H0. inversion H0 as [|? ? Ht0 _]; subst.
  rewrite Ht0.
  assert (Hall : forallb (fun t => match tshape t with
                                   | _ :: rest' => eqb_shape rest' rest
                                   | [] => false
                                   end) (t0 :: ts) = true).
  { apply forallb_forall. intros t Hin. rewrite Forall_forall in H.
    rewrite (H t Hin). apply eqb_shape_refl. }
  rewrite Hall. now rewrite (fold_hd_uniform _ _ _ H).
Qed.

Lemma transpose_1203 : forall (t : tensor R) o n k c,
  tshape t = [o; n; k; c] ->
  transpose 0 t [1; 2; 0; 3]%nat
  = Some (tab [n; k; o; c]
              (fun idx => get 0 t (map (fun j => nth (index_of j [1; 2; 0; 3]%nat) idx 0%nat)
                                       (seq 0 4)))).
Proof.
  intros t o n k c H. unfold transpose. rewrite H. reflexivity.
Qed.

Lemma Forall2_nth_both : forall {A B} (P : A -> B -> Prop) l l' o da db,
  Forall2 P l l' -> (o < length l)%nat -> P (nth o l da) (nth o l' db).
Proof.
  intros A B P l l' o da db H. revert o.
  induction H as [|a b l l' Hab H IH]; intros o Ho; simpl in Ho; [lia|].
  destruct o as [|o]; [exact Hab|]. apply IH. lia.
Qed.

Lemma Forall2_length_eq : forall {A B} (P : A -> B -> Prop) l l',
  Forall2 P l l' -> length l = length l'.
Proof. induction 1; simpl; congruence. Qed.

Section RezoomOrder.

Variable bilinear_select :
  hypes -> tensor R -> tensor R -> nat -> R -> R -> option (tensor R).
Variable interp_point : tensor R -> list R -> nat -> R.
Variable hyp : hypes.
Variables pred_boxes early_feat : tensor R.
Variables channels q : nat.
Variables w_offsets h_offsets : list R.

Let N := outer_size_of hyp.
Let K := rnn_len hyp.
Let pairs := list_prod w_offsets h_offsets.
Let O := (length w_offsets * length h_offsets)%nat.

Hypothesis Hsel : forall wh, In wh pairs ->
  selects_boxes bilinear_select hyp pred_boxes early_feat channels q wh.
Hypothesis Hne : pairs <> [].

(** [_rezoom] succeeds, and the feature [o * channels + c] of slot [(i, k)]
    is channel [c] of the sample of box [i * K + k] at offset pair [o]. *)
Lemma rezoom_elements :
  exists out,
    _rezoom bilinear_select interp_point hyp pred_boxes early_feat channels
            w_offsets h_offsets = Some out
    /\ tshape out = [N; K; (O * channels)%nat]
    /\ wf out
    /\ forall i k o c, (i < N)%nat -> (k < K)%nat -> (o < O)%nat -> (c < channels)%nat ->
         get 0 out [i; k; (o * channels + c)%nat]
         = nth c (box_samples bilinear_select interp_point hyp pred_boxes early_feat
                              channels (i * K + k) (nth o pairs (0, 0))) 0.
Proof.
  unfold _rezoom. cbv zeta. fold (outer_size_of hyp). fold N K pairs O.
  destruct (mapM_ok (fun wh => bilinear_select hyp pred_boxes early_feat channels
                                               (fst wh) (snd wh))
                    (fun _ idx => tshape idx = [(N * K)%nat; q] /\ wf idx) pairs)
    as (idxs & Hm & HF).
  { intros wh Hin. destruct (Hsel wh Hin) as (idx & H1 & H2 & H3). eauto. }
  rewrite Hm. cbn [bind].
  assert (HO : length pairs = O) by (unfold pairs, O; apply length_prod).
  assert (Hlen : length idxs = O)
    by (rewrite <- HO; symmetry; eapply Forall2_length_eq; exact HF).
  assert (Hshapes : Forall (fun t => tshape t = [(N * K)%nat; q]) idxs).
  { clear -HF. induction HF as [|a b l l' [_ [Hs _]] _ IH]; constructor; auto. }
  assert (Hblocks : Forall (fun blk => length blk = (N * K * q)%nat)
                           (map (@tdata R) idxs)).
  { clear -HF. induction HF as [|a b l l' [_ [Hs Hw]] _ IH]; constructor; auto.
    unfold wf in Hw. rewrite Hw, Hs. simpl. lia. }
  rewrite (concat0_uniform idxs (N * K) [q]);
    [|intro E; rewrite E in Hlen; simpl in Hlen;
      destruct pairs; [contradiction | simpl in HO; lia] | exact Hshapes].
  cbn [bind]. unfold interp at 1. cbn [tshape bind]. rewrite Hlen.
  rewrite reshape_ok by (rewrite size_tab; simpl; ring).
  cbn [bind].
  erewrite (transpose_1203 _ O N K channels) by reflexivity. cbn [bind].
  rewrite reshape_ok by (rewrite size_tab; simpl; ring).
  eexists. split; [reflexivity|]. split; [reflexivity|].
  split; [unfold wf; cbn [tshape tdata]; rewrite (wf_tab [N; K; O; channels]);
          simpl; ring|].
  intros i k o c Hi Hk Ho Hc.
  unfold get at 1. cbn [tshape tdata].
  replace (ravel [N; K; (O * channels)%nat] [i; k; (o * channels + c)%nat])
    with (ravel [N; K; O; channels] [i; k; o; c]) by (simpl; ring).
  change (nth (ravel [N; K; O; channels] [i; k; o; c])
              (tdata (tab [N; K; O; channels] ?F)) 0)
    with (get 0 (tab [N; K; O; channels] F) [i; k; o; c]).
  rewrite get_tab by (simpl; lia).
  cbn [map seq nth index_of Nat.eqb].
  unfold get. cbn [tshape tdata].
  replace (ravel [O; N; K; channels] [o; i; k; c])
    with ((o * (N * K) + (i * K + k)) * channels + c)%nat by (simpl; ring).
  assert (Hb : (i * K + k < N * K)%nat) by nia.
  assert (Hr : (o * (N * K) + (i * K + k) < O * (N * K))%nat).
  { apply Nat.lt_le_trans with ((o + 1) * (N * K))%nat; [lia|].
    apply Nat.mul_le_mono_r. lia. }
  rewrite nth_tab2 by assumption.
  rewrite (row_of_concat q (N * K) (map (@tdata R) idxs) o (i * K + k) []);
    [|exact Hblocks | rewrite length_map; lia | exact Hb].
  pose proof (Forall2_nth_both _ pairs idxs o (0, 0) (Tensor [] []) HF
                ltac:(rewrite HO; exact Ho)) as (Hbs & Hs & _).
  unfold box_samples. rewrite Hbs, Hs. cbn [nth].
  rewrite (nth_map_in _ _ _ 0%nat) by (rewrite length_seq; exact Hc).
  rewrite seq_nth by exact Hc. cbn [Nat.add].
  unfold row_of.
  change (@nil R) with (tdata (Tensor (@nil nat) (@nil R))).
  now rewrite map_nth.
Qed.

End RezoomOrder.

Lemma nth_flat_map_uniform : forall {A B} (f : A -> list B) l n o c da db,
  (forall x, In x l -> length (f x) = n) ->
  (o < length l)%nat -> (c < n)%nat ->
  nth (o * n + c) (flat_map f l) db = nth c (f (nth o l da)) db.
Proof.
  intros A B f l n o c da db. revert o.
  induction l as [|a l IH]; intros o Hlen Ho Hc; simpl in Ho; [lia|].
  cbn [flat_map]. destruct o as [|o].
  - cbn [nth Nat.mul Nat.add]. apply app_nth1. rewrite Hlen by now left. exact Hc.
  - rewrite app_nth2 by (rewrite Hlen by (now left); nia).
    rewrite Hlen by now left.
    replace (S o * n + c - n)%nat with (o * n + c)%nat by nia.
    cbn [nth]. apply IH; [intros x Hx; apply Hlen; now right | lia | exact Hc].
Qed.

Lemma length_box_samples : forall bilinear_select interp_point hyp pred_boxes early_feat
                                  channels q b wh,
  selects_boxes bilinear_select hyp pred_boxes early_feat channels q wh ->
  length (box_samples bilinear_select interp_point hyp pred_boxes early_feat
                      channels b wh) = channels.
Proof.
  intros bs ip hyp pb ef channels q b wh (idx & H & _). unfold box_samples.
  rewrite H. now rewrite length_map, length_seq.
Qed.

(** C8. The reshape and transpose of [_rezoom] keep the order of cells and
    slots: for every cell [i < outer_size] and slot [k < rnn_len], row
    [(i, k)] of the returned tensor is the concatenation, over the offset
    pairs in the order of their enumeration, of the [early_feat_channels]
    bilinear samples of that box; with the single offset pair [(0, 0)] the
    row is the bilinear sample at the predicted centre itself. *)
Theorem rezoom_rows_in_offset_order :
  forall bilinear_select interp_point hyp pred_boxes early_feat channels q
         w_offsets h_offsets,
  let N := outer_size_of hyp in
  let K := rnn_len hyp in
  let pairs := list_prod w_offsets h_offsets in
  let O := (length w_offsets * length h_offsets)%nat in
  let sample := box_samples bilinear_select interp_point hyp pred_boxes early_feat
                            channels in
  (forall wh, In wh pairs ->
     selects_boxes bilinear_select hyp pred_boxes early_feat channels q wh) ->
  pairs <> [] ->
  exists out,
    _rezoom bilinear_select interp_point hyp pred_boxes early_feat channels
            w_offsets h_offsets = Some out
    /\ tshape out = [N; K; (O * channels)%nat]
    /\ (forall i k, (i < N)%nat -> (k < K)%nat ->
          row_of (O * channels) out (i * K + k) = flat_map (sample (i * K + k)%nat) pairs)
    /\ (w_offsets = [0] -> h_offsets = [0] ->
        forall i k, (i < N)%nat -> (k < K)%nat ->
          row_of channels out (i * K + k) = sample (i * K + k)%nat (0, 0)).
Proof.
  intros bs ip hyp pred_boxes early_feat channels q w_offsets h_offsets
         N K pairs O sample Hsel Hne.
  destruct (rezoom_elements bs ip hyp pred_boxes early_feat channels q
                            w_offsets h_offsets Hsel Hne)
    as (out & Hout & Hshape & Hwf & Helem).
  fold N K pairs O in Hshape, Helem.
  assert (HO : length pairs = O) by (unfold pairs, O; apply length_prod).
  assert (Hrows : forall i k, (i < N)%nat -> (k < K)%nat ->
            row_of (O * channels) out (i * K + k) = flat_map (sample (i * K + k)%nat) pairs).
  { intros i k Hi Hk.
    assert (Hsize : size out = (N * K * (O * channels))%nat).
    { unfold size. rewrite Hwf, Hshape. simpl. ring. }
    assert (Hlen : length (flat_map (sample (i * K + k)%nat) pairs) = (O * channels)%nat).
    { rewrite (flat_map_constant_length (c := channels)), HO; [reflexivity|].
      intros wh Hin. eapply length_box_samples. apply Hsel. exact Hin. }
    assert (Hb : (i * K + k < N * K)%nat) by nia.
    assert (Hfit : ((i * K + k + 1) * (O * channels) <= size out)%nat)
      by (rewrite Hsize; apply Nat.mul_le_mono_r; lia).
    apply (nth_ext _ _ 0 0).
    - rewrite Hlen. now apply length_row_of.
    - intros j Hj. rewrite length_row_of in Hj by exact Hfit.
      assert (Hc : (channels <> 0)%nat) by (intro E; rewrite E in Hj; lia).
      assert (Hdm : j = (j / channels * channels + j mod channels)%nat)
        by (rewrite (Nat.mul_comm (j / channels)); apply Nat.div_mod_eq).
      pose proof (Nat.mod_upper_bound j channels Hc) as Hmod.
      assert (Ho : (j / channels < O)%nat)
        by (apply Nat.Div0.div_lt_upper_bound; lia).
      unfold row_of. rewrite nth_firstn.
      destruct (Nat.ltb_spec j (O * channels)) as [_|]; [|lia].
      rewrite nth_skipn.
      replace ((i * K + k) * (O * channels) + j)%nat
        with (ravel (tshape out) [i; k; j]) by (rewrite Hshape; simpl; ring).
      change (nth (ravel (tshape out) [i; k; j]) (tdata out) 0)
        with (get 0 out [i; k; j]).
      replace j with (j / channels * channels + j mod channels)%nat at 1
        by (symmetry; exact Hdm).
      rewrite (Helem i k (j / channels)%nat (j mod channels)%nat Hi Hk Ho Hmod).
      replace j with (j / channels * channels + j mod channels)%nat at 3
        by (symmetry; exact Hdm).
      symmetry. apply (nth_flat_map_uniform _ _ _ _ _ (0, 0)).
      + intros wh Hin. eapply length_box_samples. apply Hsel. exact Hin.
      + rewrite HO. exact Ho.
      + exact Hmod. }
  exists out. split; [exact Hout|]. split; [exact Hshape|]. split; [exact Hrows|].
  intros Hw Hh i k Hi Hk.
  specialize (Hrows i k Hi Hk). unfold pairs, O in Hrows.
  rewrite Hw, Hh in Hrows. cbn [length list_prod map app flat_map Nat.mul Nat.add] in Hrows.
  rewrite app_nil_r, Nat.add_0_r in Hrows. exact Hrows.
Qed.

(** ** The rezoom of a single-slot decoder *)

Lemma get_variable_named : forall vars scope name full shape,
  (scope ++ "/" ++ name)%string = full ->
  has_variable vars full shape ->
  exists t, get_variable vars scope name shape = Some t /\ tshape t = shape.
Proof. intros vars scope name full shape <- H. now apply get_variable_ok. Qed.

Lemma select_mid_ok : forall (t : tensor R) n m f k,
  tshape t = [n; m; f] -> (k < m)%nat ->
  exists s, select_mid 0 t k = Some s /\ tshape s = [n; f] /\ wf s.
Proof.
  intros t n m f k Hs Hk. unfold select_mid. rewrite Hs.
  destruct (Nat.ltb_spec k m) as [_|]; [|lia].
  eexists. split; [reflexivity|]. split; [reflexivity | apply wf_tab].
Qed.

(** [tf.concat(1, [a, b])] of two matrices with the same number of rows. *)
Lemma concat1_pair_ok : forall (a b : tensor R) n p q,
  tshape a = [n; p] -> tshape b = [n; q] ->
  exists t, concat1 [a; b] = Some t /\ tshape t = [n; (p + q)%nat].
Proof.
  intros a b n p q Ha Hb. unfold concat1. rewrite Ha. cbn [forallb].
  rewrite Ha, Hb, Nat.eqb_refl, eqb_shape_refl. cbn [andb fold_right tl hd].
  eexists. split; [reflexivity|]. rewrite Ha, Hb. cbn [tl hd].
  now rewrite Nat.add_0_r.
Qed.

(** [tf.concat(1, [t])] of a single tensor of shape [(n, 1, c)]. *)
Lemma concat1_single_ok : forall (t : tensor R) n c,
  tshape t = [n; 1%nat; c] -> wf t ->
  exists u, concat1 [t] = Some u /\ tshape u = [n; 1%nat; c] /\ size u = (n * c)%nat.
Proof.
  intros t n c Hs Hw. unfold concat1. rewrite Hs. cbn [forallb].
  rewrite Hs, Nat.eqb_refl, eqb_shape_refl. cbn [andb fold_right tl hd].
  eexists. split; [reflexivity|]. rewrite Hs. cbn [tl hd]. split; [reflexivity|].
  unfold size. cbn [tdata].
  rewrite (flat_map_constant_length (c := c)); [now rewrite length_seq|].
  intros i Hi. apply in_seq in Hi. cbn [flat_map]. rewrite app_nil_r, Hs.
  cbn [tl prod]. rewrite length_row_of; [lia|].
  unfold size. rewrite Hw, Hs. cbn [prod]. nia.
Qed.

Section RezoomTotal.

Variable bilinear_select :
  hypes -> tensor R -> tensor R -> nat -> R -> R -> option (tensor R).
Variable interp_point : tensor R -> list R -> nat -> R.
Variable hyp : hypes.
Variable vars : var_store.
Variable draws : dropout_draws.
Variable phase : string.
Variable q : nat.

Let N := outer_size_of hyp.

Hypothesis Hk : rnn_len hyp = 1%nat.
Hypothesis Hsel : selects_all bilinear_select hyp q.
Hypothesis Hne : list_prod (rezoom_w_coords hyp) (rezoom_h_coords hyp) <> [].
Hypothesis Hvars : rezoom_variables hyp vars 0.

(** The round of slot 0 succeeds. *)
Lemma rezoom_slot_total : forall raw_output rezoom_features,
  tshape raw_output = [N; lstm_size hyp] ->
  tshape rezoom_features
  = [N; 1%nat;
     (length (rezoom_w_coords hyp) * length (rezoom_h_coords hyp)
      * early_feat_channels hyp)%nat] ->
  exists c bd,
    rezoom_slot hyp vars draws phase N
                (length (rezoom_w_coords hyp) * length (rezoom_h_coords hyp))
                raw_output rezoom_features 0 = Some (c, bd)
    /\ tshape c = [N; 1%nat; num_classes hyp] /\ wf c
    /\ (reregress hyp = true ->
        exists t, bd = Some t /\ tshape t = [N; 1%nat; 4%nat] /\ wf t)
    /\ (reregress hyp = false -> bd = None).
Proof.
  intros raw_output rezoom_features Hraw Hrf.
  destruct Hvars as (Hv1 & Hv2 & Hv3).
  unfold rezoom_slot. cbv zeta.
  destruct (select_mid_ok rezoom_features _ _ _ 0 Hrf Nat.lt_0_1) as (sl & -> & Hsl & _).
  cbn [bind].
  destruct (concat1_pair_ok raw_output (tmap (fun x => x / 1000) sl) _ _ _ Hraw Hsl)
    as (df & -> & Hdf).
  cbn [bind].
  destruct (get_variable_named vars "decoder" ("delta_ip1" ++ fmt_d 0) _ _ eq_refl Hv1)
    as (w1 & -> & Hw1).
  cbn [bind].
  assert (Hdf' : tshape df
                 = [N; (lstm_size hyp
                        + early_feat_channels hyp
                          * (length (rezoom_w_coords hyp)
                             * length (rezoom_h_coords hyp)))%nat])
    by (rewrite Hdf; f_equal; f_equal; lia).
  destruct (matmul_ok df w1 _ _ _ Hdf' Hw1) as (m1 & -> & Hm1 & _).
  cbn [option_map bind].
  set (ip1 := if String.eqb phase "train" then _ else tmap relu m1).
  assert (Hip1 : tshape ip1 = [N; 128%nat])
    by (unfold ip1; rewrite tshape_maybe_dropout; exact Hm1).
  destruct (get_variable_named vars "decoder" ("delta_ip2" ++ fmt_d 0) _ _ eq_refl Hv2)
    as (w2 & -> & Hw2).
  cbn [bind].
  destruct (matmul_ok ip1 w2 _ _ _ Hip1 Hw2) as (m2 & Hm2e & _ & Hm2s).
  destruct (reregress hyp) eqn:Hrr.
  - destruct (get_variable_named vars "decoder" ("delta_ip_boxes" ++ fmt_d 0) _ _
                eq_refl (Hv3 eq_refl)) as (wb & -> & Hwb).
    cbn [bind].
    destruct (matmul_ok ip1 wb _ _ _ Hip1 Hwb) as (mb & -> & _ & Hmbs).
    cbn [option_map bind].
    rewrite reshape_ok by (rewrite size_tmap, Hmbs; simpl; lia).
    cbn [bind]. rewrite Hm2e. cbn [option_map bind].
    rewrite reshape_ok by (rewrite size_tmap, Hm2s; simpl; lia).
    cbn [bind]. eexists _, _. split; [reflexivity|].
    split; [reflexivity|].
    split; [unfold wf; cbn [tdata tshape tmap]; rewrite length_map;
            unfold size in Hm2s; rewrite Hm2s; simpl; lia|].
    split; [|discriminate].
    intros _. eexists. split; [reflexivity|]. split; [reflexivity|].
    unfold wf. cbn [tdata tshape tmap]. rewrite length_map.
    unfold size in Hmbs. rewrite Hmbs. simpl. lia.
  - cbn [bind]. rewrite Hm2e. cbn [option_map bind].
    rewrite reshape_ok by (rewrite size_tmap, Hm2s; simpl; lia).
    cbn [bind]. eexists _, _. split; [reflexivity|].
    split; [reflexivity|].
    split; [unfold wf; cbn [tdata tshape tmap]; rewrite length_map;
            unfold size in Hm2s; rewrite Hm2s; simpl; lia|].
    split; [discriminate | reflexivity].
Qed.

(** With one slot per cell, [apply_rezoom] succeeds on a rank-4 feature map. *)
Lemma apply_rezoom_total : forall early_feat raw_output pred_box pred_conf b h w ch,
  tshape early_feat = [b; h; w; ch] ->
  tshape raw_output = [N; lstm_size hyp] ->
  tshape pred_box = [N; 1%nat; 4%nat] -> wf pred_box ->
  exists cd bd,
    apply_rezoom bilinear_select interp_point hyp vars draws phase early_feat
                 raw_output pred_box pred_conf = Some (cd, bd)
    /\ tshape cd = [(N * 1)%nat; num_classes hyp]
    /\ (reregress hyp = true -> exists t, bd = Some t /\ tshape t = [N; 1%nat; 4%nat])
    /\ (reregress hyp = false -> bd = None).
Proof.
  intros early_feat raw_output pred_box pred_conf b h w ch Hef Hraw Hpb Hpw.
  unfold apply_rezoom. cbv zeta. fold (outer_size_of hyp). fold N.
  unfold take_channels. rewrite Hef. cbn [bind].
  destruct (rezoom_elements bilinear_select interp_point hyp pred_box
              (tab [b; h; w; Nat.min (early_feat_channels hyp) ch]
                   (fun idx => match idx with
                               | [i; y; x; l] => get 0 early_feat [i; y; x; l]
                               | _ => 0
                               end))
              (early_feat_channels hyp) q
              (rezoom_w_coords hyp) (rezoom_h_coords hyp))
    as (rf & Hrf & Hrfs & _).
  { intros wh _. apply Hsel; assumption. }
  { exact Hne. }
  rewrite Hrf. cbn [bind].
  set (rf' := if String.eqb phase "train" then _ else rf).
  assert (Hrf' : tshape rf'
                 = [N; 1%nat;
                    (length (rezoom_w_coords hyp) * length (rezoom_h_coords hyp)
                     * early_feat_channels hyp)%nat])
    by (unfold rf'; rewrite tshape_maybe_dropout, Hrfs, Hk; reflexivity).
  destruct (rezoom_slot_total raw_output rf' Hraw Hrf')
    as (c & bd & Hslot & Hc & Hcw & Hbt & Hbf).
  rewrite Hk. cbn [seq mapM]. rewrite Hslot. cbn [bind map fst].
  destruct (concat1_single_ok c _ _ Hc Hcw) as (u & -> & Hu & Hus).
  cbn [bind].
  rewrite reshape_ok by (rewrite Hus; simpl; lia). cbn [bind].
  rewrite reshape_ok by (unfold size; cbn [tdata]; unfold size in Hus; rewrite Hus;
                         simpl; lia).
  cbn [bind]. unfold softmax at 1. cbn [tshape bind].
  rewrite reshape_ok by (rewrite size_tab; simpl; lia).
  cbn [bind].
  destruct (reregress hyp) eqn:Hrr.
  - destruct (Hbt eq_refl) as (t & -> & Ht & Htw). cbn [collect_boxes].
    destruct (concat1_single_ok t _ _ Ht Htw) as (v & -> & Hv & _).
    cbn [option_map bind]. eexists _, _. split; [reflexivity|].
    split; [reflexivity|]. split; [|discriminate]. intros _. eauto.
  - cbn [bind]. eexists _, _. split; [reflexivity|].
    split; [reflexivity|]. split; [discriminate | reflexivity].
Qed.

End RezoomTotal.

(** ** Success of the decoder with one slot per cell *)

Section DecoderTotal.

Variable bilinear_select :
  hypes -> tensor R -> tensor R -> nat -> R -> R -> option (tensor R).
Variable interp_point : tensor R -> list R -> nat -> R.
Variable hyp : hypes.
Variable vars : var_store.
Variable draws : dropout_draws.
Variables cnn_output early_feat encoder_output : tensor R.
Variable phase : string.

Let N := outer_size_of hyp.

(** [decoder] succeeds on well-sized features and variables when there is
    one slot per cell. *)
Lemma decoder_total :
  phase = "train"%string \/ phase = "val"%string ->
  size cnn_output
  = (batch_size hyp * grid_width hyp * grid_height hyp * cnn_channels hyp)%nat ->
  decoder_variables hyp vars ->
  rnn_len hyp = 1%nat ->
  (use_rezoom hyp = true -> rezoom_ready bilinear_select hyp vars early_feat) ->
  exists r, decoder bilinear_select interp_point hyp vars draws
                    (cnn_output, early_feat, encoder_output) phase = Some r.
Proof.
  intros Hphase Hcnn (Hip & Hbox & Hconf) Hk Hrz.
  unfold decoder. cbv zeta. fold (outer_size_of hyp). fold N.
  assert (Hre : exists reuse, phase_reuse phase = Some reuse)
    by (destruct Hphase as [-> | ->]; eexists; reflexivity).
  destruct Hre as (reuse & ->). cbn [bind].
  rewrite reshape_ok by (simpl; lia). cbn [bind].
  unfold _build_yolo_fc_layer. cbv zeta.
  rewrite reshape_ok by (rewrite size_tmap; unfold size; simpl; unfold size in Hcnn; lia).
  cbn [bind].
  destruct (get_variable_ok vars "decoder/Overfeat" "ip" _ Hip) as (w & -> & Hw).
  cbn [bind].
  destruct (matmul_ok (Tensor [(batch_size hyp * (grid_width hyp * grid_height hyp))%nat;
                               cnn_channels hyp]
                              (tdata (tmap (fun x => x * 0.01)
                                 (Tensor [(batch_size hyp * grid_width hyp
                                           * grid_height hyp)%nat; cnn_channels hyp]
                                         (tdata cnn_output)))))
                      w _ _ _ eq_refl Hw) as (raw & -> & Hraw & _).
  cbn [bind].
  destruct (get_variable_ok vars "decoder" "box_ip" _ Hbox) as (bw & -> & Hbw).
  cbn [bind].
  destruct (get_variable_ok vars "decoder" "conf_ip" _ Hconf) as (cw & -> & Hcw).
  cbn [bind].
  set (raw' := if String.eqb phase "train" then _ else raw).
  assert (Hraw' : tshape raw' = tshape raw) by apply tshape_maybe_dropout.
  rewrite Hraw in Hraw'.
  destruct (matmul_ok raw' bw _ _ _ Hraw' Hbw) as (bi & -> & _ & Hbis). cbn [bind].
  rewrite reshape_ok
    by (rewrite size_tmap, Hbis; unfold N, outer_size_of; simpl; lia).
  cbn [bind].
  destruct (matmul_ok raw' cw _ _ _ Hraw' Hcw) as (ci & -> & _ & Hcis). cbn [bind].
  rewrite reshape_ok by (rewrite Hcis; unfold N, outer_size_of; simpl; lia).
  cbn [bind]. unfold softmax at 1. cbn [tshape bind].
  rewrite reshape_ok by (rewrite size_tab, Hk; simpl; lia).
  cbn [bind].
  destruct (use_rezoom hyp) eqn:Huse; [|cbn [bind]; eauto].
  destruct (Hrz eq_refl) as ((b & h & wd & ch & Hef) & (q & Hsel) & Hne & Hrv).
  assert (HrawN : tshape raw' = [N; lstm_size hyp])
    by (rewrite Hraw'; unfold N, outer_size_of; f_equal; lia).
  destruct (apply_rezoom_total bilinear_select interp_point hyp vars draws phase q
              Hk Hsel Hne Hrv early_feat raw'
              (Tensor [N; 1%nat; 4%nat] (tdata (tmap (fun x => x * 50) bi)))
              (Tensor [N; rnn_len hyp; num_classes hyp]
                      (tdata (tab [N; num_classes hyp]
                                  (fun idx => match idx with
                                              | [i; j] =>
                                                  exp (get 0 (Tensor [N; num_classes hyp]
                                                                     (tdata ci)) [i; j])
                                                  / sum_n (num_classes hyp)
                                                      (fun l => exp (get 0
                                                         (Tensor [N; num_classes hyp]
                                                                 (tdata ci)) [i; l]))
                                              | _ => 0
                                              end))))
              b h wd ch Hef HrawN eq_refl)
    as (cd & bd & -> & _).
  { unfold wf. cbn [tdata tshape tmap]. rewrite length_map. unfold size in Hbis.
    rewrite Hbis. unfold N, outer_size_of. simpl. lia. }
  cbn [option_map bind]. eauto.
Qed.

End DecoderTotal.

(** ** Shapes of the decoder outputs *)

(** C3, as the code has it. On well-sized features and variables, [decoder]
    with one slot per cell ([rnn_len = 1]) returns [pred_boxes] of shape
    [(outer_size, 1, 4)] and [pred_confidences] of shape
    [(outer_size, rnn_len, num_classes)]; whatever it returns has these
    shapes; and with two or more slots per cell and a non-empty batch the
    reshape of the [(outer_size, num_classes)] confidences fails, so that it
    returns nothing. *)
Theorem decoder_output_shapes :
  forall bilinear_select interp_point hyp vars draws cnn_output early_feat
         encoder_output phase,
  let N := outer_size_of hyp in
  let run := decoder bilinear_select interp_point hyp vars draws
                     (cnn_output, early_feat, encoder_output) phase in
  phase = "train"%string \/ phase = "val"%string ->
  size cnn_output
  = (batch_size hyp * grid_width hyp * grid_height hyp * cnn_channels hyp)%nat ->
  decoder_variables hyp vars ->
  (use_rezoom hyp = true -> rezoom_ready bilinear_select hyp vars early_feat) ->
  (rnn_len hyp = 1%nat ->
   exists r, run = Some r
             /\ tshape (pred_boxes r) = [N; 1%nat; 4%nat]
             /\ tshape (pred_confidences r) = [N; rnn_len hyp; num_classes hyp])
  /\ (forall r, run = Some r ->
        tshape (pred_boxes r) = [N; 1%nat; 4%nat]
        /\ tshape (pred_confidences r) = [N; rnn_len hyp; num_classes hyp])
  /\ ((2 <= rnn_len hyp)%nat -> (0 < N * num_classes hyp)%nat -> run = None).
Proof.
  intros bs ip hyp vars draws cnn_output early_feat encoder_output phase N run
         Hphase Hcnn Hvars Hrz.
  assert (Hshapes : forall r, run = Some r ->
            tshape (pred_boxes r) = [N; 1%nat; 4%nat]
            /\ tshape (pred_confidences r) = [N; rnn_len hyp; num_classes hyp]).
  { intros r Hr. apply decoder_inv in Hr.
    destruct Hr as (logits & conf & _ & _ & _ & Hpc & _ & Hpb & _).
    split; [exact Hpb | rewrite Hpc; reflexivity]. }
  split; [|split].
  - intros Hk.
    destruct (decoder_total bs ip hyp vars draws cnn_output early_feat encoder_output
                            phase Hphase Hcnn Hvars Hk Hrz) as (r & Hr).
    exists r. split; [exact Hr|]. now apply Hshapes.
  - exact Hshapes.
  - intros Hk Hpos. now apply decoder_fails_on_slots.
Qed.

(** The modelled [bilinear_select] gives three indices per box. *)
Lemma select_centers_selects_all : forall hyp,
  rnn_len hyp = 1%nat -> selects_all select_centers hyp 3.
Proof.
  intros hyp Hk pred_boxes early_feat channels wh Hs Hw.
  unfold selects_boxes, select_centers. cbv zeta.
  rewrite reshape_ok by (unfold size; rewrite Hw, Hs, Hk; simpl; lia).
  cbn [bind]. eexists. split; [reflexivity|]. split; [reflexivity | apply wf_tab].
Qed.

(** The example store and feature map serve the rezoom of [hyp_rezoom]. *)
Lemma rezoom_ready_example :
  rezoom_ready select_centers hyp_rezoom vars_example (snd (fst logits_example)).
Proof.
  unfold rezoom_ready. split; [|split; [|split]].
  - exists 1%nat, 1%nat, 1%nat, 1%nat. reflexivity.
  - exists 3%nat. apply select_centers_selects_all. reflexivity.
  - discriminate.
  - unfold rezoom_variables, has_variable. repeat split; intros; eexists; split; reflexivity.
Defined.

(** The example store holds the variables of the plain decoder. *)
Lemma decoder_variables_example : forall hyp,
  cnn_channels hyp = 1%nat -> lstm_size hyp = 1%nat -> num_classes hyp = 2%nat ->
  decoder_variables hyp vars_example.
Proof.
  intros hyp H1 H2 H3. unfold decoder_variables, has_variable.
  rewrite H1, H2, H3. repeat split; eexists; split; reflexivity.
Defined.

(** The claim as stated fails for [rnn_len = 2]: on features and variables of
    the right sizes the decoder returns nothing. *)
Lemma decoder_refuses_two_slots :
  (rnn_len hyp_two_slots >= 1)%nat
  /\ decoder_variables hyp_two_slots vars_example
  /\ size (fst (fst logits_example)) = 1%nat
  /\ decoder select_centers interp_bilinear hyp_two_slots vars_example draws_keep_all
             logits_example "train" = None.
Proof.
  split; [simpl; lia|].
  split; [now apply decoder_variables_example|].
  split; [reflexivity|].
  apply (decoder_fails_on_slots select_centers interp_bilinear hyp_two_slots
           vars_example draws_keep_all (Tensor [1; 1; 1; 1]%nat [1])
           (Tensor [1; 1; 1; 1]%nat [5]) (Tensor [1]%nat [0]) "train"); simpl; lia.
Qed.

(** The decoder with rezoom on one cell: it returns, with one box and one
    confidence row of two classes. *)
Lemma decoder_output_shapes_witness :
  exists r,
    decoder select_centers interp_bilinear hyp_rezoom vars_example draws_keep_all
            logits_example "val" = Some r
    /\ tshape (pred_boxes r) = [1; 1; 4]%nat
    /\ tshape (pred_confidences r) = [1; 1; 2]%nat.
Proof.
  refine (proj1 (decoder_output_shapes select_centers interp_bilinear hyp_rezoom
                   vars_example draws_keep_all (Tensor [1; 1; 1; 1]%nat [1])
                   (Tensor [1; 1; 1; 1]%nat [5]) (Tensor [1]%nat [0]) "val"
                   (or_intror eq_refl) eq_refl
                   (decoder_variables_example hyp_rezoom eq_refl eq_refl eq_refl)
                   (fun _ => rezoom_ready_example))
                eq_refl).
Defined.

(** ** The confidences do not depend on the rezoom *)

Section DecoderFrame.

Variable bilinear_select :
  hypes -> tensor R -> tensor R -> nat -> R -> R -> option (tensor R).
Variable interp_point : tensor R -> list R -> nat -> R.
Variable hyp : hypes.
Variable vars : var_store.
Variable draws : dropout_draws.
Variables cnn_output early_feat encoder_output : tensor R.
Variable phase : string.

(** What [decoder] computes before the rezoom, as a function of the fields
    other than [use_rezoom] and [reregress]. *)
Lemma decoder_prefix : forall rezoom rereg r,
  decoder bilinear_select interp_point (set_rezoom rezoom rereg hyp) vars draws
          (cnn_output, early_feat, encoder_output) phase = Some r ->
  exists r0,
    decoder bilinear_select interp_point (set_rezoom false false hyp) vars draws
            (cnn_output, early_feat, encoder_output) phase = Some r0
    /\ pred_boxes r = pred_boxes r0
    /\ pred_logits r = pred_logits r0
    /\ pred_confidences r = pred_confidences r0.
Proof.
  intros rezoom rereg r H. unfold decoder in *. cbv zeta in *.
  change (_build_yolo_fc_layer (set_rezoom rezoom rereg hyp))
    with (_build_yolo_fc_layer hyp) in H.
  change (_build_yolo_fc_layer (set_rezoom false false hyp))
    with (_build_yolo_fc_layer hyp).
  cbn [set_rezoom grid_width grid_height batch_size rnn_len num_classes cnn_channels
       lstm_size use_rezoom] in *.
  peel1 H reuse Hre. peel1 H cnn Hcnn. peel1 H raw Hraw.
  peel1 H box_weights Hbw. peel1 H conf_weights Hcw. peel1 H box_ip Hbi.
  peel1 H pred_box Hpb. peel1 H conf_ip Hci. peel1 H logits Hlg.
  peel1 H conf Hsm. peel1 H confr Hcr. peel1 H deltas Hdl.
  destruct deltas as [cd bd]. injection H as <-.
  rewrite Hre. cbn [bind]. rewrite Hcnn. cbn [bind]. rewrite Hraw. cbn [bind].
  rewrite Hbw. cbn [bind]. rewrite Hcw. cbn [bind]. rewrite Hbi. cbn [bind].
  rewrite Hpb. cbn [bind]. rewrite Hci. cbn [bind]. rewrite Hlg. cbn [bind].
  rewrite Hsm. cbn [bind]. rewrite Hcr. cbn [bind].
  eexists. split; [reflexivity|]. repeat split.
Qed.

End DecoderFrame.

Lemma set_rezoom_same : forall hyp, set_rezoom (use_rezoom hyp) (reregress hyp) hyp = hyp.
Proof. intros []. reflexivity. Qed.

(** C9. The [pred_confidences] returned by [decoder] are the softmax of the
    base [pred_logits], reshaped to [(outer_size, rnn_len, num_classes)], and
    are the same whatever [use_rezoom] and [reregress] are: [apply_rezoom]
    returns its two deltas only, and its result does not depend on the
    confidences it is given. *)
Theorem pred_confidences_ignore_rezoom :
  forall bilinear_select interp_point hyp vars draws cnn_output early_feat
         encoder_output phase r,
  decoder bilinear_select interp_point hyp vars draws
          (cnn_output, early_feat, encoder_output) phase = Some r ->
  (exists conf,
     softmax (pred_logits r) = Some conf
     /\ reshape conf [outer_size_of hyp; rnn_len hyp; num_classes hyp]
        = Some (pred_confidences r))
  /\ (exists r0,
        decoder bilinear_select interp_point (set_rezoom false false hyp) vars draws
                (cnn_output, early_feat, encoder_output) phase = Some r0
        /\ pred_confidences r0 = pred_confidences r)
  /\ (forall rezoom rereg r',
        decoder bilinear_select interp_point (set_rezoom rezoom rereg hyp) vars draws
                (cnn_output, early_feat, encoder_output) phase = Some r' ->
        pred_confidences r' = pred_confidences r)
  /\ (forall early raw_output pred_box confidences1 confidences2,
        apply_rezoom bilinear_select interp_point hyp vars draws phase early
                     raw_output pred_box confidences1
        = apply_rezoom bilinear_select interp_point hyp vars draws phase early
                       raw_output pred_box confidences2).
Proof.
  intros bs ip hyp vars draws cnn_output early_feat encoder_output phase r H.
  split; [|split; [|split]].
  - apply decoder_inv in H.
    destruct H as (logits & conf & Hsm & Hls & Hpl & Hpc & Hsz & _).
    exists conf. rewrite Hpl. split; [exact Hsm|].
    rewrite Hpc. apply reshape_ok.
    apply softmax_Some in Hsm. destruct Hsm as (n & c & Hs & _ & Hsize).
    rewrite Hls in Hs. injection Hs as <- <-. rewrite Hsize. simpl. lia.
  - rewrite <- (set_rezoom_same hyp) in H.
    destruct (decoder_prefix bs ip hyp vars draws cnn_output early_feat encoder_output
                phase _ _ r H) as (r0 & Hr0 & _ & _ & Hc).
    exists r0. split; [exact Hr0 | now symmetry].
  - intros rezoom rereg r' H'.
    rewrite <- (set_rezoom_same hyp) in H.
    destruct (decoder_prefix bs ip hyp vars draws cnn_output early_feat encoder_output
                phase _ _ r H) as (r0 & Hr0 & _ & _ & Hc).
    destruct (decoder_prefix bs ip hyp vars draws cnn_output early_feat encoder_output
                phase _ _ r' H') as (r0' & Hr0' & _ & _ & Hc').
    rewrite Hr0 in Hr0'. injection Hr0' as <-. congruence.
  - reflexivity.
Qed.

(** On one cell, the decoder with rezoom and the decoder without return the
    same confidences. *)
Lemma pred_confidences_ignore_rezoom_witness :
  exists r r0,
    decoder select_centers interp_bilinear hyp_rezoom vars_example draws_keep_all
            logits_example "train" = Some r
    /\ decoder select_centers interp_bilinear (set_rezoom false false hyp_rezoom)
               vars_example draws_keep_all logits_example "train" = Some r0
    /\ pred_confidences r0 = pred_confidences r.
Proof.
  destruct (decoder_total select_centers interp_bilinear hyp_rezoom vars_example
              draws_keep_all (Tensor [1; 1; 1; 1]%nat [1]) (Tensor [1; 1; 1; 1]%nat [5])
              (Tensor [1]%nat [0]) "train" (or_introl eq_refl) eq_refl
              (decoder_variables_example hyp_rezoom eq_refl eq_refl eq_refl) eq_refl
              (fun _ => rezoom_ready_example)) as (r & Hr).
  destruct (pred_confidences_ignore_rezoom _ _ _ _ _ _ _ _ _ r Hr)
    as (_ & (r0 & Hr0 & Hc) & _).
  exists r, r0. split; [exact Hr|]. split; [exact Hr0 | exact Hc].
Defined.

(** ** Determinism of the val accuracy *)

(** In phase ['val'] no dropout is applied: the decoder ignores the draws. *)
Lemma decoder_val_ignores_draws :
  forall bilinear_select interp_point hyp vars draws1 draws2 logits,
  decoder bilinear_select interp_point hyp vars draws1 logits "val"
  = decoder bilinear_select interp_point hyp vars draws2 logits "val".
Proof.
  intros bs ip hyp vars draws1 draws2 [[cnn_output early_feat] encoder_output].
  reflexivity.
Qed.

(** The accuracies returned by [evaluation] depend on the labels and the
    decoded outputs only. *)
Lemma evaluation_accuracy_inputs :
  forall hyp images labels decoded losses1 losses2 step1 step2 shadow1 shadow2,
  option_map fst (evaluation hyp images labels decoded losses1 step1 shadow1)
  = option_map fst (evaluation hyp images labels decoded losses2 step2 shadow2).
Proof.
  intros hyp images labels decoded losses1 losses2 step1 step2 shadow1 shadow2.
  unfold evaluation.
  destruct (phase_accuracy hyp (on_train labels) (on_train decoded)); [|reflexivity].
  destruct (phase_accuracy hyp (on_val labels) (on_val decoded)); [|reflexivity].
  cbn [bind].
  destruct (on_train losses1) as [[? ?] ?], (on_val losses1) as [[? ?] ?],
           (on_train losses2) as [[? ?] ?], (on_val losses2) as [[? ?] ?].
  reflexivity.
Qed.

(** C10. For fixed inputs, labels and decoded train outputs, two evaluations
    of the val accuracy give the same value, whatever the dropout draws, the
    losses, the global step and the moving-average state of each: the
    accuracy is a function of the labels and the val forward pass, and the
    val forward pass applies no dropout. *)
Theorem val_accuracy_deterministic :
  forall bilinear_select interp_point hyp vars logits images labels decoded_train
         draws1 draws2 losses1 losses2 step1 step2 shadow1 shadow2,
  val_accuracy bilinear_select interp_point hyp vars draws1 logits images labels
               decoded_train losses1 step1 shadow1
  = val_accuracy bilinear_select interp_point hyp vars draws2 logits images labels
                 decoded_train losses2 step2 shadow2.
Proof.
  intros bs ip hyp vars logits images labels decoded_train draws1 draws2
         losses1 losses2 step1 step2 shadow1 shadow2.
  unfold val_accuracy.
  rewrite (decoder_val_ignores_draws bs ip hyp vars draws1 draws2 logits).
  destruct (decoder bs ip hyp vars draws2 logits "val") as [dv|]; [|reflexivity].
  cbn [bind].
  pose proof (evaluation_accuracy_inputs hyp images labels
                {| on_train := decoded_train; on_val := dv |}
                losses1 losses2 step1 step2 shadow1 shadow2) as He.
  destruct (evaluation hyp images labels _ losses1 step1 shadow1) as [[a1 s1]|],
           (evaluation hyp images labels _ losses2 step2 shadow2) as [[a2 s2]|];
    simpl in He; try discriminate; [|reflexivity].
  injection He as <-. reflexivity.
Qed.

(** The accuracy on one cell: 1 when the predicted class is the labelled
    one, 0 when it is not (a tie goes to the first class). *)
Example accuracy_agrees :
  phase_accuracy hyp_single labels_present decoded_confident = Some (1 / INR 1)
  /\ phase_accuracy hyp_single labels_present decoded_plain = Some (0 / INR 1).
Proof.
  split; reval; unfold Rdiv; f_equal; lra.
Qed.

(** In phase ['train'] the forward pass does depend on the dropout draws. *)
Example train_depends_on_draws :
  option_map pred_boxes
    (decoder select_centers interp_bilinear hyp_single vars_example draws_keep_all
             logits_example "train")
  <> option_map pred_boxes
       (decoder select_centers interp_bilinear hyp_single vars_example draws_drop_all
                logits_example "train").
Proof.
  reval. intros H. injection H as H _. lra.
Qed.

(** On one cell with the single offset pair [(0, 0)], the rezoom features of
    the cell are the bilinear sample at the predicted centre. *)
Lemma rezoom_rows_in_offset_order_witness :
  exists out,
    _rezoom select_centers interp_bilinear hyp_rezoom (pred_boxes decoded_rezoom)
            (snd (fst logits_example)) 1 [0] [0] = Some out
    /\ row_of 1 out 0
       = box_samples select_centers interp_bilinear hyp_rezoom
                     (pred_boxes decoded_rezoom) (snd (fst logits_example)) 1 0 (0, 0).
Proof.
  destruct (rezoom_rows_in_offset_order select_centers interp_bilinear hyp_rezoom
              (pred_boxes decoded_rezoom) (snd (fst logits_example)) 1 3 [0] [0])
    as (out & Hout & _ & _ & Hcentre).
  - intros wh _. apply select_centers_selects_all; reflexivity.
  - discriminate.
  - exists out. split; [exact Hout|].
    exact (Hcentre eq_refl eq_refl 0%nat 0%nat Nat.lt_0_1 Nat.lt_0_1).
Defined.

(** * Further properties of the code *)

(** ** The accuracy *)

Lemma rsum_b2r_bounds : forall (l : list bool),
  0 <= rsum (map b2r l) <= INR (length l).
Proof.
  induction l as [|b l IH].
  - simpl. lra.
  - cbn [map rsum fold_right length]. unfold rsum in IH. rewrite S_INR.
    destruct b; simpl; lra.
Qed.

Lemma mean_b2r_bounds : forall (t : tensor bool),
  0 <= reduce_mean (tmap b2r t) <= 1.
Proof.
  intros t. unfold reduce_mean. rewrite size_tmap. unfold size, tmap. cbn [tdata].
  pose proof (rsum_b2r_bounds (tdata t)) as [H0 H1].
  destruct (length (tdata t)) as [|n] eqn:E.
  - simpl. unfold Rdiv. rewrite Rinv_0. lra.
  - assert (Hp : 0 < INR (S n)) by (apply lt_0_INR; lia).
    split.
    + apply Rle_mult_inv_pos; assumption.
    + apply (Rmult_le_reg_r (INR (S n))); [exact Hp|].
      unfold Rdiv. rewrite Rmult_assoc, Rinv_l by lra. lra.
Qed.

(** The accuracy is the mean of the agreement indicator over the cells. *)
Lemma phase_accuracy_mean :
  forall hyp labels decoded a,
  phase_accuracy hyp labels decoded = Some a ->
  exists agree : tensor bool, a = reduce_mean (tmap b2r agree).
Proof.
  intros hyp [[flags confidences] boxes] decoded a H.
  unfold phase_accuracy in H. cbv zeta in H.
  peel1 H pcr Hpcr. peel1 H pbr Hpbr. peel1 H t0 Ht0. peel1 H ta Hta.
  peel1 H p0 Hp0. peel1 H pa Hpa. peel1 H agree Hag.
  injection H as <-. now exists agree.
Qed.

(** X1. Whatever the labels and the decoded outputs, an accuracy computed
    by [evaluation] for a phase lies between 0 and 1. *)
Theorem accuracy_in_unit_interval :
  forall hyp labels decoded a,
  phase_accuracy hyp labels decoded = Some a -> 0 <= a <= 1.
Proof.
  intros hyp labels decoded a H.
  apply phase_accuracy_mean in H. destruct H as [agree ->].
  apply mean_b2r_bounds.
Qed.

(** The accuracy of [decoded_confident] on [labels_present] exists. *)
Lemma accuracy_in_unit_interval_witness :
  exists a, phase_accuracy hyp_single labels_present decoded_confident = Some a
            /\ 0 <= a <= 1.
Proof.
  eassert (E : phase_accuracy hyp_single labels_present decoded_confident = Some _)
    by (reval; reflexivity).
  eexists. split; [exact E|].
  exact (accuracy_in_unit_interval _ _ _ _ E).
Defined.

Lemma rsum_all_ones : forall {A} (f : A -> R) (l : list A),
  (forall x, In x l -> f x = 1) -> rsum (map f l) = INR (length l).
Proof.
  intros A f l H. induction l as [|x l IH].
  - reflexivity.
  - cbn [map length]. rewrite S_INR. unfold rsum in *. cbn [fold_right].
    rewrite IH by (intros y Hy; apply H; now right).
    rewrite (H x) by now left. lra.
Qed.

(** X2. When the predicted confidences are the labelled confidences, every
    cell agrees and the accuracy of a non-empty batch is 1. *)
Theorem accuracy_of_perfect_prediction :
  forall hyp flags confidences boxes decoded,
  let G := (grid_width hyp * grid_height hyp)%nat in
  tshape confidences = [batch_size hyp; G; rnn_len hyp; num_classes hyp] ->
  wf confidences ->
  tdata (pred_confidences decoded) = tdata confidences ->
  size (pred_boxes decoded) = (batch_size hyp * G * rnn_len hyp * 4)%nat ->
  (0 < rnn_len hyp)%nat ->
  (0 < batch_size hyp * G)%nat ->
  phase_accuracy hyp (flags, confidences, boxes) decoded = Some 1.
Proof.
  intros hyp flags [cs cd] boxes decoded G Hs Hw Hd Hb Hk Hpos.
  cbn [tshape tdata] in *. subst cs. unfold wf in Hw. cbn [tshape tdata] in Hw.
  unfold phase_accuracy. cbv zeta. fold G.
  rewrite reshape_ok by (unfold size; rewrite Hd, Hw; reflexivity).
  cbn [bind]. rewrite Hd.
  rewrite reshape_ok by (rewrite Hb; simpl; lia).
  cbn [bind]. unfold select_slot. cbn [tshape].
  destruct (Nat.ltb_spec 0 (rnn_len hyp)) as [_|]; [|lia].
  cbn [bind]. unfold argmax_axis2. cbn [tshape tab bind].
  unfold bop. cbn [tshape tab]. rewrite bshape2 by (unfold compat; auto).
  rewrite !bdim_same. cbn [bind]. f_equal.
  unfold reduce_mean. rewrite size_tmap, size_tab.
  unfold tmap, tab. cbn [tdata]. rewrite map_map.
  rewrite rsum_all_ones.
  - rewrite length_seq. apply Rdiv_diag.
    apply not_0_INR. simpl. lia.
  - intros j _. now rewrite Nat.eqb_refl.
Qed.

(** On one cell, confidences equal to the labels give accuracy 1. *)
Lemma accuracy_of_perfect_prediction_witness :
  phase_accuracy hyp_single labels_present
    {| pred_boxes := Tensor [1; 1; 4]%nat [0; 0; 2; 2];
       pred_logits := Tensor [1; 2]%nat [0; 1];
       pred_confidences := Tensor [1; 1; 2]%nat [0; 1];
       pred_confs_deltas := None;
       pred_boxes_deltas := None |} = Some 1.
Proof.
  apply (accuracy_of_perfect_prediction hyp_single);
    try reflexivity; simpl; lia.
Defined.

(** ** The moving average *)

(** X3. [smooth_op] moves the shadow of each accuracy a twentieth of the way
    to the new accuracy, [0.95 * shadow + 0.05 * accuracy], so that a shadow
    between 0 and 1 stays between 0 and 1. *)
Theorem smoothed_accuracy_stays_in_unit_interval :
  forall hyp images labels decoded losses global_step shadow acc smooth,
  evaluation hyp images labels decoded losses global_step shadow = Some (acc, smooth) ->
  length shadow = 6%nat ->
  length smooth = 6%nat
  /\ nth 0 smooth 0 = 0.95 * nth 0 shadow 0 + 0.05 * on_train acc
  /\ nth 1 smooth 0 = 0.95 * nth 1 shadow 0 + 0.05 * on_val acc
  /\ (0 <= nth 0 shadow 0 <= 1 -> 0 <= nth 0 smooth 0 <= 1)
  /\ (0 <= nth 1 shadow 0 <= 1 -> 0 <= nth 1 smooth 0 <= 1).
Proof.
  intros hyp images labels decoded losses global_step shadow acc smooth H Hlen.
  unfold evaluation in H.
  peel1 H at_ Hat. peel1 H av Hav.
  assert (Bt : 0 <= at_ <= 1)
    by (apply phase_accuracy_mean in Hat; destruct Hat as [g ->];
        apply mean_b2r_bounds).
  assert (Bv : 0 <= av <= 1)
    by (apply phase_accuracy_mean in Hav; destruct Hav as [g ->];
        apply mean_b2r_bounds).
  destruct (on_train losses) as [[lt ct] bt], (on_val losses) as [[lv cv] bv].
  injection H as <- <-. cbn [on_train on_val].
  destruct shadow as [|s0 [|s1 [|s2 [|s3 [|s4 [|s5 [|? ?]]]]]]]; try discriminate.
  unfold moving_avg_apply. cbn [combine map length nth fst snd].
  repeat split; try lra.
Qed.

(** One step of smoothing from shadows at zero. *)
Lemma smoothed_accuracy_stays_in_unit_interval_witness :
  exists acc smooth,
    evaluation hyp_single
      {| on_train := Tensor [1]%nat [0]; on_val := Tensor [1]%nat [0] |}
      {| on_train := labels_present; on_val := labels_present |}
      {| on_train := decoded_confident; on_val := decoded_plain |}
      {| on_train := (0, 0, 0); on_val := (0, 0, 0) |} 0 [0; 0; 0; 0; 0; 0]
    = Some (acc, smooth)
    /\ length smooth = 6%nat.
Proof.
  eassert (E : evaluation hyp_single
                 {| on_train := Tensor [1]%nat [0]; on_val := Tensor [1]%nat [0] |}
                 {| on_train := labels_present; on_val := labels_present |}
                 {| on_train := decoded_confident; on_val := decoded_plain |}
                 {| on_train := (0, 0, 0); on_val := (0, 0, 0) |} 0 [0; 0; 0; 0; 0; 0]
               = Some (_, _))
    by (reval; reflexivity).
  eexists _, _. split; [exact E|].
  exact (proj1 (smoothed_accuracy_stays_in_unit_interval _ _ _ _ _ _ _ _ _ E eq_refl)).
Defined.

(** ** The image files *)

Lemma fmt_d_digit_pred_true : forall i j,
  (i < 10)%nat -> (j < 10)%nat ->
  (fmt_d i ++ "_" ++ "pred" ++ ".jpg")%string
  <> (fmt_d j ++ "_" ++ "true" ++ ".jpg")%string.
Proof.
  intros i j Hi Hj.
  do 10 (destruct i as [|i]; [do 10 (destruct j as [|j]; [discriminate|]); lia|]).
  lia.
Qed.

(** X4. The image files cycle through ten names: the file written at a step
    is written again [10 * display_iter] steps later, every step of one
    display interval writes the same file, and ten successive intervals
    write ten different files. *)
Theorem log_image_filename_cycle :
  forall display_iter step step' pred_or_true,
  (0 < display_iter)%nat ->
  log_image_filename display_iter (step + 10 * display_iter) pred_or_true
  = log_image_filename display_iter step pred_or_true
  /\ ((step / display_iter = step' / display_iter)%nat ->
      log_image_filename display_iter step pred_or_true
      = log_image_filename display_iter step' pred_or_true)
  /\ ((step / display_iter < step' / display_iter < step / display_iter + 10)%nat ->
      log_image_filename display_iter step pred_or_true
      <> log_image_filename display_iter step' pred_or_true).
Proof.
  intros d step step' p Hd. unfold log_image_filename. cbv zeta.
  split; [|split].
  - rewrite Nat.div_add by lia.
    replace (step / d + 10)%nat with (step / d + 1 * 10)%nat by lia.
    now rewrite Nat.Div0.mod_add.
  - intros ->. reflexivity.
  - intros Hlt Heq.
    set (a := (step / d)%nat) in *. set (b := (step' / d)%nat) in *.
    assert (Hmod : (a mod 10 <> b mod 10)%nat).
    { intro E.
      pose proof (Nat.div_mod_eq a 10). pose proof (Nat.div_mod_eq b 10).
      assert ((b / 10 = a / 10 \/ b / 10 = a / 10 + 1)%nat) as [Hq | Hq].
      { pose proof (Nat.mod_upper_bound a 10 ltac:(lia)).
        pose proof (Nat.mod_upper_bound b 10 ltac:(lia)). lia. }
      - lia.
      - lia. }
    pose proof (Nat.mod_upper_bound a 10 ltac:(lia)) as Ha.
    pose proof (Nat.mod_upper_bound b 10 ltac:(lia)) as Hb.
    revert Heq Hmod. generalize (a mod 10)%nat (b mod 10)%nat Ha Hb.
    intros i j Hi Hj Heq Hne. apply Hne. clear Hne.
    do 10 (destruct i as [|i];
           [do 10 (destruct j as [|j]; [first [reflexivity | discriminate]|]); lia|]).
    lia.
Qed.

(** With a display interval of 5 steps, step 57 writes the file of step 7. *)
Lemma log_image_filename_cycle_witness :
  log_image_filename 5 (7 + 10 * 5) "pred" = log_image_filename 5 7 "pred".
Proof.
  exact (proj1 (log_image_filename_cycle 5 7 7 "pred" ltac:(lia))).
Defined.

(** X5. The file of the predicted boxes is never the file of the
    ground-truth boxes, whatever the steps at which the two are written. *)
Theorem log_image_pred_true_distinct :
  forall display_iter step step',
  (0 < display_iter)%nat ->
  log_image_filename display_iter step "pred"
  <> log_image_filename display_iter step' "true".
Proof.
  intros d step step' _. unfold log_image_filename. cbv zeta.
  apply fmt_d_digit_pred_true; apply Nat.mod_upper_bound; lia.
Qed.

(** The two files of step 7 with a display interval of 5 steps. *)
Lemma log_image_pred_true_distinct_witness :
  log_image_filename 5 7 "pred" <> log_image_filename 5 7 "true".
Proof.
  exact (log_image_pred_true_distinct 5 7 7 ltac:(lia)).
Defined.

(** ** The ['losses'] collection *)

(** What a call of [loss] adds to the collection. *)
Lemma loss_registers :
  forall hungarian to_x1y1x2y2_box iou_box hypes decoded labels phase losses
         losses' total conf boxl,
  loss hungarian to_x1y1x2y2_box iou_box hypes decoded labels phase losses
  = Some (losses', (total, conf, boxl)) ->
  exists own,
    losses' = losses ++ [own] /\ total = rsum losses + own
    /\ (use_rezoom hypes = false -> own = conf + boxl).
Proof.
  intros hungarian tb ib hypes decoded [[flags confidences] boxes] phase losses
         losses' total conf boxl H.
  apply loss_inv in H.
  destruct H as (classes & perm_truth & pred_mask & ce & head0 & head1 & masked
                 & diff & _ & _ & _ & _ & _ & _ & _ & _ & _ & _ & _ & Hplain & Hrz).
  destruct (use_rezoom hypes) eqn:E.
  - destruct (Hrz eq_refl) as (inside & deltas & ce2 & _ & _ & _ & Hnr & Hrr).
    destruct (reregress hypes).
    + destruct (Hrr eq_refl) as (? & ? & ? & ? & _ & _ & _ & _ & _ & Hl & Ht & _).
      eexists. split; [exact Hl|]. split; [exact Ht | discriminate].
    + destruct (Hnr eq_refl) as (Hl & Ht & _).
      eexists. split; [exact Hl|]. split; [exact Ht | discriminate].
  - destruct (Hplain eq_refl) as (Hl & Ht & Hb).
    eexists. split; [exact Hl|]. split; [exact Ht|]. intros _. now rewrite Hb.
Qed.

(** X6. The total returned by [loss] sums the whole collection: when [loss]
    is called for one phase and then for the other, the second total is the
    first total plus the loss of the second call, and the collection has
    grown by the two losses in call order. *)
Theorem second_total_contains_first :
  forall hungarian to_x1y1x2y2_box iou_box hypes decoded1 labels1 phase1
         decoded2 labels2 phase2 losses losses1 total1 conf1 boxl1
         losses2 total2 conf2 boxl2,
  loss hungarian to_x1y1x2y2_box iou_box hypes decoded1 labels1 phase1 losses
  = Some (losses1, (total1, conf1, boxl1)) ->
  loss hungarian to_x1y1x2y2_box iou_box hypes decoded2 labels2 phase2 losses1
  = Some (losses2, (total2, conf2, boxl2)) ->
  exists own1 own2,
    losses2 = losses ++ [own1; own2]
    /\ total1 = rsum losses + own1
    /\ total2 = total1 + own2
    /\ (use_rezoom hypes = false -> own1 = conf1 + boxl1 /\ own2 = conf2 + boxl2).
Proof.
  intros hungarian tb ib hypes decoded1 labels1 phase1 decoded2 labels2 phase2
         losses losses1 total1 conf1 boxl1 losses2 total2 conf2 boxl2 H1 H2.
  destruct (loss_registers _ _ _ _ _ _ _ _ _ _ _ _ H1) as (own1 & Hl1 & Ht1 & Ho1).
  destruct (loss_registers _ _ _ _ _ _ _ _ _ _ _ _ H2) as (own2 & Hl2 & Ht2 & Ho2).
  exists own1, own2. subst losses1.
  split; [rewrite Hl2, <- app_assoc; reflexivity|].
  split; [exact Ht1|].
  split; [rewrite Ht2, Ht1, rsum_app; simpl; lra|].
  intros Hrz. split; [now apply Ho1 | now apply Ho2].
Qed.

(** The train call followed by the val call on the example inputs. *)
Lemma second_total_contains_first_witness :
  exists l1 t1 c1 b1 l2 t2 c2 b2,
    loss hungarian_unavailable corner_box iou_of_boxes hyp_single
         decoded_plain labels_absent "train" [] = Some (l1, (t1, c1, b1))
    /\ loss hungarian_unavailable corner_box iou_of_boxes hyp_single
            decoded_confident labels_present "val" l1 = Some (l2, (t2, c2, b2))
    /\ t2 = t1 + (c2 + b2).
Proof.
  eassert (E1 : loss hungarian_unavailable corner_box iou_of_boxes hyp_single
                     decoded_plain labels_absent "train" [] = Some (_, (_, _, _)))
    by (reval; reflexivity).
  match type of E1 with
  | _ = Some (?l1, _) =>
      eassert (E2 : loss hungarian_unavailable corner_box iou_of_boxes hyp_single
                         decoded_confident labels_present "val" l1
                    = Some (_, (_, _, _)))
        by (reval; reflexivity)
  end.
  destruct (second_total_contains_first _ _ _ _ _ _ _ _ _ _ _ _ _ _ _ _ _ _ _ E1 E2)
    as (own1 & own2 & _ & _ & Ht & Ho).
  destruct (Ho eq_refl) as [_ Ho2].
  match type of E1 with
  | _ = Some (?l1, (?t1, ?c1, ?b1)) =>
      match type of E2 with
      | _ = Some (?l2, (?t2, ?c2, ?b2)) => exists l1, t1, c1, b1, l2, t2, c2, b2
      end
  end.
  split; [exact E1|]. split; [exact E2|].
  rewrite Ho2 in Ht. exact Ht.
Defined.

(** ** What a successful [loss] requires *)

Lemma phase_reuse_Some : forall phase reuse,
  phase_reuse phase = Some reuse -> phase = "train"%string \/ phase = "val"%string.
Proof.
  intros phase reuse H. unfold phase_reuse in H.
  destruct (String.eqb_spec phase "train") as [E|_]; [now left|].
  destruct (String.eqb_spec phase "val") as [E|_]; [now right | discriminate].
Qed.

(** X7. A call of [loss] that returns has been given a known phase, labels
    of [outer_size * rnn_len] flags and as many boxes of four coordinates,
    one row of [num_classes] logits per slot and two head weights; with
    [use_lstm] the Hungarian primitive has answered, and with [use_rezoom]
    the decoder has supplied the delta confidences (with [reregress] also
    the delta boxes). *)
Theorem loss_requirements :
  forall hungarian to_x1y1x2y2_box iou_box hypes decoded flags confidences boxes
         phase losses r,
  let N := outer_size_of hypes in
  let K := rnn_len hypes in
  loss hungarian to_x1y1x2y2_box iou_box hypes decoded (flags, confidences, boxes)
       phase losses = Some r ->
  (phase = "train"%string \/ phase = "val"%string)
  /\ size flags = (N * K)%nat
  /\ size boxes = (N * K * 4)%nat
  /\ size (pred_logits decoded) = (N * K * num_classes hypes)%nat
  /\ (2 <= length (head_weights (solver hypes)))%nat
  /\ (use_lstm hypes = true ->
      hungarian (pred_boxes decoded) (Tensor [N; K; 4%nat] (tdata boxes))
                (tmap cast_int32 (Tensor [N; K] (tdata flags)))
                (hungarian_iou (solver hypes)) <> None)
  /\ (use_rezoom hypes = true ->
      pred_confs_deltas decoded <> None
      /\ (reregress hypes = true -> pred_boxes_deltas decoded <> None)).
Proof.
  intros hungarian tb ib hypes decoded flags confidences boxes phase losses
         [losses' [[total conf] boxl]] N K H.
  assert (Hfront : (phase = "train"%string \/ phase = "val"%string)
                   /\ size flags = (N * K)%nat).
  { unfold loss in H. cbv zeta in H. fold (outer_size_of hypes) in H. fold N K in H.
    peel1 H reuse Hre. peel1 H outer_boxes Hob. peel1 H outer_flags Hof.
    apply option_map_Some in Hof. destruct Hof as [oflags [Hof _]].
    apply reshape_Some in Hof. destruct Hof as [_ Hfl]. simpl in Hfl.
    split; [eapply phase_reuse_Some; exact Hre | lia]. }
  destruct Hfront as [Hphase Hflags].
  apply loss_inv in H.
  destruct H as (classes & perm_truth & pred_mask & ce & head0 & head1 & masked
                 & diff & Hbx & Hm & _ & Hpl & _ & _ & Hh1 & _ & _ & _ & _ & _ & Hrz).
  split; [exact Hphase|]. split; [exact Hflags|]. split; [exact Hbx|].
  split; [exact Hpl|].
  split.
  { assert (Hlt : (1 < length (head_weights (solver hypes)))%nat)
      by (apply nth_error_Some; congruence).
    lia. }
  split.
  { intros Hl Hnone. unfold loss_match, match_truth in Hm. rewrite Hl in Hm.
    fold N K in Hm. rewrite Hnone in Hm. discriminate. }
  intros Hz. destruct (Hrz Hz) as (inside & deltas & ce2 & _ & Hd & _ & _ & Hrr).
  split; [congruence|].
  intros Hr. destruct (Hrr Hr) as (pbd & _ & _ & _ & Hp & _). congruence.
Qed.

(** The requirements on the example inputs. *)
Lemma loss_requirements_witness :
  size (fst (fst labels_absent)) = 1%nat /\ size (snd labels_absent) = 4%nat.
Proof.
  eassert (E : loss hungarian_unavailable corner_box iou_of_boxes hyp_single
                    decoded_plain labels_absent "train" [] = Some _)
    by (reval; reflexivity).
  destruct (loss_requirements _ _ _ _ _ _ _ _ _ _ _ E) as (_ & Hf & Hb & _).
  split; [exact Hf | exact Hb].
Defined.

(** X8. Without [use_lstm] the flags are read both as [outer_size * rnn_len]
    flags and as [outer_size] classes: on a non-empty grid [loss] returns
    only when there is one slot per cell. *)
Theorem loss_without_lstm_needs_one_slot :
  forall hungarian to_x1y1x2y2_box iou_box hypes decoded labels phase losses r,
  use_lstm hypes = false ->
  (0 < outer_size_of hypes)%nat ->
  loss hungarian to_x1y1x2y2_box iou_box hypes decoded labels phase losses = Some r ->
  rnn_len hypes = 1%nat.
Proof.
  intros hungarian tb ib hypes decoded [[flags confidences] boxes] phase losses
         [losses' [[total conf] boxl]] Hl HN H.
  apply loss_inv in H.
  destruct H as (classes & perm_truth & pred_mask & ce & head0 & head1 & masked
                 & diff & _ & Hm & Hsc & _).
  unfold loss_match, match_truth in Hm. rewrite Hl in Hm.
  peel1 Hm cl Hcl. peel1 Hm pt Hpt. peel1 Hm pm Hpm. injection Hm as <- _ _.
  apply reshape_Some in Hcl. destruct Hcl as [-> Hfl].
  unfold size in *. cbn [tdata prod] in *. nia.
Qed.

(** The one-slot configuration of the examples. *)
Lemma loss_without_lstm_needs_one_slot_witness : rnn_len hyp_single = 1%nat.
Proof.
  eassert (E : loss hungarian_unavailable corner_box iou_of_boxes hyp_single
                    decoded_plain labels_absent "train" [] = Some _)
    by (reval; reflexivity).
  refine (loss_without_lstm_needs_one_slot hungarian_unavailable corner_box
            iou_of_boxes hyp_single decoded_plain labels_absent "train" [] _
            eq_refl _ E).
  exact Nat.lt_0_1.
Defined.

(** ** The losses of the rezoom branch *)

Lemma rsum_clamped_bounds : forall (l : list R),
  0 <= rsum (map (fun x => Rmin (square x) (10 ^ 2)) l) <= 100 * INR (length l).
Proof.
  induction l as [|x l IH].
  - simpl. lra.
  - cbn [map length]. rewrite S_INR. unfold rsum in *. cbn [fold_right].
    assert (0 <= Rmin (square x) (10 ^ 2) <= 100).
    { split.
      - apply Rmin_glb; [unfold square; nra | lra].
      - eapply Rle_trans; [apply Rmin_r | lra]. }
    lra.
Qed.

(** The targets computed by [rezoom_inside] form a flat tensor of zeros and
    ones. *)
Lemma rezoom_inside_flat :
  forall to_x1y1x2y2_box iou_box hypes classes perm_truth pred_boxes inside,
  rezoom_inside to_x1y1x2y2_box iou_box hypes classes perm_truth pred_boxes
  = Some inside ->
  tshape inside = [size inside]
  /\ Forall (fun z => z = 0%Z \/ z = 1%Z) (tdata inside).
Proof.
  intros tb ib hypes classes perm_truth pred_boxes inside H.
  assert (G : forall {A} (f : A -> bool) (t : tensor A),
             tshape (reshape_flat (tmap (fun x => b2z (f x)) t))
             = [size (reshape_flat (tmap (fun x => b2z (f x)) t))]
             /\ Forall (fun z => z = 0%Z \/ z = 1%Z)
                       (tdata (reshape_flat (tmap (fun x => b2z (f x)) t)))).
  { intros A f t. split; [reflexivity|].
    unfold reshape_flat, tmap. cbn [tdata]. apply Forall_forall.
    intros z Hz. apply in_map_iff in Hz. destruct Hz as [x [<- _]].
    destruct (f x); auto. }
  unfold rezoom_inside in H.
  destruct (rezoom_change_loss hypes) as [s|].
  - destruct (String.eqb s "center").
    + peel1 H truth_xy Hq1. peel1 H pred_xy Hq2. peel1 H diff Hq3.
      peel1 H truth_wh Hq4. peel1 H err Hq5. peel1 H square_error Hq6.
      peel1 H both Hq7. injection H as <-. apply (G bool (fun b => b)).
    + destruct (String.eqb s "iou").
      * peel1 H pf Hq1. peel1 H tf Hq2. peel1 H pc Hq3. peel1 H tc Hq4.
        peel1 H iou_t Hq5. injection H as <-. apply (G R (fun v => Rgtb v 0.5)).
      * peel1 H u Hq1. injection H as <-. apply (G R (fun c => Rgtb c 0)).
  - injection H as <-. apply (G R (fun c => Rgtb c 0)).
Qed.

(** X9. With re-regression the reported box loss is a mean of squares
    clamped to 100: it never exceeds [12 * rnn_len * head_weights[1]],
    however far the corrected boxes are from the ground truth. *)
Theorem reregress_box_loss_bounded :
  forall hungarian to_x1y1x2y2_box iou_box hypes decoded labels phase losses
         losses' total conf boxl head1,
  loss hungarian to_x1y1x2y2_box iou_box hypes decoded labels phase losses
  = Some (losses', (total, conf, boxl)) ->
  use_rezoom hypes = true ->
  reregress hypes = true ->
  nth_error (head_weights (solver hypes)) 1 = Some head1 ->
  0 <= head1 ->
  (0 < outer_size_of hypes)%nat ->
  0 <= boxl <= 12 * INR (rnn_len hypes) * head1.
Proof.
  intros hungarian tb ib hypes decoded [[flags confidences] boxes] phase losses
         losses' total conf boxl head1 H Hrz Hrr Hh1 Hpos HN.
  apply loss_inv in H.
  destruct H as (classes & perm_truth & pred_mask & ce & head0 & head1' & masked
                 & diff & _ & _ & _ & _ & _ & _ & Hh1' & _ & _ & _ & _ & _ & Hz).
  rewrite Hh1 in Hh1'. injection Hh1' as <-.
  destruct (Hz Hrz) as (inside & deltas & ce2 & _ & _ & _ & _ & Hr).
  destruct (Hr Hrr) as (pbd & corrected & unshaped & dmasked & _ & _ & _ & _
                        & Hsz & _ & _ & ->).
  pose proof (rsum_clamped_bounds (tdata dmasked)) as [Hlo Hhi].
  unfold size in Hsz. rewrite Hsz in Hhi. rewrite !mult_INR in Hhi.
  replace (INR 4) with 4 in Hhi by (simpl; lra).
  set (S := rsum (map (fun x => Rmin (square x) (10 ^ 2)) (tdata dmasked))) in *.
  assert (HNR : 0 < INR (outer_size_of hypes)) by (apply lt_0_INR; exact HN).
  assert (HK : 0 <= INR (rnn_len hypes)) by apply pos_INR.
  set (n := INR (outer_size_of hypes)) in *. set (k := INR (rnn_len hypes)) in *.
  assert (Hq0 : 0 <= S / n) by (apply Rle_mult_inv_pos; assumption).
  assert (Hq1 : S / n <= 400 * k).
  { apply (Rmult_le_reg_r n); [exact HNR|].
    unfold Rdiv. rewrite Rmult_assoc, Rinv_l by lra. lra. }
  split; nra.
Qed.

(** The re-regression loss of the example: a clamped square of 100 on one
    coordinate gives [100 * 0.03 = 3], below the bound 12. *)
Lemma reregress_box_loss_bounded_witness :
  exists losses' total conf boxl,
    loss hungarian_unavailable corner_box iou_of_boxes hyp_rezoom decoded_rezoom
         labels_present "train" [] = Some (losses', (total, conf, boxl))
    /\ 0 <= boxl <= 12 * INR (rnn_len hyp_rezoom) * 1.
Proof.
  eassert (E : loss hungarian_unavailable corner_box iou_of_boxes hyp_rezoom
                    decoded_rezoom labels_present "train" []
               = Some (_, (_, _, _))).
  { reval; reflexivity. }
  match type of E with
  | _ = Some (?l, (?t, ?c, ?b)) => exists l, t, c, b
  end.
  split; [exact E|].
  refine (reregress_box_loss_bounded hungarian_unavailable corner_box iou_of_boxes
            hyp_rezoom decoded_rezoom labels_present "train" [] _ _ _ _ 1
            E eq_refl eq_refl eq_refl _ _).
  - lra.
  - exact Nat.lt_0_1.
Defined.

(** X10. With rezoom, non-negative head weights and well-sized delta
    confidences, every part of the loss is non-negative, and the total is at
    least the collection before the call plus the two reported parts: what
    the total holds beyond them (the delta-confidence loss, and with
    re-regression the base box loss) is never negative. *)
Theorem loss_ordering_with_rezoom :
  forall hungarian to_x1y1x2y2_box iou_box hypes decoded labels phase losses
         losses' total conf boxl,
  loss hungarian to_x1y1x2y2_box iou_box hypes decoded labels phase losses
  = Some (losses', (total, conf, boxl)) ->
  use_rezoom hypes = true ->
  (forall deltas, pred_confs_deltas decoded = Some deltas -> wf deltas) ->
  Forall (fun w => 0 <= w) (head_weights (solver hypes)) ->
  0 <= conf /\ 0 <= boxl /\ rsum losses + conf + boxl <= total.
Proof.
  intros hungarian tb ib hypes decoded [[flags confidences] boxes] phase losses
         losses' total conf boxl H Hrz Hwf Hhead.
  apply loss_inv in H.
  destruct H as (classes & perm_truth & pred_mask & ce & head0 & head1 & masked
                 & diff & _ & _ & Hcl & Hpl & Hce & Hh0 & Hh1 & Hconf & _ & _ & _
                 & _ & Hz).
  rewrite Forall_forall in Hhead.
  assert (H0 : 0 <= head0) by (apply Hhead; eapply nth_error_In; exact Hh0).
  assert (H1 : 0 <= head1) by (apply Hhead; eapply nth_error_In; exact Hh1).
  assert (Hc : 0 <= conf).
  { rewrite Hconf. apply Rmult_le_pos; [|exact H0]. apply div_INR_nonneg.
    eapply xent_sum_nonneg; [|exact Hce|].
    - unfold wf. simpl. unfold size in Hpl. lia.
    - unfold wf. simpl. rewrite length_map. unfold size in Hcl. lia. }
  assert (Hbase : 0 <= rsum (map Rabs (tdata diff)) / INR (outer_size_of hypes) * head1).
  { apply Rmult_le_pos; [|exact H1]. apply div_INR_nonneg. apply rsum_abs_nonneg. }
  destruct (Hz Hrz) as (inside & deltas & ce2 & Hin & Hd & Hce2 & Hnr & Hr).
  assert (Hdcl : 0 <= reduce_sum ce2 / INR (outer_size_of hypes) * head0 * 0.1).
  { apply Rmult_le_pos; [|lra]. apply Rmult_le_pos; [|exact H0].
    apply div_INR_nonneg.
    eapply xent_sum_nonneg; [|exact Hce2|].
    - now apply Hwf.
    - apply rezoom_inside_flat in Hin. destruct Hin as [Hs _].
      unfold wf. rewrite Hs. unfold size. simpl. lia. }
  split; [exact Hc|].
  destruct (reregress hypes).
  - destruct (Hr eq_refl) as (pbd & corrected & unshaped & dmasked & _ & _ & _ & _
                              & _ & _ & -> & ->).
    assert (Hdbl : 0 <= rsum (map (fun x => Rmin (square x) (10 ^ 2)) (tdata dmasked))
                        / INR (outer_size_of hypes) * head1 * 0.03).
    { apply Rmult_le_pos; [|lra]. apply Rmult_le_pos; [|exact H1].
      apply div_INR_nonneg. apply rsum_clamped_bounds. }
    split; lra.
  - destruct (Hnr eq_refl) as (_ & -> & ->). split; lra.
Qed.

(** The ordering on the rezoom example. *)
Lemma loss_ordering_with_rezoom_witness :
  exists losses' total conf boxl,
    loss hungarian_unavailable corner_box iou_of_boxes hyp_rezoom decoded_rezoom
         labels_present "train" [] = Some (losses', (total, conf, boxl))
    /\ rsum [] + conf + boxl <= total.
Proof.
  eassert (E : loss hungarian_unavailable corner_box iou_of_boxes hyp_rezoom
                    decoded_rezoom labels_present "train" []
               = Some (_, (_, _, _))).
  { reval; reflexivity. }
  match type of E with
  | _ = Some (?l, (?t, ?c, ?b)) => exists l, t, c, b
  end.
  split; [exact E|].
  refine (proj2 (proj2 (loss_ordering_with_rezoom hungarian_unavailable corner_box
            iou_of_boxes hyp_rezoom decoded_rezoom labels_present "train" []
            _ _ _ _ E eq_refl _ _))).
  - intros deltas Hd. injection Hd as <-. reflexivity.
  - repeat constructor; lra.
Defined.

(** X11. Whatever the policy, the targets of the delta-confidence loss are
    zeros and ones in a flat tensor: with two classes or more none of them
    is out of the range of the class indices. *)
Theorem rezoom_targets_binary :
  forall to_x1y1x2y2_box iou_box hypes classes perm_truth pred_boxes inside,
  rezoom_inside to_x1y1x2y2_box iou_box hypes classes perm_truth pred_boxes
  = Some inside ->
  tshape inside = [size inside]
  /\ Forall (fun z => z = 0%Z \/ z = 1%Z) (tdata inside)
  /\ ((2 <= num_classes hypes)%nat ->
      Forall (fun z => (0 <= z < Z.of_nat (num_classes hypes))%Z) (tdata inside)).
Proof.
  intros tb ib hypes classes perm_truth pred_boxes inside H.
  apply rezoom_inside_flat in H. destruct H as [Hs Hb].
  split; [exact Hs|]. split; [exact Hb|].
  intros HC. eapply Forall_impl; [|exact Hb].
  intros z [-> | ->]; lia.
Qed.

(** The single target of the rezoom example. *)
Lemma rezoom_targets_binary_witness :
  exists inside,
    rezoom_inside corner_box iou_of_boxes hyp_rezoom
                  (Tensor [1; 1]%nat [1]) (Tensor [1; 1; 4]%nat [0; 0; 2; 2])
                  (pred_boxes decoded_rezoom) = Some inside
    /\ Forall (fun z => z = 0%Z \/ z = 1%Z) (tdata inside).
Proof.
  eassert (E : rezoom_inside corner_box iou_of_boxes hyp_rezoom
                 (Tensor [1; 1]%nat [1]) (Tensor [1; 1; 4]%nat [0; 0; 2; 2])
                 (pred_boxes decoded_rezoom) = Some _)
    by (rcbv; reflexivity).
  eexists. split; [exact E|].
  exact (proj1 (proj2 (rezoom_targets_binary _ _ _ _ _ _ _ E))).
Defined.

(** ** The base box loss on labels whose empty cells carry a zero box *)

(** X12. Without the Hungarian matcher and without rezoom, when the labels
    give the zero box to every cell without object, the box loss is the L1
    distance between ground truth and prediction over the cells that hold
    an object, divided by [outer_size] and weighted by [head_weights[1]]:
    the cells without object add nothing. *)
Theorem base_box_loss_is_masked_l1 :
  forall hungarian to_x1y1x2y2_box iou_box hypes decoded flags confidences boxes
         phase losses losses' total conf boxl head1,
  loss hungarian to_x1y1x2y2_box iou_box hypes decoded (flags, confidences, boxes)
       phase losses = Some (losses', (total, conf, boxl)) ->
  use_lstm hypes = false ->
  use_rezoom hypes = false ->
  rnn_len hypes = 1%nat ->
  tshape (pred_boxes decoded) = [outer_size_of hypes; 1%nat; 4%nat] ->
  nth_error (head_weights (solver hypes)) 1 = Some head1 ->
  (forall i c, (i < outer_size_of hypes)%nat -> (c < 4)%nat ->
     ~ 0 < nth i (tdata flags) 0 -> nth (i * 4 + c) (tdata boxes) 0 = 0) ->
  boxl = masked_l1_spec hypes flags boxes (pred_boxes decoded) head1.
Proof.
  intros hungarian tb ib hypes decoded flags confidences boxes phase losses
         losses' total conf boxl head1 H Hl Hrz HK Hpb Hh1 Hzero.
  pose proof H as H'. apply loss_inv in H'.
  destruct H' as (classes & perm_truth & pred_mask & ce & head0 & head1' & masked
                  & diff & _ & Hm & _).
  pose proof Hm as Hm'.
  unfold loss_match, match_truth in Hm'. rewrite Hl in Hm'.
  peel1 Hm' cl Hcl. peel1 Hm' pt Hpt. peel1 Hm' pm Hpm.
  injection Hm' as <- <- <-.
  apply reshape_Some in Hcl. destruct Hcl as [-> Hfl].
  apply reshape_Some in Hpt. destruct Hpt as [-> _].
  apply reshape_Some in Hpm. destruct Hpm as [-> _].
  cbn [tdata tmap] in *.
  rewrite (base_boxes_loss_formula _ _ _ _ _ _ _ _ _ _ _ _ _ _ _ _ _ _
             H Hrz Hm
             ltac:(unfold box_shapes; rewrite HK; cbn [tshape]; auto) Hh1).
  unfold base_boxes_loss_spec, masked_l1_spec. f_equal. f_equal.
  apply sum_n_ext. intros i Hi. rewrite HK.
  unfold sum_n at 1. cbn [seq map]. unfold rsum at 1. cbn [fold_right].
  rewrite Rplus_0_r.
  set (N := outer_size_of hypes) in *.
  unfold size in Hfl. cbn [prod] in Hfl.
  assert (Hmask : get 0 (Tensor [N; 1%nat; 1%nat]
                                (map (fun c => b2r (Rgtb c 0)) (tdata flags)))
                      [i; 0%nat; 0%nat]
                  = b2r (Rgtb (nth i (tdata flags) 0) 0)).
  { unfold get. cbn [tshape tdata ravel prod].
    replace (i * (1 * (1 * 1)) + (0 * (1 * 1) + (0 * 1 + 0)))%nat with i by lia.
    apply (nth_map_in (fun c => b2r (Rgtb c 0))). lia. }
  rewrite Hmask.
  assert (Hbox : forall c, get 0 (Tensor [N; 1%nat; 4%nat] (tdata boxes)) [i; 0%nat; c]
                           = nth (i * 4 + c) (tdata boxes) 0).
  { intros c. unfold get. cbn [tshape tdata ravel prod]. f_equal. lia. }
  destruct (Rgtb (nth i (tdata flags) 0) 0) eqn:Ef.
  - apply sum_n_ext. intros c Hc. rewrite Hbox. cbn [b2r]. f_equal. lra.
  - assert (Hn : ~ 0 < nth i (tdata flags) 0).
    { intros Hp. apply (Rgtb_true _ 0) in Hp. congruence. }
    transitivity (sum_n 4 (fun _ => 0)).
    + apply sum_n_ext. intros c Hc. rewrite Hbox, (Hzero i c Hi Hc Hn).
      cbn [b2r]. rewrite Rmult_0_r, Rminus_0_r. apply Rabs_R0.
    + unfold sum_n, rsum. simpl. lra.
Qed.

(** A cell with an object: the condition on the empty cells holds for want
    of any. *)
Lemma base_box_loss_is_masked_l1_witness :
  exists losses' total conf boxl,
    loss hungarian_unavailable corner_box iou_of_boxes hyp_single decoded_plain
         labels_present "train" [] = Some (losses', (total, conf, boxl))
    /\ boxl = masked_l1_spec hyp_single (fst (fst labels_present))
                (snd labels_present) (pred_boxes decoded_plain) 1.
Proof.
  eassert (E : loss hungarian_unavailable corner_box iou_of_boxes hyp_single
                    decoded_plain labels_present "train" [] = Some (_, (_, _, _)))
    by (reval; reflexivity).
  match type of E with
  | _ = Some (?l, (?t, ?c, ?b)) => exists l, t, c, b
  end.
  split; [exact E|].
  refine (base_box_loss_is_masked_l1 hungarian_unavailable corner_box iou_of_boxes
            hyp_single decoded_plain _ _ _ "train" [] _ _ _ _ 1
            E eq_refl eq_refl eq_refl eq_refl eq_refl _).
  intros i c Hi _ Hn. destruct i as [|i].
  - exfalso. apply Hn. simpl. lra.
  - exfalso. unfold outer_size_of in Hi. simpl in Hi. lia.
Defined.

(** ** The confidences of the decoder *)

Lemma rsum_map_div : forall {A} (f : A -> R) s l,
  rsum (map (fun x => f x / s) l) = rsum (map f l) / s.
Proof.
  intros A f s l. induction l as [|x l IH].
  - simpl. lra.
  - cbn [map]. unfold rsum in *. cbn [fold_right]. rewrite IH. lra.
Qed.

Lemma rsum_map_pos : forall {A} (f : A -> R) l,
  l <> [] -> (forall x, 0 < f x) -> 0 < rsum (map f l).
Proof.
  intros A f l Hl Hf. destruct l as [|x l]; [congruence|].
  cbn [map]. unfold rsum. cbn [fold_right].
  assert (0 <= fold_right Rplus 0 (map f l)).
  { apply (rsum_nonneg (map f l)). apply Forall_forall. intros y Hy.
    apply in_map_iff in Hy. destruct Hy as [z [<- _]]. left. apply Hf. }
  specialize (Hf x). lra.
Qed.

Lemma rsum_map_ge : forall {A} (f : A -> R) l x,
  In x l -> (forall y, 0 <= f y) -> f x <= rsum (map f l).
Proof.
  intros A f l x Hin Hf. induction l as [|y l IH]; [contradiction|].
  cbn [map]. unfold rsum in *. cbn [fold_right].
  assert (0 <= fold_right Rplus 0 (map f l)).
  { apply (rsum_nonneg (map f l)). apply Forall_forall. intros z Hz.
    apply in_map_iff in Hz. destruct Hz as [w [<- _]]. apply Hf. }
  destruct Hin as [<- | Hin].
  - lra.
  - specialize (IH Hin). specialize (Hf y). lra.
Qed.

(** Every row of a softmax is a probability distribution. *)
Lemma softmax_rows : forall t conf n c i,
  softmax t = Some conf -> tshape t = [n; c] -> (0 < c)%nat -> (i < n)%nat ->
  rsum (row_of c conf i) = 1
  /\ Forall (fun p => 0 < p <= 1) (row_of c conf i).
Proof.
  intros t conf n c i H Hs Hc Hi. unfold softmax in H. rewrite Hs in H.
  injection H as <-. rewrite row_of_tab2 by exact Hi.
  set (e := fun l => exp (get 0 t [i; l])).
  assert (Hpos : 0 < sum_n c e).
  { unfold sum_n. apply rsum_map_pos.
    - destruct c; [lia | discriminate].
    - intros l. apply exp_pos. }
  split.
  - change (rsum (map (fun l => e l / sum_n c e) (seq 0 c)) = 1).
    rewrite rsum_map_div. fold (sum_n c e). apply Rdiv_diag. lra.
  - apply Forall_forall. intros p Hp. apply in_map_iff in Hp.
    destruct Hp as [l [<- Hl]]. fold (e l). fold (sum_n c e).
    assert (He : 0 < e l) by apply exp_pos.
    assert (Hle : e l <= sum_n c e).
    { unfold sum_n. apply rsum_map_ge; [exact Hl|]. intros y. left. apply exp_pos. }
    split.
    + apply Rdiv_lt_0_compat; assumption.
    + apply (Rmult_le_reg_r (sum_n c e)); [exact Hpos|].
      unfold Rdiv. rewrite Rmult_assoc, Rinv_l by lra. lra.
Qed.

(** X13. The confidences that [decoder] returns hold, for every cell, a
    probability distribution over the classes: positive entries, none above
    1, of sum 1. *)
Theorem pred_confidences_are_distributions :
  forall bilinear_select interp_point hyp vars draws logits phase r,
  decoder bilinear_select interp_point hyp vars draws logits phase = Some r ->
  (0 < num_classes hyp)%nat ->
  forall i, (i < outer_size_of hyp)%nat ->
    rsum (row_of (num_classes hyp) (pred_confidences r) i) = 1
    /\ Forall (fun p => 0 < p <= 1) (row_of (num_classes hyp) (pred_confidences r) i).
Proof.
  intros bs ip hyp vars draws [[cnn_output early_feat] encoder_output] phase r H
         HC i Hi.
  apply decoder_inv in H.
  destruct H as (logits & conf & Hsm & Hs & _ & Hpc & _).
  rewrite Hpc.
  change (row_of (num_classes hyp)
            (Tensor [outer_size_of hyp; rnn_len hyp; num_classes hyp] (tdata conf)) i)
    with (row_of (num_classes hyp) conf i).
  eapply softmax_rows; eassumption.
Qed.

(** The confidences of the only cell of the example. *)
Lemma pred_confidences_are_distributions_witness :
  exists r,
    decoder select_centers interp_bilinear hyp_single vars_example draws_keep_all
            logits_example "val" = Some r
    /\ rsum (row_of 2 (pred_confidences r) 0) = 1.
Proof.
  destruct (decoder_total select_centers interp_bilinear hyp_single vars_example
              draws_keep_all (Tensor [1; 1; 1; 1]%nat [1]) (Tensor [1; 1; 1; 1]%nat [5])
              (Tensor [1]%nat [0]) "val" (or_intror eq_refl) eq_refl
              (decoder_variables_example hyp_single eq_refl eq_refl eq_refl) eq_refl
              (fun H => False_ind _ (Bool.diff_false_true H))) as (r & Hr).
  exists r. split; [exact Hr|].
  exact (proj1 (pred_confidences_are_distributions _ _ _ _ _ _ _ r Hr
                  (Nat.lt_0_succ 1) 0%nat Nat.lt_0_1)).
Defined.

(** ** Dropout in the decoder *)

Lemma get_scale : forall (t : tensor R) p idx,
  get 0 (tmap (fun x => x / p) t) idx = get 0 t idx / p.
Proof.
  intros t p idx. unfold get, tmap. cbn [tshape tdata].
  rewrite <- (map_nth (fun x => x / p)). f_equal.
  unfold Rdiv. now rewrite Rmult_0_l.
Qed.

Lemma dropout_keep_all : forall keep (t : tensor R) p,
  (forall j, keep j = true) -> dropout keep t p = tmap (fun x => x / p) t.
Proof.
  intros keep t p Hk. unfold dropout, tmap, size. f_equal.
  generalize 0%nat. induction (tdata t) as [|x l IH]; intros a.
  - reflexivity.
  - cbn [length seq combine map fst snd]. rewrite Hk, IH. reflexivity.
Qed.

(** Scaling the left operand of a matrix product scales the product. *)
Lemma matmul_scale_l : forall a b p ta tv,
  matmul (tmap (fun x => x / p) a) b = Some ta ->
  matmul a b = Some tv ->
  tdata ta = map (fun x => x / p) (tdata tv).
Proof.
  intros a b p ta tv Ha Hv. unfold matmul in *. cbn [tshape tmap] in Ha.
  destruct (tshape a) as [|n [|k [|? ?]]]; try discriminate.
  destruct (tshape b) as [|k' [|m [|? ?]]]; try discriminate.
  destruct (k =? k')%nat; [|discriminate].
  injection Ha as <-. injection Hv as <-.
  unfold tab. cbn [tdata]. rewrite map_map. apply map_ext. intros j.
  cbn [unravel]. unfold sum_n. rewrite <- rsum_map_div. f_equal.
  apply map_ext. intros l.
  change (Tensor (tshape a) (map (fun x => x / p) (tdata a)))
    with (tmap (fun x => x / p) a).
  rewrite get_scale. unfold Rdiv. ring.
Qed.

(** X14. Dropout scales what it keeps by [1 / 0.5]: when the draws of the
    train pass keep every unit of the fully connected layer, the boxes and
    the logits of the train pass are twice those of the val pass. *)
Theorem train_without_drops_doubles_val :
  forall bilinear_select interp_point hyp vars draws logits rt rv,
  (forall j, draw_raw_output draws j = true) ->
  decoder bilinear_select interp_point hyp vars draws logits "train" = Some rt ->
  decoder bilinear_select interp_point hyp vars draws logits "val" = Some rv ->
  tdata (pred_boxes rt) = map (fun x => 2 * x) (tdata (pred_boxes rv))
  /\ tdata (pred_logits rt) = map (fun x => 2 * x) (tdata (pred_logits rv)).
Proof.
  intros bs ip hyp vars draws [[cnn_output early_feat] encoder_output] rt rv
         Hkeep Ht Hv.
  unfold decoder in Ht, Hv. cbv zeta in Ht, Hv.
  change (String.eqb "train" "train") with true in Ht.
  change (String.eqb "val" "train") with false in Hv.
  cbv beta iota in Ht, Hv.
  peel1 Ht reuse_t Hre_t. peel1 Hv reuse_v Hre_v.
  peel1 Ht cnn_t Hcnn_t. peel1 Hv cnn_v Hcnn_v.
  rewrite Hcnn_t in Hcnn_v. injection Hcnn_v as <-.
  peel1 Ht raw_t Hraw_t. peel1 Hv raw_v Hraw_v.
  rewrite Hraw_t in Hraw_v. injection Hraw_v as <-.
  rewrite (dropout_keep_all (draw_raw_output draws)) in Ht by exact Hkeep.
  peel1 Ht bw_t Hbw_t. peel1 Hv bw_v Hbw_v.
  rewrite Hbw_t in Hbw_v. injection Hbw_v as <-.
  peel1 Ht cw_t Hcw_t. peel1 Hv cw_v Hcw_v.
  rewrite Hcw_t in Hcw_v. injection Hcw_v as <-.
  peel1 Ht bi_t Hbi_t. peel1 Hv bi_v Hbi_v.
  peel1 Ht pb_t Hpb_t. peel1 Hv pb_v Hpb_v.
  peel1 Ht ci_t Hci_t. peel1 Hv ci_v Hci_v.
  peel1 Ht lg_t Hlg_t. peel1 Hv lg_v Hlg_v.
  peel1 Ht sm_t Hsm_t. peel1 Hv sm_v Hsm_v.
  peel1 Ht cf_t Hcf_t. peel1 Hv cf_v Hcf_v.
  peel1 Ht dl_t Hdl_t. peel1 Hv dl_v Hdl_v.
  destruct dl_t as [cdt bdt], dl_v as [cdv bdv].
  injection Ht as <-. injection Hv as <-. cbn [pred_boxes pred_logits].
  apply reshape_Some in Hpb_t, Hpb_v, Hlg_t, Hlg_v.
  destruct Hpb_t as [-> _], Hpb_v as [-> _], Hlg_t as [-> _], Hlg_v as [-> _].
  cbn [tdata tmap].
  rewrite (matmul_scale_l _ _ _ _ _ Hbi_t Hbi_v).
  rewrite (matmul_scale_l _ _ _ _ _ Hci_t Hci_v).
  split.
  - rewrite !map_map. apply map_ext. intros x. lra.
  - apply map_ext. intros x. lra.
Qed.

(** The two passes on the example inputs. *)
Lemma train_without_drops_doubles_val_witness :
  exists rt rv,
    decoder select_centers interp_bilinear hyp_single vars_example draws_keep_all
            logits_example "train" = Some rt
    /\ decoder select_centers interp_bilinear hyp_single vars_example draws_keep_all
               logits_example "val" = Some rv
    /\ tdata (pred_boxes rt) = map (fun x => 2 * x) (tdata (pred_boxes rv)).
Proof.
  destruct (decoder_total select_centers interp_bilinear hyp_single vars_example
              draws_keep_all (Tensor [1; 1; 1; 1]%nat [1]) (Tensor [1; 1; 1; 1]%nat [5])
              (Tensor [1]%nat [0]) "train" (or_introl eq_refl) eq_refl
              (decoder_variables_example hyp_single eq_refl eq_refl eq_refl) eq_refl
              (fun H => False_ind _ (Bool.diff_false_true H))) as (rt & Hrt).
  destruct (decoder_total select_centers interp_bilinear hyp_single vars_example
              draws_keep_all (Tensor [1; 1; 1; 1]%nat [1]) (Tensor [1; 1; 1; 1]%nat [5])
              (Tensor [1]%nat [0]) "val" (or_intror eq_refl) eq_refl
              (decoder_variables_example hyp_single eq_refl eq_refl eq_refl) eq_refl
              (fun H => False_ind _ (Bool.diff_false_true H))) as (rv & Hrv).
  exists rt, rv. split; [exact Hrt|]. split; [exact Hrv|].
  exact (proj1 (train_without_drops_doubles_val select_centers interp_bilinear
                  hyp_single vars_example draws_keep_all logits_example rt rv
                  (fun _ => eq_refl) Hrt Hrv)).
Defined.

(** ** The decoder works cell by cell *)

Lemma nth_row_of : forall (t : tensor R) w i c,
  (c < w)%nat -> nth c (row_of w t i) 0 = nth (i * w + c) (tdata t) 0.
Proof.
  intros t w i c Hc. unfold row_of. rewrite nth_firstn.
  destruct (Nat.ltb_spec c w) as [_|]; [|lia]. apply nth_skipn.
Qed.

Lemma get2_nth : forall (t : tensor R) n m i c,
  tshape t = [n; m] -> get 0 t [i; c] = nth (i * m + c) (tdata t) 0.
Proof.
  intros t n m i c Hs. unfold get. rewrite Hs. cbn [ravel prod]. f_equal. lia.
Qed.

Lemma get_variable_Some : forall vars scope name shape t,
  get_variable vars scope name shape = Some t -> tshape t = shape.
Proof.
  intros vars scope name shape t H. unfold get_variable in H.
  peel1 H t' Ht'. destruct (eqb_shape (tshape t') shape) eqn:E; [|discriminate].
  injection H as <-. now apply eqb_shape_true.
Qed.

(** The entries of a matrix product, and its rows. *)
Lemma matmul_Some : forall a b t n k,
  matmul a b = Some t -> tshape a = [n; k] ->
  exists m,
    tshape b = [k; m] /\ tshape t = [n; m] /\ wf t
    /\ (forall i c, (i < n)%nat -> (c < m)%nat ->
          get 0 t [i; c] = sum_n k (fun l => get 0 a [i; l] * get 0 b [l; c]))
    /\ (forall i, (i < n)%nat ->
          row_of m t i
          = map (fun c => sum_n k (fun l => get 0 a [i; l] * get 0 b [l; c])) (seq 0 m)).
Proof.
  intros a b t n k H Ha. unfold matmul in H. rewrite Ha in H.
  destruct (tshape b) as [|k' [|m [|? ?]]] eqn:Hb; try discriminate.
  destruct (Nat.eqb_spec k k') as [<-|]; [|discriminate].
  injection H as <-. exists m.
  split; [reflexivity|]. split; [reflexivity|]. split; [apply wf_tab|].
  split.
  - intros i c Hi Hc. now rewrite get_tab by (simpl; lia).
  - intros i Hi. now rewrite row_of_tab2 by exact Hi.
Qed.

(** The entries of a tensor after dropout. *)
Lemma get_dropout : forall keep (t : tensor R) p n k i l,
  wf t -> tshape t = [n; k] -> (i < n)%nat -> (l < k)%nat ->
  get 0 (dropout keep t p) [i; l]
  = if keep (i * k + l)%nat then get 0 t [i; l] / p else 0.
Proof.
  intros keep t p n k i l Hwf Hs Hi Hl.
  rewrite (get2_nth t n k) by exact Hs.
  rewrite (get2_nth (dropout keep t p) n k) by exact Hs.
  unfold wf in Hwf. rewrite Hs in Hwf. cbn [prod] in Hwf.
  assert (HJ : (i * k + l < length (tdata t))%nat) by nia.
  unfold dropout, size. cbn [tdata].
  rewrite (nth_map_in (fun jx : nat * R => if keep (fst jx) then snd jx / p else 0)
             _ _ (0%nat, 0))
    by (rewrite length_combine, length_seq; lia).
  rewrite combine_nth by apply length_seq.
  rewrite seq_nth by exact HJ. reflexivity.
Qed.

(** The fully connected layer reads, for a cell, the features of that cell
    only. *)
Lemma fc_layer_rows : forall hyp vars c1 c2 raw1 raw2 i,
  _build_yolo_fc_layer hyp vars c1 = Some raw1 ->
  _build_yolo_fc_layer hyp vars c2 = Some raw2 ->
  (i < batch_size hyp * (grid_width hyp * grid_height hyp))%nat ->
  row_of (cnn_channels hyp) c1 i = row_of (cnn_channels hyp) c2 i ->
  let n := (batch_size hyp * (grid_width hyp * grid_height hyp))%nat in
  tshape raw1 = [n; lstm_size hyp] /\ tshape raw2 = [n; lstm_size hyp]
  /\ wf raw1 /\ wf raw2
  /\ forall l, (l < lstm_size hyp)%nat -> get 0 raw1 [i; l] = get 0 raw2 [i; l].
Proof.
  intros hyp vars c1 c2 raw1 raw2 i H1 H2 Hi Hrow n.
  unfold _build_yolo_fc_layer in H1, H2. cbv zeta in H1, H2. fold n in H1, H2, Hi.
  peel1 H1 in1 Hin1. peel1 H2 in2 Hin2. peel1 H1 w1 Hw1. peel1 H2 w2 Hw2.
  rewrite Hw1 in Hw2. injection Hw2 as <-.
  apply reshape_Some in Hin1, Hin2.
  destruct Hin1 as [-> _], Hin2 as [-> _].
  destruct (matmul_Some _ _ _ n (cnn_channels hyp) H1 eq_refl)
    as (m1 & Hb1 & Ht1 & Hwf1 & Hg1 & _).
  destruct (matmul_Some _ _ _ n (cnn_channels hyp) H2 eq_refl)
    as (m2 & Hb2 & Ht2 & Hwf2 & Hg2 & _).
  apply get_variable_Some in Hw1. rewrite Hw1 in Hb1, Hb2.
  injection Hb1 as <-. injection Hb2 as <-.
  split; [exact Ht1|]. split; [exact Ht2|]. split; [exact Hwf1|]. split; [exact Hwf2|].
  intros l Hl. rewrite Hg1, Hg2 by assumption.
  apply sum_n_ext. intros j Hj. f_equal.
  rewrite (get2_nth _ n (cnn_channels hyp)) by reflexivity.
  rewrite (get2_nth _ n (cnn_channels hyp)) by reflexivity.
  cbn [tdata tmap].
  assert (Hs : forall (d : list R) J,
             nth J (map (fun x => x * 0.01) d) 0 = nth J d 0 * 0.01).
  { intros d J. rewrite <- (map_nth (fun x => x * 0.01)). f_equal. lra. }
  rewrite !Hs. f_equal.
  rewrite <- !nth_row_of by exact Hj. now rewrite Hrow.
Qed.

(** X15. The decoder mixes no cells: the box, the logits and the
    confidences of a cell are the same for two encoder outputs that give
    this cell the same coarse features, under the same variables and the
    same dropout draws. *)
Theorem decoder_cell_locality :
  forall bilinear_select interp_point hyp vars draws phase
         cnn1 early1 enc1 cnn2 early2 enc2 r1 r2 i,
  decoder bilinear_select interp_point hyp vars draws (cnn1, early1, enc1) phase
  = Some r1 ->
  decoder bilinear_select interp_point hyp vars draws (cnn2, early2, enc2) phase
  = Some r2 ->
  (i < outer_size_of hyp)%nat ->
  row_of (cnn_channels hyp) cnn1 i = row_of (cnn_channels hyp) cnn2 i ->
  row_of 4 (pred_boxes r1) i = row_of 4 (pred_boxes r2) i
  /\ row_of (num_classes hyp) (pred_logits r1) i
     = row_of (num_classes hyp) (pred_logits r2) i
  /\ row_of (num_classes hyp) (pred_confidences r1) i
     = row_of (num_classes hyp) (pred_confidences r2) i.
Proof.
  intros bs ip hyp vars draws phase cnn1 early1 enc1 cnn2 early2 enc2 r1 r2 i
         H1 H2 Hi Hrow.
  unfold decoder in H1, H2. cbv zeta in H1, H2.
  fold (outer_size_of hyp) in H1, H2.
  set (N := outer_size_of hyp) in *.
  peel1 H1 reuse1 Hre1. peel1 H2 reuse2 Hre2.
  peel1 H1 rc1 Hc1. peel1 H2 rc2 Hc2.
  peel1 H1 raw1 Hraw1. peel1 H2 raw2 Hraw2.
  peel1 H1 bw1 Hbw1. peel1 H2 bw2 Hbw2. rewrite Hbw1 in Hbw2. injection Hbw2 as <-.
  peel1 H1 cw1 Hcw1. peel1 H2 cw2 Hcw2. rewrite Hcw1 in Hcw2. injection Hcw2 as <-.
  peel1 H1 bi1 Hbi1. peel1 H2 bi2 Hbi2.
  peel1 H1 pb1 Hpb1. peel1 H2 pb2 Hpb2.
  peel1 H1 ci1 Hci1. peel1 H2 ci2 Hci2.
  peel1 H1 lg1 Hlg1. peel1 H2 lg2 Hlg2.
  peel1 H1 sm1 Hsm1. peel1 H2 sm2 Hsm2.
  peel1 H1 cf1 Hcf1. peel1 H2 cf2 Hcf2.
  peel1 H1 dl1 Hdl1. peel1 H2 dl2 Hdl2.
  destruct dl1 as [cd1 bd1], dl2 as [cd2 bd2].
  injection H1 as <-. injection H2 as <-.
  cbn [pred_boxes pred_logits pred_confidences].
  apply reshape_Some in Hc1, Hc2, Hpb1, Hpb2, Hlg1, Hlg2, Hcf1, Hcf2.
  destruct Hc1 as [-> _], Hc2 as [-> _], Hpb1 as [-> _], Hpb2 as [-> _],
           Hlg1 as [-> _], Hlg2 as [-> _], Hcf1 as [-> _], Hcf2 as [-> _].
  set (n := (batch_size hyp * (grid_width hyp * grid_height hyp))%nat).
  assert (Hin : (i < n)%nat) by (unfold n, N, outer_size_of in *; lia).
  destruct (fc_layer_rows hyp vars _ _ raw1 raw2 i Hraw1 Hraw2 Hin Hrow)
    as (Hs1 & Hs2 & Hwf1 & Hwf2 & Hraw).
  fold n in Hs1, Hs2.
  set (d1 := if String.eqb phase "train"
             then dropout (draw_raw_output draws) raw1 0.5 else raw1) in *.
  set (d2 := if String.eqb phase "train"
             then dropout (draw_raw_output draws) raw2 0.5 else raw2) in *.
  assert (Hd1 : tshape d1 = [n; lstm_size hyp])
    by (unfold d1; rewrite tshape_maybe_dropout; exact Hs1).
  assert (Hd2 : tshape d2 = [n; lstm_size hyp])
    by (unfold d2; rewrite tshape_maybe_dropout; exact Hs2).
  assert (Hd : forall l, (l < lstm_size hyp)%nat -> get 0 d1 [i; l] = get 0 d2 [i; l]).
  { intros l Hl. unfold d1, d2. destruct (String.eqb phase "train").
    - rewrite (get_dropout _ raw1 _ n (lstm_size hyp)) by assumption.
      rewrite (get_dropout _ raw2 _ n (lstm_size hyp)) by assumption.
      now rewrite Hraw.
    - now apply Hraw. }
  destruct (matmul_Some _ _ _ n (lstm_size hyp) Hbi1 Hd1)
    as (mb & Hbs & _ & _ & _ & Hrb1).
  destruct (matmul_Some _ _ _ n (lstm_size hyp) Hbi2 Hd2)
    as (mb' & Hbs' & _ & _ & _ & Hrb2).
  rewrite Hbs in Hbs'. injection Hbs' as <-.
  apply get_variable_Some in Hbw1. rewrite Hbw1 in Hbs. injection Hbs as <-.
  destruct (matmul_Some _ _ _ n (lstm_size hyp) Hci1 Hd1)
    as (mc & Hcs & _ & _ & _ & Hrc1).
  destruct (matmul_Some _ _ _ n (lstm_size hyp) Hci2 Hd2)
    as (mc' & Hcs' & _ & _ & _ & Hrc2).
  rewrite Hcs in Hcs'. injection Hcs' as <-.
  apply get_variable_Some in Hcw1. rewrite Hcw1 in Hcs. injection Hcs as <-.
  assert (Hci : row_of (num_classes hyp) ci1 i = row_of (num_classes hyp) ci2 i).
  { rewrite Hrc1, Hrc2 by exact Hin. apply map_ext. intros c.
    apply sum_n_ext. intros l Hl. now rewrite Hd. }
  split; [|split].
  - unfold row_of. cbn [tdata tmap]. rewrite !skipn_map, !firstn_map.
    f_equal. change (row_of 4 bi1 i = row_of 4 bi2 i).
    rewrite Hrb1, Hrb2 by exact Hin. apply map_ext. intros c.
    apply sum_n_ext. intros l Hl. now rewrite Hd.
  - exact Hci.
  - unfold softmax in Hsm1, Hsm2. cbn [tshape] in Hsm1, Hsm2.
    injection Hsm1 as <-. injection Hsm2 as <-.
    change (row_of (num_classes hyp)
              (tab [N; num_classes hyp]
                 (fun idx => match idx with
                             | [a; j] =>
                                 exp (get 0 (Tensor [N; num_classes hyp] (tdata ci1)) [a; j])
                                 / sum_n (num_classes hyp)
                                     (fun l => exp (get 0 (Tensor [N; num_classes hyp]
                                                             (tdata ci1)) [a; l]))
                             | _ => 0
                             end)) i
            = row_of (num_classes hyp)
                (tab [N; num_classes hyp]
                   (fun idx => match idx with
                               | [a; j] =>
                                   exp (get 0 (Tensor [N; num_classes hyp] (tdata ci2)) [a; j])
                                   / sum_n (num_classes hyp)
                                       (fun l => exp (get 0 (Tensor [N; num_classes hyp]
                                                               (tdata ci2)) [a; l]))
                               | _ => 0
                               end)) i).
    rewrite !row_of_tab2 by exact Hi.
    assert (Hg : forall j, (j < num_classes hyp)%nat ->
               get 0 (Tensor [N; num_classes hyp] (tdata ci1)) [i; j]
               = get 0 (Tensor [N; num_classes hyp] (tdata ci2)) [i; j]).
    { intros j Hj.
      rewrite !(get2_nth _ N (num_classes hyp)) by reflexivity. cbn [tdata].
      rewrite <- !nth_row_of by exact Hj. now rewrite Hci. }
    apply map_ext_in. intros j Hj. apply in_seq in Hj.
    rewrite Hg by lia. f_equal.
    apply sum_n_ext. intros l Hl. now rewrite Hg.
Qed.

(** Two encoder outputs with the same coarse features and different early
    features. *)
Lemma decoder_cell_locality_witness :
  exists r1 r2,
    decoder select_centers interp_bilinear hyp_single vars_example draws_keep_all
            logits_example "train" = Some r1
    /\ decoder select_centers interp_bilinear hyp_single vars_example draws_keep_all
               (Tensor [1; 1; 1; 1]%nat [1], Tensor [1; 1; 1; 1]%nat [9],
                Tensor [1]%nat [3]) "train" = Some r2
    /\ row_of 4 (pred_boxes r1) 0 = row_of 4 (pred_boxes r2) 0.
Proof.
  destruct (decoder_total select_centers interp_bilinear hyp_single vars_example
              draws_keep_all (Tensor [1; 1; 1; 1]%nat [1]) (Tensor [1; 1; 1; 1]%nat [5])
              (Tensor [1]%nat [0]) "train" (or_introl eq_refl) eq_refl
              (decoder_variables_example hyp_single eq_refl eq_refl eq_refl) eq_refl
              (fun H => False_ind _ (Bool.diff_false_true H))) as (r1 & Hr1).
  destruct (decoder_total select_centers interp_bilinear hyp_single vars_example
              draws_keep_all (Tensor [1; 1; 1; 1]%nat [1]) (Tensor [1; 1; 1; 1]%nat [9])
              (Tensor [1]%nat [3]) "train" (or_introl eq_refl) eq_refl
              (decoder_variables_example hyp_single eq_refl eq_refl eq_refl) eq_refl
              (fun H => False_ind _ (Bool.diff_false_true H))) as (r2 & Hr2).
  exists r1, r2. split; [exact Hr1|]. split; [exact Hr2|].
  exact (proj1 (decoder_cell_locality select_centers interp_bilinear hyp_single
                  vars_example draws_keep_all "train" _ _ _ _ _ _ r1 r2 0%nat
                  Hr1 Hr2 Nat.lt_0_1 eq_refl)).
Defined.

(** ** What the accuracy reads *)

Lemma tab_ext : forall {A} s (F1 F2 : list nat -> A),
  (forall idx, in_bounds s idx -> F1 idx = F2 idx) -> tab s F1 = tab s F2.
Proof.
  intros A s F1 F2 H. unfold tab. f_equal. apply map_ext_in.
  intros j Hj. apply in_seq in Hj. apply H. apply unravel_in_bounds. lia.
Qed.

(** X16. The accuracy compares the first slot of every cell only: two
    decoded outputs of the right sizes whose confidences agree on the first
    slot of every cell have the same accuracy, whatever their other slots
    and their boxes hold. *)
Theorem accuracy_reads_first_slot :
  forall hyp labels d1 d2,
  let cells := (batch_size hyp * (grid_width hyp * grid_height hyp))%nat in
  let K := rnn_len hyp in
  let C := num_classes hyp in
  size (pred_confidences d1) = (cells * K * C)%nat ->
  size (pred_confidences d2) = (cells * K * C)%nat ->
  size (pred_boxes d1) = (cells * K * 4)%nat ->
  size (pred_boxes d2) = (cells * K * 4)%nat ->
  (forall j c, (j < cells)%nat -> (c < C)%nat ->
     nth (j * K * C + c) (tdata (pred_confidences d1)) 0
     = nth (j * K * C + c) (tdata (pred_confidences d2)) 0) ->
  phase_accuracy hyp labels d1 = phase_accuracy hyp labels d2.
Proof.
  intros hyp [[flags confidences] boxes] d1 d2 cells K C Hc1 Hc2 Hb1 Hb2 Hagree.
  unfold phase_accuracy. cbv zeta.
  set (G := (grid_width hyp * grid_height hyp)%nat) in *.
  fold K C.
  rewrite (reshape_ok (pred_confidences d1))
    by (rewrite Hc1; unfold cells; cbn [prod]; lia).
  rewrite (reshape_ok (pred_confidences d2))
    by (rewrite Hc2; unfold cells; cbn [prod]; lia).
  rewrite (reshape_ok (pred_boxes d1)) by (rewrite Hb1; unfold cells; cbn [prod]; lia).
  rewrite (reshape_ok (pred_boxes d2)) by (rewrite Hb2; unfold cells; cbn [prod]; lia).
  cbn [bind].
  destruct (select_slot 0 confidences 0) as [true_slot0|]; [|reflexivity].
  cbn [bind].
  destruct (argmax_axis2 true_slot0) as [true_argmax|]; [|reflexivity].
  cbn [bind].
  unfold select_slot. cbn [tshape].
  destruct (Nat.ltb_spec 0 K) as [HK|]; [|reflexivity].
  rewrite (tab_ext [batch_size hyp; G; C]
             (fun idx => match idx with
                         | [i; j; l] =>
                             get 0 (Tensor [batch_size hyp; G; K; C]
                                           (tdata (pred_confidences d1))) [i; j; 0%nat; l]
                         | _ => 0
                         end)
             (fun idx => match idx with
                         | [i; j; l] =>
                             get 0 (Tensor [batch_size hyp; G; K; C]
                                           (tdata (pred_confidences d2))) [i; j; 0%nat; l]
                         | _ => 0
                         end)); [reflexivity|].
  intros idx Hidx.
  destruct idx as [|i [|j [|l [|? ?]]]]; try reflexivity.
  cbn [in_bounds] in Hidx. destruct Hidx as (Hi & Hj & Hl & _).
  unfold get. cbn [tshape tdata ravel prod].
  replace (i * (G * (K * (C * 1))) + (j * (K * (C * 1)) + (0 * (C * 1) + (l * 1 + 0))))%nat
    with ((i * G + j) * K * C + l)%nat by lia.
  apply Hagree; [unfold cells; nia | exact Hl].
Qed.

(** Two outputs for one cell with two slots that differ in the second slot
    and in the boxes. *)
Lemma accuracy_reads_first_slot_witness :
  phase_accuracy hyp_two_slots labels_present
    {| pred_boxes := Tensor [1; 2; 4]%nat [0; 0; 2; 2; 1; 1; 1; 1];
       pred_logits := Tensor [2; 2]%nat [0; 1; 0; 0];
       pred_confidences := Tensor [1; 2; 2]%nat [0.2; 0.8; 0.5; 0.5];
       pred_confs_deltas := None;
       pred_boxes_deltas := None |}
  = phase_accuracy hyp_two_slots labels_present
      {| pred_boxes := Tensor [1; 2; 4]%nat [0; 0; 2; 2; 5; 5; 5; 5];
         pred_logits := Tensor [2; 2]%nat [0; 1; 0; 0];
         pred_confidences := Tensor [1; 2; 2]%nat [0.2; 0.8; 0.9; 0.1];
         pred_confs_deltas := None;
         pred_boxes_deltas := None |}.
Proof.
  apply (accuracy_reads_first_slot hyp_two_slots); try reflexivity.
  intros j c Hj Hc. cbn in Hj, Hc.
  destruct j as [|j]; [|lia].
  destruct c as [|[|c]]; [reflexivity | reflexivity | lia].
Defined.

(** ** The decoder feeds the evaluation and the loss *)

(** Phase, slots and sizes of what a successful [decoder] returns. *)
Lemma decoder_inv_sizes :
  forall bilinear_select interp_point hyp vars draws logits phase r,
  decoder bilinear_select interp_point hyp vars draws logits phase = Some r ->
  let N := outer_size_of hyp in
  (exists reuse, phase_reuse phase = Some reuse)
  /\ size (pred_logits r) = (N * num_classes hyp)%nat
  /\ size (pred_confidences r) = (N * num_classes hyp)%nat
  /\ tshape (pred_boxes r) = [N; 1%nat; 4%nat]
  /\ size (pred_boxes r) = (N * 4)%nat
  /\ ((0 < N * num_classes hyp)%nat -> rnn_len hyp = 1%nat).
Proof.
  intros bs ip hyp vars draws [[cnn_output early_feat] encoder_output] phase r H N.
  pose proof H as H'. apply decoder_inv in H'.
  destruct H' as (logits & conf & Hsm & Hs & Hpl & Hpc & Hsz & Hpb & Hwf).
  fold N in Hs, Hpc, Hsz, Hpb.
  unfold decoder in H. cbv zeta in H. fold (outer_size_of hyp) in H. fold N in H.
  peel1 H reuse Hre. peel1 H cnn Hcnn. peel1 H raw Hraw.
  peel1 H box_weights Hbw. peel1 H conf_weights Hcw. peel1 H box_ip Hbi.
  peel1 H pred_box Hpbx. peel1 H conf_ip Hci. peel1 H lg Hlg.
  peel1 H cf Hcf. peel1 H confr Hcr. peel1 H deltas Hdl.
  destruct deltas as [cd bd]. injection H as <-.
  cbn [pred_logits pred_confidences pred_boxes] in *.
  apply reshape_Some in Hlg. destruct Hlg as [-> Hlgs].
  apply reshape_Some in Hcr. destruct Hcr as [-> Hcrs].
  split; [now exists reuse|].
  split; [unfold size in *; cbn [tdata prod] in *; lia|].
  split; [unfold size in *; cbn [tdata prod] in *; lia|].
  split; [exact Hpb|].
  split; [unfold wf in Hwf; rewrite Hpb in Hwf; unfold size; rewrite Hwf;
          cbn [prod]; lia|].
  intros Hpos. nia.
Qed.

(** X17. What [decoder] returns for a non-empty grid is accepted by the
    accuracy of [evaluation]: with label confidences of shape
    [(batch_size, grid_size, slots, classes)] and at least one slot, the
    accuracy of the phase exists. *)
Theorem evaluation_accepts_decoder_output :
  forall bilinear_select interp_point hyp vars draws logits phase r
         flags confidences boxes slots classes,
  decoder bilinear_select interp_point hyp vars draws logits phase = Some r ->
  (0 < outer_size_of hyp * num_classes hyp)%nat ->
  tshape confidences
  = [batch_size hyp; (grid_width hyp * grid_height hyp)%nat; slots; classes] ->
  (0 < slots)%nat ->
  exists a, phase_accuracy hyp (flags, confidences, boxes) r = Some a.
Proof.
  intros bs ip hyp vars draws logits phase r flags confidences boxes slots classes
         H Hpos Hs Hslots.
  apply decoder_inv_sizes in H. cbv zeta in H.
  destruct H as (_ & _ & Hpc & _ & Hpb & HK).
  specialize (HK Hpos).
  unfold phase_accuracy. cbv zeta. rewrite HK.
  set (G := (grid_width hyp * grid_height hyp)%nat) in *.
  rewrite (reshape_ok (pred_confidences r))
    by (rewrite Hpc; unfold outer_size_of; fold G; cbn [prod]; lia).
  rewrite (reshape_ok (pred_boxes r))
    by (rewrite Hpb; unfold outer_size_of; fold G; cbn [prod]; lia).
  cbn [bind]. unfold select_slot. rewrite Hs. cbn [tshape].
  destruct (Nat.ltb_spec 0 slots) as [_|]; [|lia].
  cbn [bind Nat.ltb Nat.leb]. unfold argmax_axis2. cbn [tshape tab bind].
  unfold bop. cbn [tshape tab]. rewrite bshape2 by (unfold compat; auto).
  cbn [bind]. eauto.
Qed.

(** The decoded example cell against the example labels. *)
Lemma evaluation_accepts_decoder_output_witness :
  exists r a,
    decoder select_centers interp_bilinear hyp_single vars_example draws_keep_all
            logits_example "val" = Some r
    /\ phase_accuracy hyp_single labels_present r = Some a.
Proof.
  destruct (decoder_total select_centers interp_bilinear hyp_single vars_example
              draws_keep_all (Tensor [1; 1; 1; 1]%nat [1]) (Tensor [1; 1; 1; 1]%nat [5])
              (Tensor [1]%nat [0]) "val" (or_intror eq_refl) eq_refl
              (decoder_variables_example hyp_single eq_refl eq_refl eq_refl) eq_refl
              (fun H => False_ind _ (Bool.diff_false_true H))) as (r & Hr).
  destruct (evaluation_accepts_decoder_output select_centers interp_bilinear
              hyp_single vars_example draws_keep_all logits_example "val" r
              (fst (fst labels_present)) (snd (fst labels_present))
              (snd labels_present) 1%nat 2%nat Hr (Nat.lt_0_succ 1) eq_refl
              Nat.lt_0_1) as (a & Ha).
  exists r, a. split; [exact Hr | exact Ha].
Defined.

(** X18. Without rezoom and without the Hungarian matcher, what [decoder]
    returns for a non-empty grid and at least two classes is accepted by
    [loss] in the same phase: with one flag and one box per cell and two head
    weights, the three losses exist. *)
Theorem loss_accepts_decoder_output :
  forall bilinear_select interp_point hungarian to_x1y1x2y2_box iou_box
         hyp vars draws logits phase r flags confidences boxes losses,
  decoder bilinear_select interp_point hyp vars draws logits phase = Some r ->
  use_rezoom hyp = false ->
  use_lstm hyp = false ->
  (0 < outer_size_of hyp)%nat ->
  (2 <= num_classes hyp)%nat ->
  size flags = outer_size_of hyp ->
  size boxes = (outer_size_of hyp * 4)%nat ->
  (2 <= length (head_weights (solver hyp)))%nat ->
  exists losses' total conf boxl,
    loss hungarian to_x1y1x2y2_box iou_box hyp r (flags, confidences, boxes)
         phase losses = Some (losses', (total, conf, boxl)).
Proof.
  intros bs ip hungarian tb ib hyp vars draws logits phase r flags confidences
         boxes losses H Hrz Hl HN HC Hfl Hbx Hhead.
  apply decoder_inv_sizes in H. cbv zeta in H.
  destruct H as ((reuse & Hre) & Hpl & _ & Hpbs & _ & HK).
  specialize (HK ltac:(nia)).
  unfold loss. cbv zeta. fold (outer_size_of hyp).
  set (N := outer_size_of hyp) in *.
  rewrite Hre, HK. cbn [bind].
  rewrite (reshape_ok boxes) by (rewrite Hbx; cbn [prod]; lia). cbn [bind].
  rewrite (reshape_ok flags) by (rewrite Hfl; cbn [prod]; lia).
  cbn [option_map bind].
  unfold match_truth. rewrite Hl.
  rewrite (reshape_ok flags) by (rewrite Hfl; cbn [prod]; lia). cbn [bind].
  rewrite reshape_ok by (unfold size; cbn [tdata prod]; fold (size boxes); lia).
  cbn [bind].
  rewrite reshape_ok
    by (rewrite size_tmap; unfold size; cbn [tdata prod]; fold (size flags); lia).
  cbn [bind].
  rewrite reshape_ok
    by (rewrite size_tmap; unfold size; cbn [tdata prod]; fold (size flags); lia).
  cbn [bind].
  rewrite (reshape_ok (pred_logits r)) by (rewrite Hpl; cbn [prod]; lia).
  cbn [bind].
  unfold sparse_softmax_cross_entropy_with_logits. cbn [tshape tdata tmap].
  rewrite Nat.eqb_refl. cbn [andb].
  assert (Hlab : forallb (fun l => (0 <=? l)%Z && (l <? Z.of_nat (num_classes hyp))%Z)
                         (map (fun c => b2z (Rgtb c 0)) (tdata flags)) = true).
  { apply forallb_forall. intros z Hz. apply in_map_iff in Hz.
    destruct Hz as [x [<- _]]. apply andb_true_iff.
    destruct (Rgtb x 0); cbn [b2z]; split;
      first [apply Z.leb_le; lia | apply Z.ltb_lt; lia]. }
  rewrite Hlab. cbn [guard bind].
  destruct (head_weights (solver hyp)) as [|h0 [|h1 hs]] eqn:Eh;
    [simpl in Hhead; lia | simpl in Hhead; lia |].
  cbn [nth_error bind].
  unfold bop at 1. rewrite Hpbs. cbn [tshape].
  rewrite bshape3 by (unfold compat; auto).
  rewrite ?bdim_same, ?bdim_1_l, ?bdim_1_r. cbn [bind].
  unfold bop at 1. cbn [tshape tab].
  rewrite bshape3 by (unfold compat; auto).
  rewrite ?bdim_same, ?bdim_1_l, ?bdim_1_r. cbn [bind].
  rewrite reshape_ok by (rewrite size_tab; reflexivity).
  cbn [bind]. rewrite Hrz. unfold register_loss. eauto.
Qed.

(** The decoded example cell against the labels of [labels_present]. *)
Lemma loss_accepts_decoder_output_witness :
  exists r losses' total conf boxl,
    decoder select_centers interp_bilinear hyp_single vars_example draws_keep_all
            logits_example "train" = Some r
    /\ loss hungarian_unavailable corner_box iou_of_boxes hyp_single r
            labels_present "train" [] = Some (losses', (total, conf, boxl)).
Proof.
  destruct (decoder_total select_centers interp_bilinear hyp_single vars_example
              draws_keep_all (Tensor [1; 1; 1; 1]%nat [1]) (Tensor [1; 1; 1; 1]%nat [5])
              (Tensor [1]%nat [0]) "train" (or_introl eq_refl) eq_refl
              (decoder_variables_example hyp_single eq_refl eq_refl eq_refl) eq_refl
              (fun H => False_ind _ (Bool.diff_false_true H))) as (r & Hr).
  destruct (loss_accepts_decoder_output select_centers interp_bilinear
              hungarian_unavailable corner_box iou_of_boxes
              hyp_single vars_example draws_keep_all logits_example "train" r
              (fst (fst labels_present)) (snd (fst labels_present))
              (snd labels_present) [] Hr eq_refl eq_refl Nat.lt_0_1 (Nat.le_refl 2)
              eq_refl eq_refl (Nat.le_refl 2)) as (l' & t & c & b & Hloss).
  exists r, l', t, c, b. split; [exact Hr | exact Hloss].
Defined.

(** ** What a successful [decoder] requires *)

Lemma mapM_In : forall {A B} (f : A -> option B) l bs,
  mapM f l = Some bs -> forall a, In a l -> exists b, f a = Some b.
Proof.
  intros A B f l. induction l as [|x l IH]; intros bs H a Ha; [contradiction|].
  cbn [mapM] in H. peel1 H b Hb. peel1 H bs' Hbs.
  destruct Ha as [<- | Ha]; [eauto | eapply IH; eassumption].
Qed.

Lemma list_prod_nil_r : forall {A B} (l : list A), list_prod l (@nil B) = [].
Proof. intros A B l. induction l as [|x l IH]; [reflexivity | exact IH]. Qed.

Lemma get_variable_has : forall vars scope name shape t,
  get_variable vars scope name shape = Some t ->
  has_variable vars (scope ++ "/" ++ name)%string shape.
Proof.
  intros vars scope name shape t H. unfold get_variable in H.
  peel1 H t' Ht'. destruct (eqb_shape (tshape t') shape) eqn:E; [|discriminate].
  exists t'. split; [exact Ht' | now apply eqb_shape_true].
Qed.

(** The variables read by one round of the loop of [apply_rezoom]. *)
Lemma rezoom_slot_variables :
  forall hyp vars draws phase outer_size raw_output rezoom_features k res,
  rezoom_slot hyp vars draws phase outer_size
              (length (rezoom_w_coords hyp) * length (rezoom_h_coords hyp))
              raw_output rezoom_features k = Some res ->
  rezoom_variables hyp vars k.
Proof.
  intros hyp vars draws phase outer_size raw_output rezoom_features k res H.
  unfold rezoom_slot in H. cbv zeta in H.
  peel1 H rezoom_k Hk. peel1 H delta_features Hdf. peel1 H w1 Hw1.
  peel1 H ip1 Hip. peel1 H w2 Hw2. peel1 H bd Hbd.
  apply get_variable_has in Hw1, Hw2.
  unfold rezoom_variables. split; [exact Hw1|]. split; [exact Hw2|].
  intros Hr. rewrite Hr in Hbd. peel1 Hbd wb Hwb.
  now apply get_variable_has in Hwb.
Qed.

(** X19. A call of [decoder] that returns has been given a known phase,
    coarse features of [num_ex * cnn_channels] entries and a store with the
    three variables of the decoder in their shapes; with [use_rezoom] also
    rank-4 early features, at least one offset in each direction and the
    variables of every slot. *)
Theorem decoder_requirements :
  forall bilinear_select interp_point hyp vars draws cnn_output early_feat
         encoder_output phase r,
  decoder bilinear_select interp_point hyp vars draws
          (cnn_output, early_feat, encoder_output) phase = Some r ->
  (phase = "train"%string \/ phase = "val"%string)
  /\ size cnn_output
     = (batch_size hyp * grid_width hyp * grid_height hyp * cnn_channels hyp)%nat
  /\ decoder_variables hyp vars
  /\ (use_rezoom hyp = true ->
      (exists b h w ch, tshape early_feat = [b; h; w; ch])
      /\ rezoom_w_coords hyp <> [] /\ rezoom_h_coords hyp <> []
      /\ forall k, (k < rnn_len hyp)%nat -> rezoom_variables hyp vars k).
Proof.
  intros bs ip hyp vars draws cnn_output early_feat encoder_output phase r H.
  unfold decoder in H. cbv zeta in H.
  peel1 H reuse Hre. peel1 H cnn Hcnn. peel1 H raw Hraw.
  peel1 H box_weights Hbw. peel1 H conf_weights Hcw. peel1 H box_ip Hbi.
  peel1 H pred_box Hpb. peel1 H conf_ip Hci. peel1 H lg Hlg.
  peel1 H cf Hcf. peel1 H confr Hcr. peel1 H deltas Hdl.
  split; [eapply phase_reuse_Some; exact Hre|].
  split.
  { apply reshape_Some in Hcnn. destruct Hcnn as [_ Hsz]. cbn [prod] in Hsz. lia. }
  split.
  { unfold _build_yolo_fc_layer in Hraw. cbv zeta in Hraw.
    peel1 Hraw lstm_input Hin. peel1 Hraw w Hw.
    apply get_variable_has in Hw, Hbw, Hcw.
    unfold decoder_variables. split; [exact Hw|]. split; [exact Hbw | exact Hcw]. }
  intros Hrz. rewrite Hrz in Hdl.
  apply option_map_Some in Hdl. destruct Hdl as [[cd bd] [Hap _]].
  unfold apply_rezoom in Hap. cbv zeta in Hap.
  peel1 Hap ef Hef. peel1 Hap rf Hrf. peel1 Hap slots Hslots.
  split.
  { unfold take_channels in Hef.
    destruct (tshape early_feat) as [|b [|h [|w [|ch [|? ?]]]]]; try discriminate.
    now exists b, h, w, ch. }
  assert (Hpairs : list_prod (rezoom_w_coords hyp) (rezoom_h_coords hyp) <> []).
  { unfold _rezoom in Hrf. cbv zeta in Hrf.
    peel1 Hrf indices Hind. peel1 Hrf interp_indices Hcat.
    intros Hnil. rewrite Hnil in Hind. cbn [mapM] in Hind.
    injection Hind as <-. discriminate. }
  split; [intros Hw; apply Hpairs; now rewrite Hw|].
  split; [intros Hh; apply Hpairs; rewrite Hh; apply list_prod_nil_r|].
  intros k Hk.
  destruct (mapM_In _ _ _ Hslots k) as [res Hres]; [apply in_seq; lia|].
  eapply rezoom_slot_variables. exact Hres.
Qed.

(** The requirements on the rezoom example. *)
Lemma decoder_requirements_witness :
  decoder_variables hyp_rezoom vars_example
  /\ rezoom_variables hyp_rezoom vars_example 0.
Proof.
  destruct (decoder_total select_centers interp_bilinear hyp_rezoom vars_example
              draws_keep_all (Tensor [1; 1; 1; 1]%nat [1]) (Tensor [1; 1; 1; 1]%nat [5])
              (Tensor [1]%nat [0]) "val" (or_intror eq_refl) eq_refl
              (decoder_variables_example hyp_rezoom eq_refl eq_refl eq_refl) eq_refl
              (fun _ => rezoom_ready_example)) as (r & Hr).
  destruct (decoder_requirements _ _ _ _ _ _ _ _ _ r Hr) as (_ & _ & Hv & Hz).
  split; [exact Hv|].
  exact (proj2 (proj2 (proj2 (Hz eq_refl))) 0%nat Nat.lt_0_1).
Defined.

(** ** The deltas handed to the loss *)

(** The delta boxes of one round of the loop of [apply_rezoom]. *)
Lemma rezoom_slot_boxes :
  forall hyp vars draws phase outer_size num_offsets raw_output rezoom_features k c bd,
  rezoom_slot hyp vars draws phase outer_size num_offsets raw_output
              rezoom_features k = Some (c, bd) ->
  (reregress hyp = true ->
   exists t, bd = Some t /\ tshape t = [outer_size; 1%nat; 4%nat])
  /\ (reregress hyp = false -> bd = None).
Proof.
  intros hyp vars draws phase outer_size num_offsets raw_output rezoom_features
         k c bd H.
  unfold rezoom_slot in H. cbv zeta in H.
  peel1 H rezoom_k Hk. peel1 H delta_features Hdf. peel1 H w1 Hw1.
  peel1 H ip1 Hip. peel1 H w2 Hw2. peel1 H bd' Hbd.
  peel1 H feature2 Hf2. peel1 H conf_delta Hcd. injection H as _ <-.
  destruct (reregress hyp).
  - split; [intros _ | discriminate].
    peel1 Hbd wb Hwb. peel1 Hbd rere Hrere. peel1 Hbd t Ht. injection Hbd as <-.
    apply reshape_Some in Ht. destruct Ht as [-> _]. eauto.
  - split; [discriminate | intros _]. now injection Hbd as <-.
Qed.

(** X20. The deltas that [decoder] returns have the shapes that [loss]
    reads them in. Without rezoom there are none. With rezoom, on a
    non-empty grid, the delta confidences are a well-sized
    [(outer_size * rnn_len, num_classes)] tensor, and the delta boxes are an
    [(outer_size, rnn_len, 4)] tensor with [reregress] and absent without. *)
Theorem decoder_delta_shapes :
  forall bilinear_select interp_point hyp vars draws logits phase r,
  let N := outer_size_of hyp in
  decoder bilinear_select interp_point hyp vars draws logits phase = Some r ->
  (0 < N * num_classes hyp)%nat ->
  (use_rezoom hyp = false ->
   pred_confs_deltas r = None /\ pred_boxes_deltas r = None)
  /\ (use_rezoom hyp = true ->
      (exists deltas,
         pred_confs_deltas r = Some deltas
         /\ tshape deltas = [(N * rnn_len hyp)%nat; num_classes hyp]
         /\ wf deltas)
      /\ (reregress hyp = false -> pred_boxes_deltas r = None)
      /\ (reregress hyp = true ->
          exists pbd, pred_boxes_deltas r = Some pbd
                      /\ tshape pbd = [N; rnn_len hyp; 4%nat])).
Proof.
  intros bs ip hyp vars draws logits phase r N H Hpos.
  pose proof H as Hsz. apply decoder_inv_sizes in Hsz. cbv zeta in Hsz.
  destruct Hsz as (_ & _ & _ & _ & _ & HK). specialize (HK Hpos).
  destruct logits as [[cnn_output early_feat] encoder_output].
  unfold decoder in H. cbv zeta in H. fold (outer_size_of hyp) in H. fold N in H.
  peel1 H reuse Hre. peel1 H cnn Hcnn. peel1 H raw Hraw.
  peel1 H box_weights Hbw. peel1 H conf_weights Hcw. peel1 H box_ip Hbi.
  peel1 H pred_box Hpb. peel1 H conf_ip Hci. peel1 H lg Hlg.
  peel1 H cf Hcf. peel1 H confr Hcr. peel1 H deltas Hdl.
  destruct deltas as [cd bd]. injection H as <-.
  cbn [pred_confs_deltas pred_boxes_deltas].
  split.
  - intros Hrz. rewrite Hrz in Hdl. injection Hdl as <- <-. auto.
  - intros Hrz. rewrite Hrz in Hdl.
    apply option_map_Some in Hdl. destruct Hdl as [[cd' bd'] [Hap Heq]].
    cbn [fst snd] in Heq. injection Heq as -> ->.
    unfold apply_rezoom in Hap. cbv zeta in Hap.
    fold (outer_size_of hyp) in Hap. fold N in Hap.
    peel1 Hap ef Hef. peel1 Hap rf Hrf. peel1 Hap slots Hslots.
    peel1 Hap pcd Hpcd. peel1 Hap pcd2 Hpcd2. peel1 Hap squash Hsq.
    peel1 Hap sm Hsm. peel1 Hap conf Hconf. peel1 Hap pbd Hpbd.
    injection Hap as <- <-.
    apply reshape_Some in Hpcd2. destruct Hpcd2 as [-> Hsize].
    split.
    { eexists. split; [reflexivity|]. split; [reflexivity|].
      unfold wf. cbn [tshape tdata]. exact Hsize. }
    rewrite HK in Hslots. cbn [seq mapM] in Hslots.
    peel1 Hslots slot0 Hs0. destruct slot0 as [c0 b0].
    cbn [bind] in Hslots. injection Hslots as <-.
    apply rezoom_slot_boxes in Hs0. destruct Hs0 as [Hyes Hno].
    rewrite HK.
    destruct (reregress hyp).
    + split; [discriminate | intros _].
      destruct (Hyes eq_refl) as (t & -> & Ht).
      cbn [collect_boxes] in Hpbd.
      apply option_map_Some in Hpbd. destruct Hpbd as [u [Hu ->]].
      unfold concat1 in Hu. rewrite Ht in Hu.
      destruct (forallb _ [t]); [|discriminate].
      exists u. split; [reflexivity|]. injection Hu as <-.
      cbn [tshape]. rewrite Ht. reflexivity.
    + split; [intros _ | discriminate]. now injection Hpbd as <-.
Qed.

(** The deltas of the rezoom example. *)
Lemma decoder_delta_shapes_witness :
  exists r deltas,
    decoder select_centers interp_bilinear hyp_rezoom vars_example draws_keep_all
            logits_example "val" = Some r
    /\ pred_confs_deltas r = Some deltas
    /\ tshape deltas = [1; 2]%nat.
Proof.
  destruct (decoder_total select_centers interp_bilinear hyp_rezoom vars_example
              draws_keep_all (Tensor [1; 1; 1; 1]%nat [1]) (Tensor [1; 1; 1; 1]%nat [5])
              (Tensor [1]%nat [0]) "val" (or_intror eq_refl) eq_refl
              (decoder_variables_example hyp_rezoom eq_refl eq_refl eq_refl) eq_refl
              (fun _ => rezoom_ready_example)) as (r & Hr).
  destruct (decoder_delta_shapes select_centers interp_bilinear hyp_rezoom
              vars_example draws_keep_all logits_example "val" r Hr
              (Nat.lt_0_succ 1)) as (_ & Hz).
  destruct (Hz eq_refl) as ((deltas & Hd & Hs & _) & _).
  exists r, deltas. split; [exact Hr|]. split; [exact Hd | exact Hs].
Defined.
